(** * Boost detection and reconciliation pipeline: a shallow embedding

    The development follows the TypeScript sources:
    - [text-detection/index.ts]: [detectOdds], [parsePercentageFromText],
      [detectOddsComparison], [detectBetAmount], [detectSeeAllText] (the
      text part, after OCR);
    - [utils/boostCalculator.ts]: [americanToDecimal],
      [calculateActualBoostPercentage], [verifyBoostAccuracy];
    - [index.ts]: the tracking globals, [isDifferentBoost], [checkNoNewBoost],
      [checkNumberFailures], the ['screenData'] handler, [extractWasOdds]
      and [formatUptime];
    - [utils/imageCleanup.ts]: [cleanupDirectory], [cleanupOldImages],
      [keepRecentImages], over a file system of named directories;
    - [airconnect/index.ts]: the crop regions of [captureScreen] and the
      flags of the event it emits;
    - [discord-bot/index.ts]: [formatUptime] and the role tags of
      [sendBoostToChannel];
    - the image cropping module: [getPixelBasedCropBounds], from the raw
      pixels on.

    Conventions.
    - A JavaScript string is a list of UTF-16 code units ([list N]).
    - Regular expressions are kept as the source's pattern text and run by a
      backtracking matcher with the ECMAScript priorities (leftmost start,
      alternatives left to right, greedy and lazy quantifiers).
    - A JavaScript number is an extended rational ([JsNum.num]): arithmetic is
      exact, so the rounding error and the overflow of IEEE doubles are not
      modelled; [NaN] and the infinities are kept.  Where the exact value
      sits on a rounding tie, the doubles may round it the other way.
      Integers read by [parseInt] and clock readings are exact integers
      ([Z]).
    - OCR, image processing and the Discord client are collaborators: the
      parsers take the recognised text, the handler takes the outcome of a
      capture cycle and returns the list of messages it hands to the bot.
    - Of the file system the image directories are kept: a directory is the
      list of its entries, an entry a name with its modification time; the
      contents of the files and the failures of [fs] are not modelled.
    - The event loop runs one callback at a time; a handler invocation is
      one step, its [await]s are not interleaved with the two timers. *)

From Stdlib Require Import List ZArith NArith QArith Qround Qabs Bool Lia Lqa Ascii String.
From Stdlib Require Import Permutation Sorted.
Import ListNotations.

Set Implicit Arguments.

(** ** JavaScript strings *)

Module JsString.

Local Open Scope N_scope.

Definition char := N.
Definition jsstring := list char.

(** UTF-8 bytes of a literal to UTF-16 code units. *)
Fixpoint decode (bs : list N) : jsstring :=
  match bs with
  | [] => []
  | b0 :: t0 =>
    if (b0 <? 128)%N then b0 :: decode t0
    else match t0 with
      | [] => []
      | b1 :: t1 =>
        if (b0 <? 224)%N then ((b0 mod 32) * 64 + b1 mod 64)%N :: decode t1
        else match t1 with
          | [] => []
          | b2 :: t2 =>
            if (b0 <? 240)%N
            then ((b0 mod 16) * 4096 + (b1 mod 64) * 64 + b2 mod 64)%N :: decode t2
            else match t2 with
              | [] => []
              | b3 :: t3 =>
                let cp := ((b0 mod 8) * 262144 + (b1 mod 64) * 4096
                           + (b2 mod 64) * 64 + b3 mod 64 - 65536)%N in
                (55296 + cp / 1024)%N :: (56320 + cp mod 1024)%N :: decode t3
              end
          end
      end
  end.

Definition str (s : string) : jsstring :=
  decode (map N_of_ascii (list_ascii_of_string s)).

Definition ch (a : ascii) : char := N_of_ascii a.

Definition between (lo hi c : char) : bool := ((lo <=? c) && (c <=? hi))%N.

Definition is_digit (c : char) : bool := between 48 57 c.
Definition is_lower (c : char) : bool := between 97 122 c.
Definition is_upper (c : char) : bool := between 65 90 c.

(** [\w] is [A-Za-z0-9_]. *)
Definition is_word (c : char) : bool :=
  is_lower c || is_upper c || is_digit c || (c =? 95)%N.

(** [\s]: WhiteSpace and LineTerminator code units. *)
Definition is_space (c : char) : bool :=
  between 9 13 c || (c =? 32)%N || (c =? 160)%N || (c =? 5760)%N
  || between 8192 8202 c || (c =? 8232)%N || (c =? 8233)%N
  || (c =? 8239)%N || (c =? 8287)%N || (c =? 12288)%N || (c =? 65279)%N.

Definition is_line_terminator (c : char) : bool :=
  (c =? 10)%N || (c =? 13)%N || (c =? 8232)%N || (c =? 8233)%N.

Definition upper (c : char) : char := if is_lower c then (c - 32)%N else c.
Definition lower (c : char) : char := if is_upper c then (c + 32)%N else c.

(** [toLowerCase] on the ASCII letters; the literals it is compared with
    below are ASCII and contain neither [k] nor [i], the only ASCII letters
    a non-ASCII code unit lowers to. *)
Definition toLowerCase (s : jsstring) : jsstring := map lower s.

Fixpoint eqb (a b : jsstring) : bool :=
  match a, b with
  | [], [] => true
  | x :: a', y :: b' => (x =? y)%N && eqb a' b'
  | _, _ => false
  end.

Fixpoint startsWith (s p : jsstring) : bool :=
  match p, s with
  | [], _ => true
  | y :: p', x :: s' => (x =? y)%N && startsWith s' p'
  | _ :: _, [] => false
  end.

(** [s.indexOf(p)]: [None] stands for -1. *)
Fixpoint indexOf_from (s p : jsstring) (i : nat) : option nat :=
  if startsWith s p then Some i
  else match s with
       | [] => None
       | _ :: s' => indexOf_from s' p (S i)
       end.

Definition indexOf (s p : jsstring) : option nat := indexOf_from s p 0%nat.

Definition includes (s p : jsstring) : bool :=
  match indexOf s p with Some _ => true | None => false end.

(** [s.substring(a)] and [s.substring(a, b)] for [a <= b]. *)
Definition substring_from (s : jsstring) (a : nat) : jsstring := skipn a s.
Definition slice (s : jsstring) (a b : nat) : jsstring := firstn (b - a)%nat (skipn a s).

(** [s.replace(p, q)] with a string pattern: the first occurrence only. *)
Definition replace_first (s p q : jsstring) : jsstring :=
  match indexOf s p with
  | Some i => firstn i s ++ q ++ skipn (i + List.length p)%nat s
  | None => s
  end.



(** Truthiness of a [string | null] value. *)
Definition truthy (o : option jsstring) : bool :=
  match o with
  | Some (_ :: _) => true
  | _ => false
  end.


(** [parseInt(s)] without a radix: leading white space, a sign, a [0x]
    prefix, then the longest run of digits; [None] stands for NaN. *)
Fixpoint skip_ws (s : jsstring) : jsstring :=
  match s with
  | c :: t => if is_space c then skip_ws t else s
  | [] => []
  end.

Definition digit_val (c : char) : Z := Z.of_N (c - 48).

Definition hex_val (c : char) : option Z :=
  if is_digit c then Some (Z.of_N (c - 48))
  else if between 97 102 c then Some (Z.of_N (c - 87))
  else if between 65 70 c then Some (Z.of_N (c - 55))
  else None.

Fixpoint dec_run (s : jsstring) (acc : Z) : Z :=
  match s with
  | c :: t => if is_digit c then dec_run t (acc * 10 + digit_val c)%Z else acc
  | [] => acc
  end.

Fixpoint hex_run (s : jsstring) (acc : Z) : Z :=
  match s with
  | c :: t => match hex_val c with
              | Some v => hex_run t (acc * 16 + v)%Z
              | None => acc
              end
  | [] => acc
  end.

Definition parse_magnitude (s : jsstring) : option Z :=
  match s with
  | c :: x :: t =>
    if (c =? 48) && ((x =? 120) || (x =? 88))
    then match t with
         | h :: _ =>
           match hex_val h with
           | Some _ => Some (hex_run t 0%Z)
           | None => None
           end
         | [] => None
         end
    else if is_digit c then Some (dec_run s 0%Z) else None
  | c :: [] => if is_digit c then Some (dec_run s 0%Z) else None
  | [] => None
  end.

Definition parseInt (s : jsstring) : option Z :=
  match skip_ws s with
  | c :: t =>
    if c =? 45 then option_map Z.opp (parse_magnitude t)
    else if c =? 43 then parse_magnitude t
    else parse_magnitude (c :: t)
  | [] => None
  end.

End JsString.

(** ** Regular expressions *)

Module Regex.

Import JsString.
Local Open Scope N_scope.

(** Members of a character class. *)
Inductive citem :=
| CChar (c : char)
| CRange (lo hi : char)
| CDigit | CNotDigit
| CSpace | CNotSpace
| CWord | CNotWord.

Inductive regex :=
| REmpty
| RFail
| RChar (c : char)
| RAny
| RClass (neg : bool) (items : list citem)
| RSeq (r1 r2 : regex)
| RAlt (r1 r2 : regex)
| RRep (mn : nat) (mx : option nat) (greedy : bool) (r : regex)
| RGroup (idx : nat) (r : regex)
| RWordB
| RStart
| REnd.

(** *** Reading a pattern *)

Fixpoint take_digits (s : jsstring) (acc : nat) (seen : bool) : option (nat * jsstring) :=
  match s with
  | c :: t =>
    if is_digit c then take_digits t (acc * 10 + N.to_nat (c - 48))%nat true
    else if seen then Some (acc, s) else None
  | [] => if seen then Some (acc, []) else None
  end.

(** A [?] after a quantifier makes it lazy. *)
Definition p_lazy (s : jsstring) : bool * jsstring :=
  match s with
  | 63 :: t => (false, t)
  | _ => (true, s)
  end.

(** [*] is 42, [+] 43, [?] 63, [{] 123, [,] 44, [}] 125. *)
Definition p_quant (s : jsstring) : option (nat * option nat * bool * jsstring) :=
  match s with
  | 42 :: t => let (g, t') := p_lazy t in Some (0%nat, None, g, t')
  | 43 :: t => let (g, t') := p_lazy t in Some (1%nat, None, g, t')
  | 63 :: t => let (g, t') := p_lazy t in Some (0%nat, Some 1%nat, g, t')
  | 123 :: t =>
    match take_digits t 0 false with
    | Some (n, 125 :: t1) => let (g, t') := p_lazy t1 in Some (n, Some n, g, t')
    | Some (n, 44 :: 125 :: t1) => let (g, t') := p_lazy t1 in Some (n, None, g, t')
    | Some (n, 44 :: t1) =>
      match take_digits t1 0 false with
      | Some (m, 125 :: t2) => let (g, t') := p_lazy t2 in Some (n, Some m, g, t')
      | _ => None
      end
    | _ => None
    end
  | _ => None
  end.

(** An escape outside a class: [\d \D \s \S \w \W \b \n \t \r], else the
    character itself. *)
Definition esc_atom (c : char) : regex :=
  if c =? 100 then RClass false [CDigit]
  else if c =? 68 then RClass false [CNotDigit]
  else if c =? 115 then RClass false [CSpace]
  else if c =? 83 then RClass false [CNotSpace]
  else if c =? 119 then RClass false [CWord]
  else if c =? 87 then RClass false [CNotWord]
  else if c =? 98 then RWordB
  else if c =? 110 then RChar 10
  else if c =? 116 then RChar 9
  else if c =? 114 then RChar 13
  else RChar c.

Definition esc_item (c : char) : citem :=
  if c =? 100 then CDigit
  else if c =? 68 then CNotDigit
  else if c =? 115 then CSpace
  else if c =? 83 then CNotSpace
  else if c =? 119 then CWord
  else if c =? 87 then CNotWord
  else if c =? 98 then CChar 8
  else if c =? 110 then CChar 10
  else if c =? 116 then CChar 9
  else if c =? 114 then CChar 13
  else CChar c.

(** The inside of [[...]], up to the closing bracket (93); 92 is the
    backslash and 45 the hyphen. *)
Fixpoint p_class (s : jsstring) : option (list citem * jsstring) :=
  match s with
  | [] => None
  | 93 :: t => Some ([], t)
  | 92 :: c :: t =>
    match p_class t with
    | Some (its, r) => Some (esc_item c :: its, r)
    | None => None
    end
  | a :: 45 :: b :: t =>
    if b =? 93 then Some ([CChar a; CChar 45], t)
    else if b =? 92 then None
    else match p_class t with
         | Some (its, r) => Some (CRange a b :: its, r)
         | None => None
         end
  | a :: t =>
    match p_class t with
    | Some (its, r) => Some (CChar a :: its, r)
    | None => None
    end
  end.

Definition mk_seq (a b : regex) : regex :=
  match b with
  | REmpty => a
  | _ => RSeq a b
  end.

Definition with_quant (a : regex) (t : jsstring) : regex * jsstring :=
  match p_quant t with
  | Some (mn, mx, gr, t') => (RRep mn mx gr a, t')
  | None => (a, t)
  end.

(** Disjunction, alternative and atom; [g] is the number the next capturing
    group gets.  [(] is 40, [)] 41, [|] 124, [[] 91, [^] 94, [.] 46, [$] 36. *)
Fixpoint p_alt (fuel : nat) (s : jsstring) (g : nat) {struct fuel}
  : option (regex * jsstring * nat) :=
  match fuel with
  | O => None
  | S f =>
    match p_seq f s g with
    | Some (r1, 124 :: t, g1) =>
      match p_alt f t g1 with
      | Some (r2, t2, g2) => Some (RAlt r1 r2, t2, g2)
      | None => None
      end
    | other => other
    end
  end
with p_seq (fuel : nat) (s : jsstring) (g : nat) {struct fuel}
  : option (regex * jsstring * nat) :=
  match fuel with
  | O => None
  | S f =>
    match s with
    | [] => Some (REmpty, s, g)
    | 41 :: _ => Some (REmpty, s, g)
    | 124 :: _ => Some (REmpty, s, g)
    | _ =>
      match p_atom f s g with
      | Some (a, t, g1) =>
        let (a', t') := with_quant a t in
        match p_seq f t' g1 with
        | Some (r, t2, g2) => Some (mk_seq a' r, t2, g2)
        | None => None
        end
      | None => None
      end
    end
  end
with p_atom (fuel : nat) (s : jsstring) (g : nat) {struct fuel}
  : option (regex * jsstring * nat) :=
  match fuel with
  | O => None
  | S f =>
    match s with
    | 40 :: 63 :: 58 :: t =>
      match p_alt f t g with
      | Some (r, 41 :: t', g') => Some (r, t', g')
      | _ => None
      end
    | 40 :: t =>
      match p_alt f t (S g) with
      | Some (r, 41 :: t', g') => Some (RGroup g r, t', g')
      | _ => None
      end
    | 91 :: 94 :: t =>
      match p_class t with
      | Some (its, t') => Some (RClass true its, t', g)
      | None => None
      end
    | 91 :: t =>
      match p_class t with
      | Some (its, t') => Some (RClass false its, t', g)
      | None => None
      end
    | 92 :: c :: t => Some (esc_atom c, t, g)
    | 46 :: t => Some (RAny, t, g)
    | 94 :: t => Some (RStart, t, g)
    | 36 :: t => Some (REnd, t, g)
    | c :: t => Some (RChar c, t, g)
    | [] => None
    end
  end.

Definition parse (p : jsstring) : option regex :=
  match p_alt (4 * List.length p + 8) p 1 with
  | Some (r, [], _) => Some r
  | _ => None
  end.

(** A regular expression literal [/pat/flags]. *)
Record regexp := { body : regex; ignoreCase : bool; global : bool }.

Definition has_flag (f : ascii) (flags : string) : bool :=
  existsb (fun a => (N_of_ascii a =? N_of_ascii f)) (list_ascii_of_string flags).

Definition rx (pat flags : string) : regexp :=
  {| body := match parse (str pat) with Some r => r | None => RFail end;
     ignoreCase := has_flag "i" flags;
     global := has_flag "g" flags |}.

(** *** Matching *)

(** Where the matcher stands: index, the code unit before it, the rest. *)
Record mstate := { pos : nat; prev : option char; rest : jsstring }.

Definition advance (st : mstate) (x : char) (t : jsstring) : mstate :=
  {| pos := S (pos st); prev := Some x; rest := t |}.

(** Captures: the latest binding of a group comes first. *)
Definition caps := list (nat * (nat * nat)).

Fixpoint cap_lookup (i : nat) (cs : caps) : option (nat * nat) :=
  match cs with
  | [] => None
  | (j, se) :: t => if Nat.eqb i j then Some se else cap_lookup i t
  end.

Definition in_item (it : citem) (c : char) : bool :=
  match it with
  | CChar x => x =? c
  | CRange lo hi => between lo hi c
  | CDigit => is_digit c
  | CNotDigit => negb (is_digit c)
  | CSpace => is_space c
  | CNotSpace => negb (is_space c)
  | CWord => is_word c
  | CNotWord => negb (is_word c)
  end.

(** With the [i] flag two code units match when their canonical (upper
    case) forms agree; the patterns below hold ASCII letters and symbols
    without case, for which the ASCII case mapping decides this. *)
Definition char_match (icase : bool) (p c : char) : bool :=
  if icase then upper p =? upper c else p =? c.

Definition class_match (icase : bool) (neg : bool) (items : list citem) (c : char) : bool :=
  xorb neg
    (existsb (fun it => in_item it c
                        || (icase && (in_item it (upper c) || in_item it (lower c))))
             items).

Definition opt_is_word (o : option char) : bool :=
  match o with
  | Some c => is_word c
  | None => false
  end.

Definition at_boundary (st : mstate) : bool :=
  xorb (opt_is_word (prev st)) (opt_is_word (hd_error (rest st))).

Definition below (count : nat) (mx : option nat) : bool :=
  match mx with
  | Some m => Nat.ltb count m
  | None => true
  end.

Definition orelse {A : Type} (a b : option A) : option A :=
  match a with
  | Some _ => a
  | None => b
  end.

Section Matcher.

Variable icase : bool.
Variable A : Type.

Definition cont := mstate -> caps -> option A.

(** One repetition [r{mn,mx}] over the matcher [m] of its body: one more
    round is tried before (greedy) or after (lazy) going on; once the minimum
    is reached a round that consumes nothing is refused, so the rounds are
    bounded by the minimum plus the length of the rest. *)
Fixpoint rep_loop (m : mstate -> caps -> cont -> option A)
         (mn : nat) (mx : option nat) (greedy : bool) (k : cont)
         (fuel count : nat) (st : mstate) (cs : caps) {struct fuel} : option A :=
  match fuel with
  | O => None
  | S fuel' =>
    let round :=
      if below count mx
      then m st cs
             (fun st' cs' =>
                if Nat.leb mn count && Nat.eqb (pos st') (pos st) then None
                else rep_loop m mn mx greedy k fuel' (S count) st' cs')
      else None in
    let stop := if Nat.leb mn count then k st cs else None in
    if greedy then orelse round stop else orelse stop round
  end.

(** Backtracking match in continuation style. *)
Fixpoint mtch (r : regex) (st : mstate) (cs : caps) (k : cont) {struct r} : option A :=
  match r with
  | REmpty => k st cs
  | RFail => None
  | RChar c =>
    match rest st with
    | x :: t => if char_match icase c x then k (advance st x t) cs else None
    | [] => None
    end
  | RAny =>
    match rest st with
    | x :: t => if is_line_terminator x then None else k (advance st x t) cs
    | [] => None
    end
  | RClass neg items =>
    match rest st with
    | x :: t => if class_match icase neg items x then k (advance st x t) cs else None
    | [] => None
    end
  | RSeq r1 r2 => mtch r1 st cs (fun st' cs' => mtch r2 st' cs' k)
  | RAlt r1 r2 => orelse (mtch r1 st cs k) (mtch r2 st cs k)
  | RGroup i r1 =>
    mtch r1 st cs (fun st' cs' => k st' ((i, (pos st, pos st')) :: cs'))
  | RRep mn mx greedy r1 =>
    rep_loop (mtch r1) mn mx greedy k (mn + List.length (rest st) + 1)%nat 0%nat st cs
  | RWordB => if at_boundary st then k st cs else None
  | RStart => if Nat.eqb (pos st) 0 then k st cs else None
  | REnd =>
    match rest st with
    | [] => k st cs
    | _ :: _ => None
    end
  end.

(** The atoms of a pattern in sequence, groups opened up. *)
Fixpoint mlist (l : list regex) (st : mstate) (cs : caps) (k : cont) : option A :=
  match l with
  | [] => k st cs
  | a :: t => mtch a st cs (fun st' cs' => mlist t st' cs' k)
  end.

End Matcher.

(** A successful match: the subject, the matched span and the captures. *)
Record rmatch := { m_text : jsstring; m_start : nat; m_end : nat; m_caps : caps }.

(** [m[0]]. *)
Definition m0 (m : rmatch) : jsstring := slice (m_text m) (m_start m) (m_end m).

(** [m[i]] for a group; every group read below takes part in each match of
    its pattern, the empty string stands for one that does not. *)
Definition grp (m : rmatch) (i : nat) : jsstring :=
  match cap_lookup i (m_caps m) with
  | Some (s, e) => slice (m_text m) s e
  | None => []
  end.

Definition exec_at (r : regexp) (st : mstate) : option (nat * caps) :=
  mtch (ignoreCase r) (body r) st [] (fun st' cs' => Some (pos st', cs')).

(** The leftmost start at or after the current one that matches. *)
Fixpoint search (r : regexp) (text : jsstring) (p : nat) (pv : option char)
         (rs : jsstring) {struct rs} : option rmatch :=
  match exec_at r {| pos := p; prev := pv; rest := rs |} with
  | Some (e, cs) => Some {| m_text := text; m_start := p; m_end := e; m_caps := cs |}
  | None =>
    match rs with
    | [] => None
    | x :: t => search r text (S p) (Some x) t
    end
  end.

Definition search_from (r : regexp) (text : jsstring) (p : nat) : option rmatch :=
  search r text p (match p with O => None | S q => nth_error text q end) (skipn p text).

(** [text.match(r)] for [r] without the [g] flag, and [r.test(text)]. *)
Definition match_first (text : jsstring) (r : regexp) : option rmatch :=
  search_from r text 0.

Definition test (r : regexp) (text : jsstring) : bool :=
  match match_first text r with Some _ => true | None => false end.

(** All matches of a [g] pattern, each search resuming where the last match
    ended (one further after an empty match). *)
Fixpoint all_from (fuel : nat) (r : regexp) (text : jsstring) (p : nat) : list rmatch :=
  match fuel with
  | O => []
  | S f =>
    if Nat.ltb (List.length text) p then []
    else match search_from r text p with
         | None => []
         | Some m =>
           m :: all_from f r text
                  (if Nat.eqb (m_end m) (m_start m) then S (m_end m) else m_end m)
         end
  end.

(** [[...text.matchAll(r)]]. *)
Definition matchAll (text : jsstring) (r : regexp) : list rmatch :=
  all_from (List.length text + 2) r text 0.

(** [text.match(r)] for [r] with the [g] flag: the matched strings, or
    [null] when there is none. *)
Definition match_global (text : jsstring) (r : regexp) : option (list jsstring) :=
  match matchAll text r with
  | [] => None
  | ms => Some (map m0 ms)
  end.

(** [text.replace(r, fn)] for [r] with the [g] flag. *)
Fixpoint splice (text : jsstring) (cur : nat) (ms : list rmatch)
         (fn : rmatch -> jsstring) : jsstring :=
  match ms with
  | [] => skipn cur text
  | m :: t => slice text cur (m_start m) ++ fn m ++ splice text (m_end m) t fn
  end.

Definition replace_global (text : jsstring) (r : regexp) (fn : rmatch -> jsstring) : jsstring :=
  splice text 0 (matchAll text r) fn.

(** The sequence of atoms a pattern starts with: sequences and groups are
    opened up, anything else is an atom. *)
Fixpoint skeleton (r : regex) : list regex :=
  match r with
  | REmpty => []
  | RSeq r1 r2 => skeleton r1 ++ skeleton r2
  | RGroup _ r1 => skeleton r1
  | other => [other]
  end.

(** A match attempt that does not fail. *)
Definition succeeds {A : Type} (o : option A) : Prop := o <> None.

(** [k'] succeeds wherever [k] does, whatever the captures. *)
Definition follows {A B : Type} (k : cont A) (k' : cont B) : Prop :=
  forall st c c', succeeds (k st c) -> succeeds (k' st c').

(** [r2] has the case flag of [r1] and starts with the atoms of [r1]. *)
Definition extends (r1 r2 : regexp) : Prop :=
  ignoreCase r1 = ignoreCase r2
  /\ exists l, skeleton (body r2) = skeleton (body r1) ++ l.

(** The pattern text was read in full. *)
Definition well_read (r : regexp) : bool :=
  match body r with
  | RFail => false
  | _ => true
  end.

End Regex.

(** ** text-detection/index.ts *)

Module TextDetection.

Import JsString Regex.
Local Open Scope string_scope.
Local Open Scope list_scope.

(** *** parsePercentageFromText *)









(** *** detectOdds, from the recognised text on *)

(** A sign is kept, a missing one becomes [+]. *)
Definition signed (s : jsstring) : jsstring :=
  if startsWith s (str "+") || startsWith s (str "-") then s else str "+" ++ s.

Definition plus_signed (s : jsstring) : jsstring :=
  if startsWith s (str "+") then s else str "+" ++ s.

(** [s.replace(/[+\-]/g, '')] and [s.replace(/[+\-]/, '')]. *)
Definition strip_signs (s : jsstring) : jsstring :=
  replace_global s (rx "[+\-]" "g") (fun _ => []).

Definition strip_first_sign (s : jsstring) : jsstring :=
  match match_first s (rx "[+\-]" "") with
  | Some m => firstn (m_start m) s ++ skipn (m_end m) s
  | None => s
  end.

(** Comparisons of numbers that may be NaN ([None]). *)
Definition num_lt (a b : option Z) : bool :=
  match a, b with Some x, Some y => (x <? y)%Z | _, _ => false end.
Definition num_le (a b : option Z) : bool :=
  match a, b with Some x, Some y => (x <=? y)%Z | _, _ => false end.
Definition num_neq (a b : option Z) : bool :=
  match a, b with Some x, Some y => negb (x =? y)%Z | _, _ => true end.

(** The OCR clean-up of the recognised text. *)
Definition cleanText (text : jsstring) : jsstring :=
  let t1 := replace_global text (rx "Wos\s*([+\-]?\d{3,5})\s+5(\d{3})" "g")
              (fun m =>
                 let lastThree := grp m 2 in
                 if eqb lastThree (str "578")
                 then replace_first (m0 m) (str "5" ++ lastThree) (str "8" ++ lastThree)
                 else m0 m) in
  let t2 := replace_global t1 (rx "\b(\d)6(\d{2,3})\b" "g")
              (fun m =>
                 let first := grp m 1 in
                 let rest := grp m 2 in
                 if Nat.eqb (List.length rest) 2 && eqb rest (str "00")
                 then first ++ str "0" ++ rest
                 else m0 m) in
  let t3 := replace_global t2 (rx "([+\-]?)I(\d{3,4})" "g")
              (fun m => grp m 1 ++ str "1" ++ grp m 2) in
  replace_global t3 (rx "([+\-]?)Z(\d{3,4})" "g")
    (fun m => grp m 1 ++ str "2" ++ grp m 2).

(** The function either returns a pair or goes on with the two variables
    [preBoost] and [postBoost]. *)
Inductive flow :=
| Return (preBoost postBoost : option jsstring)
| Next (preBoost postBoost : option jsstring).

Definition andThen (f : flow) (k : option jsstring -> option jsstring -> flow) : flow :=
  match f with
  | Return a b => Return a b
  | Next a b => k a b
  end.

Notation "f >>= k" := (andThen f k) (at level 50, left associativity).

Definition unset (pre post : option jsstring) : bool :=
  negb (truthy pre) && negb (truthy post).

(** "SIMPLE: Direct odds extraction". *)
Definition directOdds (text : jsstring) (pre post : option jsstring) : flow :=
  match match_first text (rx "([+\-]\d{3,5})" "") with
  | Some directOddsMatch =>
    if unset pre post then
      let preBoost := m0 directOddsMatch in
      let allOddsMatches :=
        match match_global text (rx "[+\-]?\d{3,5}" "g") with Some l => l | None => [] end in
      match find (fun cleanMatch => negb (eqb cleanMatch preBoost)) (map signed allOddsMatches) with
      | Some cleanMatch => Next (Some preBoost) (Some cleanMatch)
      | None => Next (Some preBoost) post
      end
    else Next pre post
  | None => Next pre post
  end.

(** "PRIMARY": [Was <odds> <separator> Now <odds>]. *)
Definition wasNowSeparator (text : jsstring) (pre post : option jsstring) : flow :=
  match match_first text (rx "Was\s*([+\-]?\d{3,5})\s*[>→»]\s*Now\s*([+\-]?\d{3,5})" "i") with
  | Some m => Return (Some (signed (grp m 1))) (Some (signed (grp m 2)))
  | None => Next pre post
  end.

(** "SECONDARY": [Was <odds>], then [Now <odds>] or the next odds. *)
Definition simpleWas (text : jsstring) (pre post : option jsstring) : flow :=
  match match_first text (rx "Was\s*([+\-]?\d{3,5})" "i") with
  | Some simpleWasPattern =>
    if unset pre post then
      let preBoost := signed (grp simpleWasPattern 1) in
      match match_first text (rx "Now\s*([+\-]?\d{3,5})" "i") with
      | Some nowPattern => Return (Some preBoost) (Some (signed (grp nowPattern 1)))
      | None =>
        let matched := m0 simpleWasPattern in
        let afterWasText :=
          substring_from text
            (match indexOf text matched with
             | Some i => i + List.length matched
             | None => List.length matched - 1
             end) in
        let postBoost :=
          match match_first afterWasText (rx "([+\-]?\d{3,5})" "") with
          | Some nextOddsMatch =>
            let nextOdds := signed (grp nextOddsMatch 1) in
            if negb (eqb nextOdds preBoost) then Some nextOdds else post
          | None => post
          end in
        if truthy (Some preBoost) && truthy postBoost
        then Return (Some preBoost) postBoost
        else Next (Some preBoost) postBoost
      end
    else Next pre post
  | None => Next pre post
  end.

(** "ENHANCED": alternative separators, one pattern after the other. *)
Definition alternativeSeparatorPatterns : list regexp :=
  [ rx "Was\s*([+\-]?\d{3,5})\s*[|\\.,:;]\s*([+\-]?\d{3,5})" "i";
    rx "Was\s*([+\-]?\d{3,5})\s+([+\-]\d{3,5})" "i";
    rx "Was\s*([+\-]?\d{3,5})\s*\w*\s*([+\-]\d{3,5})" "i" ].

Definition alternativeSeparator1 (pattern : regexp) (text : jsstring)
           (pre post : option jsstring) : flow :=
  match match_first text pattern with
  | Some m =>
    if unset pre post
    then Return (Some (signed (grp m 1))) (Some (signed (grp m 2)))
    else Next pre post
  | None => Next pre post
  end.

Definition alternativeSeparator (text : jsstring) (pre post : option jsstring) : flow :=
  fold_left (fun f pattern => f >>= alternativeSeparator1 pattern text)
            alternativeSeparatorPatterns (Next pre post).

(** "OCR CORRECTION": the token after [Was <odds>]. *)
Definition correctedOdds (ocrText : jsstring) : option jsstring :=
  if eqb (toLowerCase ocrText) (str "1b") then Some (str "+1800")
  else if eqb (toLowerCase ocrText) (str "lb") then Some (str "+180")
  else if test (rx "^\d+[a-zA-Z]$" "") ocrText then
    match match_first ocrText (rx "^\d+" "") with
    | Some m => if truthy (Some (m0 m)) then Some (str "+" ++ m0 m ++ str "0") else None
    | None => None
    end
  else None.

Definition wasWithOcrError (text : jsstring) (pre post : option jsstring) : flow :=
  match match_first text (rx "Was\s*([+\-]?\d{3,5})\s+(\w+)" "i") with
  | Some m =>
    if unset pre post then
      let preBoost := signed (grp m 1) in
      let corrected := correctedOdds (grp m 2) in
      if truthy corrected then Return (Some preBoost) corrected
      else Next (Some preBoost) post
    else Next pre post
  | None => Next pre post
  end.

(** "FALLBACK": [Was] and two odds numbers. *)
Definition wasGeneral (text : jsstring) (pre post : option jsstring) : flow :=
  match match_first text (rx "Was.*?(\+?\d{3,5}).*?(\+?\d{3,5})" "i") with
  | Some m =>
    if unset pre post
    then Return (Some (plus_signed (grp m 1))) (Some (plus_signed (grp m 2)))
    else Next pre post
  | None => Next pre post
  end.

Definition sameLineWasNow (text : jsstring) (pre post : option jsstring) : flow :=
  match match_first text (rx "Was\s*([+\-]?\d{3,5})\s*(?:Now|→|->|\s)\s*([+\-]?\d{3,5})" "i") with
  | Some m =>
    if unset pre post
    then Return (Some (signed (grp m 1))) (Some (signed (grp m 2)))
    else Next pre post
  | None => Next pre post
  end.

(** Standalone [Was]: the first odds number above the [Was] value. *)
Definition standaloneWas (text : jsstring) (pre post : option jsstring) : flow :=
  match match_first text (rx "Was\s*[+\-]?(\d{3,5})" "i") with
  | Some m =>
    if unset pre post then
      let wasValue := parseInt (grp m 1) in
      let preBoost := str "+" ++ grp m 1 in
      match match_global text (rx "[+\-]?\d{3,5}" "g") with
      | Some allOddsMatches =>
        match find (fun cleanOdds =>
                      let oddsValue := parseInt cleanOdds in
                      num_lt wasValue oddsValue && num_neq oddsValue wasValue)
                   (map strip_first_sign allOddsMatches) with
        | Some cleanOdds => Next (Some preBoost) (Some (str "+" ++ cleanOdds))
        | None => Next (Some preBoost) post
        end
      | None => Next (Some preBoost) post
      end
    else Next pre post
  | None => Next pre post
  end.

(** "PRIORITY CHECK": the validated [Was ... Now] pair. *)
Definition wasNowFull (text : jsstring) (pre post : option jsstring) : flow :=
  match match_global text (rx "Was\s*[+\-]?(\d{3,5})\s*.*?(?:v|→|Now)\s*[+\-]?(\d{3,5})" "gi") with
  | Some (fullMatch :: _) =>
    match match_first fullMatch (rx "Was\s*[+\-]?(\d{3,5})" "i"),
          match_first fullMatch (rx "(?:v|→|Now)\s*[+\-]?(\d{3,5})" "i") with
    | Some wasNum, Some nowNum =>
      if unset pre post then
        let preValue := parseInt (grp wasNum 1) in
        let postValue := parseInt (grp nowNum 1) in
        let swap := num_lt postValue preValue in
        let preOdds := if swap then str "+" ++ grp nowNum 1 else str "+" ++ grp wasNum 1 in
        let postOdds := if swap then str "+" ++ grp wasNum 1 else str "+" ++ grp nowNum 1 in
        if swap && num_lt (parseInt (grp nowNum 1)) (parseInt (grp wasNum 1))
        then Return None None
        else
          let finalPreValue := parseInt (replace_first preOdds (str "+") []) in
          let finalPostValue := parseInt (replace_first postOdds (str "+") []) in
          if num_le finalPostValue finalPreValue
          then Return None None
          else Return (Some preOdds) (Some postOdds)
      else Next pre post
    | _, _ => Next pre post
    end
  | _ => Next pre post
  end.

(** The [Wos] misreading of [Was]. *)
Definition wos (text : jsstring) (pre post : option jsstring) : flow :=
  match match_first text
          (rx "Wos\s*([+\-]?\d{3,5})\s+([+\-]?\d{2,5}|[iv]\d{2,5}|[58]\d{3,4})" "i") with
  | Some wosPattern =>
    if unset pre post then
      let preBoost := signed (grp wosPattern 1) in
      let postMatch := grp wosPattern 2 in
      let postBoost :=
        if startsWith postMatch (str "i") || startsWith postMatch (str "v")
        then str "+1" ++ substring_from postMatch 1
        else if eqb postMatch (str "5578") then str "+" ++ str "8578"
        else if negb (startsWith postMatch (str "+")) && negb (startsWith postMatch (str "-"))
        then str "+" ++ postMatch
        else postMatch in
      let preValue := parseInt (strip_signs preBoost) in
      let postValue := parseInt (strip_signs postBoost) in
      if num_le postValue preValue
      then Return None None
      else Return (Some preBoost) (Some postBoost)
    else Next pre post
  | None => Next pre post
  end.

(** The individual [Was] / [Now] patterns. *)
Definition wasNowPatterns : list regexp :=
  [ rx "Was\s*[+\-]?\s*(\d{3,5})" "gi";
    rx "Now\s*[+\-]?\s*(\d{3,5})" "gi";
    rx "Was\s*[+\-]?(\d{3,5})\s*.*?Now\s*[+\-]?(\d{3,5})" "gi" ].

Definition individual1 (st : option jsstring * option jsstring) (m : rmatch)
  : option jsstring * option jsstring :=
  let (pre, post) := st in
  let pre' := if includes (toLowerCase (m0 m)) (str "was") && negb (truthy pre)
              then Some (str "+" ++ grp m 1) else pre in
  let post' := if includes (toLowerCase (m0 m)) (str "now") && negb (truthy post)
               then Some (str "+" ++ grp m 1) else post in
  (pre', post').

Definition individual (text : jsstring) (pre post : option jsstring) : flow :=
  if negb (truthy pre) || negb (truthy post) then
    let (pre', post') :=
      fold_left (fun st pattern => fold_left individual1 (matchAll text pattern) st)
                wasNowPatterns (pre, post) in
    Next pre' post'
  else Next pre post.

(** "NEW": a pre-boost value without a post-boost one.  The loop state is
    the post-boost value and whether the loop has left through [break]. *)
Definition searchPost1 (preBoostValue : option Z) (st : option jsstring * bool)
           (numberMatch : jsstring) : option jsstring * bool :=
  let (post, broke) := st in
  if broke then st
  else
    let numberValue := parseInt (strip_signs numberMatch) in
    if num_neq numberValue preBoostValue
       && num_lt (Some 100%Z) numberValue && num_lt numberValue (Some 10000%Z)
    then
      let post' := Some (signed numberMatch) in
      if num_lt (Some 0%Z) preBoostValue && num_lt preBoostValue numberValue
      then (post', true)
      else if num_lt (Some 0%Z) preBoostValue && num_lt numberValue preBoostValue
      then (post', true)
      else (post', false)
    else st.

Definition searchPost (text : jsstring) (pre post : option jsstring) : flow :=
  match pre with
  | Some preBoost =>
    if truthy pre && negb (truthy post) then
      let allNumbers :=
        match match_global text (rx "[+\-]?\d{3,5}" "g") with Some l => l | None => [] end in
      let preBoostValue := parseInt (strip_signs preBoost) in
      Next pre (fst (fold_left (searchPost1 preBoostValue) allNumbers (post, false)))
    else Next pre post
  | None => Next pre post
  end.

(** The closing [Was] / [Now] look-up and the final [return]. *)
Definition lastWasNow (text : jsstring) (pre post : option jsstring) : flow :=
  let wasMatch := match_first text (rx "Was\s*([+\-]?\d{3,5})" "i") in
  let nowMatch := match_first text (rx "Now\s*([+\-]?\d{3,5})" "i") in
  let pre' := match wasMatch with
              | Some m => if negb (truthy pre) then Some (grp m 1) else pre
              | None => pre
              end in
  let post' := match nowMatch with
               | Some m => if negb (truthy post) then Some (grp m 1) else post
               | None => post
               end in
  Return pre' post'.

(** [detectOdds] on the text OCR returned for the odds crop. *)
Definition detectOdds (text : jsstring) : option jsstring * option jsstring :=
  let textToAnalyze := cleanText text in
  match Next None None
        >>= directOdds textToAnalyze
        >>= wasNowSeparator textToAnalyze
        >>= simpleWas textToAnalyze
        >>= alternativeSeparator textToAnalyze
        >>= wasWithOcrError textToAnalyze
        >>= wasGeneral textToAnalyze
        >>= sameLineWasNow textToAnalyze
        >>= standaloneWas textToAnalyze
        >>= wasNowFull textToAnalyze
        >>= wos textToAnalyze
        >>= individual textToAnalyze
        >>= searchPost textToAnalyze
        >>= lastWasNow textToAnalyze
  with
  | Return preBoost postBoost => (preBoost, postBoost)
  | Next preBoost postBoost => (preBoost, postBoost)
  end.

(** *** detectOddsComparison, from the recognised text on *)

Definition oddsPatterns : list regexp :=
  [ rx "Was\s*([+-]?\d+)\s*[>→]\s*Now\s*([+-]?\d+)" "i";
    rx "Was\s*([+-]?\d+)\s*>\s*Now\s*([+-]?\d+)" "i";
    rx "([+-]?\d+)\s*[>→]\s*([+-]?\d+)" "";
    rx "Was\s*([+-]?\d+)[\s\S]*?Now\s*([+-]?\d+)" "i";
    rx "Was\s*\+?(\d+)[\s\S]*?Now\s*\+?(\d+)" "i" ].

Record oddsComparison := {
  originalOdds : option jsstring;
  boostedOdds : option jsstring;
  detectedText : option jsstring
}.

Fixpoint firstPattern (text : jsstring) (ps : list regexp) : option rmatch :=
  match ps with
  | [] => None
  | pattern :: rest =>
    match match_first text pattern with
    | Some m => Some m
    | None => firstPattern text rest
    end
  end.

Definition detectOddsComparison (text : jsstring) : oddsComparison :=
  match firstPattern text oddsPatterns with
  | Some m =>
    {| originalOdds := Some (signed (grp m 1));
       boostedOdds := Some (signed (grp m 2));
       detectedText := Some text |}
  | None =>
    match matchAll text (rx "([+-]?\d{3,4})" "g") with
    | a :: b :: _ =>
      {| originalOdds := Some (signed (grp a 1));
         boostedOdds := Some (signed (grp b 1));
         detectedText := Some text |}
    | _ => {| originalOdds := None; boostedOdds := None; detectedText := Some text |}
    end
  end.

(** The [catch] branch: OCR or image processing threw. *)
Definition oddsComparisonError : oddsComparison :=
  {| originalOdds := None; boostedOdds := None; detectedText := None |}.

End TextDetection.

(** ** JavaScript numbers, with exact arithmetic *)

Module JsNum.

Import JsString.

Inductive num :=
| Fin (q : Q)
| PInf
| NInf
| NaN.

Definition fin (q : Q) : num := Fin (Qred q).

Definition of_Z (z : Z) : num := Fin (inject_Z z).

(** A [parseInt] result as a number. *)
Definition of_int (o : option Z) : num :=
  match o with
  | Some z => of_Z z
  | None => NaN
  end.

Definition neg (a : num) : num :=
  match a with
  | Fin q => fin (- q)
  | PInf => NInf
  | NInf => PInf
  | NaN => NaN
  end.

Definition add (a b : num) : num :=
  match a, b with
  | NaN, _ | _, NaN => NaN
  | Fin x, Fin y => fin (x + y)
  | PInf, NInf | NInf, PInf => NaN
  | PInf, _ | _, PInf => PInf
  | NInf, _ | _, NInf => NInf
  end.

Definition sub (a b : num) : num := add a (neg b).

(** The infinity with the sign of [q] times the sign of [pos ? +1 : -1];
    NaN when [q] is zero. *)
Definition inf_by (pos : bool) (q : Q) : num :=
  match q ?= 0 with
  | Eq => NaN
  | Gt => if pos then PInf else NInf
  | Lt => if pos then NInf else PInf
  end.

Definition mul (a b : num) : num :=
  match a, b with
  | NaN, _ | _, NaN => NaN
  | Fin x, Fin y => fin (x * y)
  | PInf, Fin y | Fin y, PInf => inf_by true y
  | NInf, Fin y | Fin y, NInf => inf_by false y
  | PInf, PInf | NInf, NInf => PInf
  | PInf, NInf | NInf, PInf => NInf
  end.

(** Division; a zero divisor is the positive zero, as every zero divided by
    below is. *)
Definition div (a b : num) : num :=
  match a, b with
  | NaN, _ | _, NaN => NaN
  | Fin x, Fin y =>
    if Qeq_bool y 0 then inf_by true x else fin (x / y)
  | Fin _, PInf | Fin _, NInf => Fin 0
  | PInf, Fin y => if Qle_bool 0 y then PInf else NInf
  | NInf, Fin y => if Qle_bool 0 y then NInf else PInf
  | _, _ => NaN
  end.

Definition abs (a : num) : num :=
  match a with
  | Fin q => fin (Qabs q)
  | PInf | NInf => PInf
  | NaN => NaN
  end.

(** [Math.round]: the integer at or just below [x + 1/2]. *)
Definition round (a : num) : num :=
  match a with
  | Fin q => of_Z (Qfloor (q + (1 # 2)))
  | other => other
  end.

(** [a >= b], [a > b], [a === b], [isNaN(a)]. *)
Definition ge (a b : num) : bool :=
  match a, b with
  | NaN, _ | _, NaN => false
  | Fin x, Fin y => Qle_bool y x
  | PInf, _ => true
  | _, NInf => true
  | _, _ => false
  end.

Definition gt (a b : num) : bool :=
  match a, b with
  | NaN, _ | _, NaN => false
  | Fin x, Fin y => negb (Qle_bool x y)
  | PInf, PInf => false
  | PInf, _ => true
  | NInf, NInf => false
  | _, NInf => true
  | _, _ => false
  end.

Definition strict_eq (a b : num) : bool :=
  match a, b with
  | Fin x, Fin y => Qeq_bool x y
  | PInf, PInf => true
  | NInf, NInf => true
  | _, _ => false
  end.

Definition isNaN (a : num) : bool :=
  match a with
  | NaN => true
  | _ => false
  end.

(** [parseFloat(s)] for a decimal literal without exponent: white space, a
    sign, digits with an optional fraction, or a fraction alone.  The handler
    calls it on strings cut down to [[0-9.-]], where neither an exponent nor
    [Infinity] can occur. *)
Fixpoint drop_digits (s : jsstring) : jsstring :=
  match s with
  | c :: t => if is_digit c then drop_digits t else s
  | [] => []
  end.

Fixpoint frac_run (s : jsstring) (acc scale : Q) : Q :=
  match s with
  | c :: t =>
    if is_digit c
    then frac_run t (acc + inject_Z (digit_val c) * scale) (scale / 10)
    else acc
  | [] => acc
  end.

Definition parse_decimal (s : jsstring) : option Q :=
  match s with
  | c :: t =>
    if is_digit c then
      match drop_digits s with
      | dot :: f =>
        if (dot =? 46)%N
        then Some (inject_Z (dec_run s 0) + frac_run f 0 (1 # 10))
        else Some (inject_Z (dec_run s 0))
      | [] => Some (inject_Z (dec_run s 0))
      end
    else if (c =? 46)%N then
      match t with
      | d :: _ => if is_digit d then Some (frac_run t 0 (1 # 10)) else None
      | [] => None
      end
    else None
  | [] => None
  end.

Definition of_decimal (o : option Q) : num :=
  match o with
  | Some q => fin q
  | None => NaN
  end.

Definition parseFloat (s : jsstring) : num :=
  match skip_ws s with
  | c :: t =>
    if (c =? 45)%N then neg (of_decimal (parse_decimal t))
    else if (c =? 43)%N then of_decimal (parse_decimal t)
    else of_decimal (parse_decimal (c :: t))
  | [] => NaN
  end.

End JsNum.

(** ** utils/boostCalculator.ts *)

Module BoostCalculator.

Import JsString Regex JsNum.
Local Open Scope string_scope.
Local Open Scope list_scope.

Record BoostCalculation := {
  actualBoostPercentage : num;
  detectedBoostPercentage : num;
  discrepancy : num;
  isSignificantDiscrepancy : bool;
  wasOdds : jsstring;
  nowOdds : jsstring
}.

Definition americanToDecimal (americanOdds : jsstring) : num :=
  let odds := of_int (parseInt (replace_global americanOdds (rx "[+\-]" "g") (fun _ => []))) in
  if startsWith americanOdds (str "+") then add (div odds (of_Z 100)) (of_Z 1)
  else if startsWith americanOdds (str "-") then add (div (of_Z 100) odds) (of_Z 1)
  else add (div odds (of_Z 100)) (of_Z 1).

(** The [catch] branch is not reached: nothing in the [try] block throws on
    strings. *)
Definition calculateActualBoostPercentage (preBoostOdds postBoostOdds : jsstring) : num :=
  let preDecimal := americanToDecimal preBoostOdds in
  let postDecimal := americanToDecimal postBoostOdds in
  let boostPercentage := mul (div (sub postDecimal preDecimal) preDecimal) (of_Z 100) in
  div (round (mul boostPercentage (of_Z 100))) (of_Z 100).

(** [discrepancyThreshold] is optional and defaults to 10. *)
Definition verifyBoostAccuracy (detectedPercentage : num)
           (preBoostOdds postBoostOdds : jsstring)
           (discrepancyThreshold : option num) : BoostCalculation :=
  let threshold := match discrepancyThreshold with Some t => t | None => of_Z 10 end in
  let actual := calculateActualBoostPercentage preBoostOdds postBoostOdds in
  let disc := abs (sub actual detectedPercentage) in
  {| actualBoostPercentage := actual;
     detectedBoostPercentage := detectedPercentage;
     discrepancy := disc;
     isSignificantDiscrepancy := ge disc threshold;
     wasOdds := preBoostOdds;
     nowOdds := postBoostOdds |}.

End BoostCalculator.

(** ** index.ts: tracking state, health checks and the capture handler *)

Module Monitor.

Import JsString Regex JsNum TextDetection.
Local Open Scope string_scope.
Local Open Scope list_scope.
Local Open Scope Z_scope.

(** 12 minutes in milliseconds, and 6 tries. *)
Definition NO_NEW_BOOST_TIMEOUT : Z := 12 * 60 * 1000.
Definition MAX_NUMBER_FAILURES : Z := 6.

Record BoostData := {
  percentage : num;
  wasOdds : option jsstring;
  nowOdds : option jsstring;
  timestamp : Z
}.

(** The module-level variables the handler and the checks read and write. *)
Record state := {
  totalBoostsDetected : Z;
  lastBoostPercentage : option num;
  lastUniqueBoostTime : Z;
  noNewBoostNotified : bool;
  consecutiveNumberFailures : Z;
  numberFailureNotified : bool;
  lastBoostData : option BoostData;
  lastNotificationTime : Z;
  lastDetectedPercentage : num;
  detectedBoostPercentage : option num;
  detectedPreBoostOdds : option jsstring;
  detectedPostBoostOdds : option jsstring
}.

(** The variables as the module initialises them at time [startTime]. *)
Definition initial (startTime : Z) : state :=
  {| totalBoostsDetected := 0;
     lastBoostPercentage := None;
     lastUniqueBoostTime := startTime;
     noNewBoostNotified := false;
     consecutiveNumberFailures := 0;
     numberFailureNotified := false;
     lastBoostData := None;
     lastNotificationTime := 0;
     lastDetectedPercentage := of_Z 0;
     detectedBoostPercentage := None;
     detectedPreBoostOdds := None;
     detectedPostBoostOdds := None |}.

(** What is handed to the Discord bot, and the re-scan timer. *)
Inductive message :=
| OddsTest (originalOdds boostedOdds : option jsstring)
| BoostAlert (percentage : num) (preBoostOdds postBoostOdds : option jsstring)
| NoNewBoostAlert (minutesWithoutBoost : Z)
| NumberFailureAlert (failures : Z)
| RescanTimer.

(** [a !== b] on [string | null]. *)
Definition odds_neq (a b : option jsstring) : bool :=
  match a, b with
  | None, None => false
  | Some x, Some y => negb (eqb x y)
  | _, _ => true
  end.

Definition isDifferentBoost (s : state) (currentPercentage : num)
           (currentWasOdds currentNowOdds : option jsstring) : bool :=
  match lastBoostData s with
  | None => true
  | Some last =>
    let percentageChanged := negb (strict_eq (percentage last) currentPercentage) in
    let wasOddsChanged := odds_neq (wasOdds last) currentWasOdds in
    let nowOddsChanged := odds_neq (nowOdds last) currentNowOdds in
    if percentageChanged then true
    else if wasOddsChanged then true
    else if nowOddsChanged then true
    else false
  end.

(** [Math.round(ms / 60000)] on an integer number of milliseconds. *)
Definition round_minutes (ms : Z) : Z := (ms + 30000) / 60000.

Definition checkNoNewBoost (now : Z) (s : state) : state * list message :=
  let timeSinceLastUniqueBoost := now - lastUniqueBoostTime s in
  if (NO_NEW_BOOST_TIMEOUT <? timeSinceLastUniqueBoost) && negb (noNewBoostNotified s)
  then ({| totalBoostsDetected := totalBoostsDetected s;
           lastBoostPercentage := lastBoostPercentage s;
           lastUniqueBoostTime := lastUniqueBoostTime s;
           noNewBoostNotified := true;
           consecutiveNumberFailures := consecutiveNumberFailures s;
           numberFailureNotified := numberFailureNotified s;
           lastBoostData := lastBoostData s;
           lastNotificationTime := lastNotificationTime s;
           lastDetectedPercentage := lastDetectedPercentage s;
           detectedBoostPercentage := detectedBoostPercentage s;
           detectedPreBoostOdds := detectedPreBoostOdds s;
           detectedPostBoostOdds := detectedPostBoostOdds s |},
        [NoNewBoostAlert (round_minutes timeSinceLastUniqueBoost)])
  else (s, []).

Definition checkNumberFailures (s : state) : state * list message :=
  if (MAX_NUMBER_FAILURES <=? consecutiveNumberFailures s) && negb (numberFailureNotified s)
  then ({| totalBoostsDetected := totalBoostsDetected s;
           lastBoostPercentage := lastBoostPercentage s;
           lastUniqueBoostTime := lastUniqueBoostTime s;
           noNewBoostNotified := noNewBoostNotified s;
           consecutiveNumberFailures := consecutiveNumberFailures s;
           numberFailureNotified := true;
           lastBoostData := lastBoostData s;
           lastNotificationTime := lastNotificationTime s;
           lastDetectedPercentage := lastDetectedPercentage s;
           detectedBoostPercentage := detectedBoostPercentage s;
           detectedPreBoostOdds := detectedPreBoostOdds s;
           detectedPostBoostOdds := detectedPostBoostOdds s |},
        [NumberFailureAlert (consecutiveNumberFailures s)])
  else (s, []).

(** [consecutiveNumberFailures++]. *)
Definition countFailure (s : state) : state :=
  {| totalBoostsDetected := totalBoostsDetected s;
     lastBoostPercentage := lastBoostPercentage s;
     lastUniqueBoostTime := lastUniqueBoostTime s;
     noNewBoostNotified := noNewBoostNotified s;
     consecutiveNumberFailures := consecutiveNumberFailures s + 1;
     numberFailureNotified := numberFailureNotified s;
     lastBoostData := lastBoostData s;
     lastNotificationTime := lastNotificationTime s;
     lastDetectedPercentage := lastDetectedPercentage s;
     detectedBoostPercentage := detectedBoostPercentage s;
     detectedPreBoostOdds := detectedPreBoostOdds s;
     detectedPostBoostOdds := detectedPostBoostOdds s |}.

(** The payload of a ['screenData'] event, with what OCR reads in the odds
    crop ([None] when [detectOddsComparison] ends in its [catch]). *)
Record screenData := {
  cropFailed : bool;
  cropTooSmall : bool;
  oddsText : option jsstring
}.

Definition runOddsComparison (d : screenData) : oddsComparison :=
  match oddsText d with
  | Some text => detectOddsComparison text
  | None => oddsComparisonError
  end.

(** [s.replace(/[^0-9.-]/g, '')]. *)
Definition keep_numeric (s : jsstring) : jsstring :=
  replace_global s (rx "[^0-9.-]" "g") (fun _ => []).

(** "Calculate boost percentage using formula: ((now-was)/was)*100";
    [None] is [null]. *)
Definition boostPercentage (oc : oddsComparison) : option num :=
  match originalOdds oc, boostedOdds oc with
  | Some original, Some boosted =>
    if truthy (Some original) && truthy (Some boosted) then
      let wasOddsValue := parseFloat (keep_numeric original) in
      let nowOddsValue := parseFloat (keep_numeric boosted) in
      if negb (isNaN wasOddsValue) && negb (isNaN nowOddsValue)
         && negb (strict_eq wasOddsValue (of_Z 0))
      then
        let calculatedPercentage :=
          mul (div (sub nowOddsValue wasOddsValue) wasOddsValue) (of_Z 100) in
        Some (div (round (mul calculatedPercentage (of_Z 10))) (of_Z 10))
      else None
    else None
  | _, _ => None
  end.

(** [a || b] on [string | null]. *)
Definition or_else (a b : option jsstring) : option jsstring :=
  if truthy a then a else b.

(** The handler, one invocation as one step; [now] is the clock reading of
    the invocation.  The writes follow the source's order: the detected
    odds and percentage first, then either branch.  [sendNotification] is
    taken on its path without an exception: it hands one alert to the bot
    and updates the statistics. *)
Definition onScreenData (now : Z) (d : screenData) (s : state) : state * list message :=
  if cropFailed d then (countFailure s, [])
  else if cropTooSmall d then (countFailure s, [])
  else
    let oc := runOddsComparison d in
    let pct := boostPercentage oc in
    let s1 :=
      {| totalBoostsDetected := totalBoostsDetected s;
         lastBoostPercentage := lastBoostPercentage s;
         lastUniqueBoostTime := lastUniqueBoostTime s;
         noNewBoostNotified := noNewBoostNotified s;
         consecutiveNumberFailures := consecutiveNumberFailures s;
         numberFailureNotified := numberFailureNotified s;
         lastBoostData := lastBoostData s;
         lastNotificationTime := lastNotificationTime s;
         lastDetectedPercentage := lastDetectedPercentage s;
         detectedBoostPercentage := pct;
         detectedPreBoostOdds := originalOdds oc;
         detectedPostBoostOdds := boostedOdds oc |} in
    let oddsTest := OddsTest (originalOdds oc) (boostedOdds oc) in
    match pct with
    | Some percentage =>
      let wasOdds := detectedPreBoostOdds s1 in
      let nowOdds := detectedPostBoostOdds s1 in
      let currentBoostData :=
        {| percentage := percentage; wasOdds := wasOdds; nowOdds := nowOdds;
           timestamp := now |} in
      let isNewBoost := isDifferentBoost s1 percentage wasOdds nowOdds in
      if isNewBoost then
        let isExtremeBoost := gt percentage (of_Z 49) in
        let preBoostOdds := or_else wasOdds (detectedPreBoostOdds s1) in
        let postBoostOdds := or_else (or_else nowOdds (detectedPostBoostOdds s1)) None in
        ({| totalBoostsDetected := totalBoostsDetected s1 + 1;
            lastBoostPercentage := Some percentage;
            lastUniqueBoostTime := now;
            noNewBoostNotified := false;
            consecutiveNumberFailures := 0;
            numberFailureNotified := false;
            lastBoostData := Some currentBoostData;
            lastNotificationTime := now;
            lastDetectedPercentage := percentage;
            detectedBoostPercentage := detectedBoostPercentage s1;
            detectedPreBoostOdds := detectedPreBoostOdds s1;
            detectedPostBoostOdds := detectedPostBoostOdds s1 |},
         oddsTest :: BoostAlert percentage preBoostOdds postBoostOdds
                  :: (if isExtremeBoost then [RescanTimer] else []))
      else
        ({| totalBoostsDetected := totalBoostsDetected s1;
            lastBoostPercentage := lastBoostPercentage s1;
            lastUniqueBoostTime := lastUniqueBoostTime s1;
            noNewBoostNotified := noNewBoostNotified s1;
            consecutiveNumberFailures := 0;
            numberFailureNotified := false;
            lastBoostData := lastBoostData s1;
            lastNotificationTime := lastNotificationTime s1;
            lastDetectedPercentage := lastDetectedPercentage s1;
            detectedBoostPercentage := detectedBoostPercentage s1;
            detectedPreBoostOdds := detectedPreBoostOdds s1;
            detectedPostBoostOdds := detectedPostBoostOdds s1 |},
         [oddsTest])
    | None => (countFailure s1, [oddsTest])
    end.

(** The callbacks the event loop runs, one at a time. *)
Inductive event :=
| ScreenData (now : Z) (d : screenData)
| NoNewBoostTick (now : Z)
| NumberFailureTick.

Definition step (e : event) (s : state) : state * list message :=
  match e with
  | ScreenData now d => onScreenData now d s
  | NoNewBoostTick now => checkNoNewBoost now s
  | NumberFailureTick => checkNumberFailures s
  end.

Fixpoint run (es : list event) (s : state) : state * list message :=
  match es with
  | [] => (s, [])
  | e :: rest =>
    let (s1, out1) := step e s in
    let (s2, out2) := run rest s1 in
    (s2, out1 ++ out2)
  end.

(** What the claims count in the output. *)
Definition is_boost_alert (m : message) : bool :=
  match m with BoostAlert _ _ _ => true | _ => false end.
Definition is_stale_alert (m : message) : bool :=
  match m with NoNewBoostAlert _ => true | _ => false end.
Definition is_failure_alert (m : message) : bool :=
  match m with NumberFailureAlert _ => true | _ => false end.

Definition count (p : message -> bool) (out : list message) : nat :=
  List.length (filter p out).

End Monitor.

(** ** Vocabulary of the statements *)

Module Obs.

Import JsString Regex JsNum TextDetection Monitor.

(** The pattern of the secondary [Was <odds>] look-up of [detectOdds]. *)
Definition simpleWasRx : regexp := rx "Was\s*([+\-]?\d{3,5})" "i".

(** [detectOdds] has returned, or one of its two variables is set. *)
Definition settled (f : flow) : Prop :=
  match f with
  | Return _ _ => True
  | Next pre post => unset pre post = false
  end.

(** A text without a decimal digit. *)
Definition no_digit (s : jsstring) : Prop := forall c, In c s -> is_digit c = false.


(** The percentage a capture cycle ends with: none when the crop failed or
    was too small, else the one computed from the odds comparison. *)
Definition cyclePercentage (d : screenData) : option num :=
  if cropFailed d then None
  else if cropTooSmall d then None
  else boostPercentage (runOddsComparison d).

(** The cycle is a new-boost transition from state [s]. *)
Definition newBoost (s : state) (d : screenData) : bool :=
  match cyclePercentage d with
  | Some p =>
    isDifferentBoost s p (originalOdds (runOddsComparison d))
                     (boostedOdds (runOddsComparison d))
  | None => false
  end.

(** An event other than a cycle with a parsed percentage. *)
Definition noParse (e : event) : bool :=
  match e with
  | ScreenData _ d => match cyclePercentage d with Some _ => false | None => true end
  | _ => true
  end.

(** An event other than a new-boost transition from a state that holds the
    boost data of [s]. *)
Definition noNewBoost (s : state) (e : event) : bool :=
  match e with
  | ScreenData _ d => negb (newBoost s d)
  | _ => true
  end.

(** A stale-boost check later than [t]. *)
Definition staleTickAfter (t : Z) (e : event) : bool :=
  match e with
  | NoNewBoostTick now => (t <? now)%Z
  | _ => true
  end.

Definition isStaleTick (e : event) : bool :=
  match e with NoNewBoostTick _ => true | _ => false end.


(** A capture whose crops are usable and whose odds crop reads as [text]. *)
Definition capture (text : string) : screenData :=
  {| cropFailed := false; cropTooSmall := false; oddsText := Some (str text) |}.

(** A state past the failure threshold, as eight failed cycles leave it. *)
Definition afterFailures (n : nat) (startTime : Z) : state :=
  fst (run (repeat (ScreenData startTime
                      {| cropFailed := true; cropTooSmall := false; oddsText := None |}) n)
           (initial startTime)).

End Obs.

(** ** What a match consumes *)

Module RegexLang.

Import JsString Regex.

Section Lang.

Variable icase : bool.

(** [n] pieces in a row, each in [L]. *)
Fixpoint pieces (L : jsstring -> Prop) (n : nat) (w : jsstring) : Prop :=
  match n with
  | O => w = []
  | S m => exists u v, w = u ++ v /\ L u /\ pieces L m v
  end.

Definition within (n : nat) (mx : option nat) : Prop :=
  match mx with
  | Some m => (n <= m)%nat
  | None => True
  end.

(** The words an expression can consume, whatever stands around them: the
    assertions consume nothing. *)
Fixpoint lang (r : regex) (w : jsstring) : Prop :=
  match r with
  | REmpty => w = []
  | RFail => False
  | RChar c => exists x, w = [x] /\ char_match icase c x = true
  | RAny => exists x, w = [x] /\ is_line_terminator x = false
  | RClass neg items => exists x, w = [x] /\ class_match icase neg items x = true
  | RSeq r1 r2 => exists u v, w = u ++ v /\ lang r1 u /\ lang r2 v
  | RAlt r1 r2 => lang r1 w \/ lang r2 w
  | RRep mn mx _ r1 => exists n, (mn <= n)%nat /\ within n mx /\ pieces (lang r1) n w
  | RGroup _ r1 => lang r1 w
  | RWordB | RStart | REnd => w = []
  end.

End Lang.

(** The bodies of the groups numbered [i]. *)
Fixpoint group_bodies (i : nat) (r : regex) : list regex :=
  match r with
  | RSeq r1 r2 | RAlt r1 r2 => group_bodies i r1 ++ group_bodies i r2
  | RRep _ _ _ r1 => group_bodies i r1
  | RGroup j r1 => (if Nat.eqb i j then [r1] else []) ++ group_bodies i r1
  | _ => []
  end.

(** Group [i] takes part in every match of [r]. *)
Fixpoint binds (i : nat) (r : regex) : bool :=
  match r with
  | RSeq r1 r2 => binds i r1 || binds i r2
  | RAlt r1 r2 => binds i r1 && binds i r2
  | RRep mn _ _ r1 => Nat.leb 1 mn && binds i r1
  | RGroup j r1 => Nat.eqb i j || binds i r1
  | _ => false
  end.

(** The matcher stands in [text]. *)
Definition stands_in (text : jsstring) (st : mstate) : Prop :=
  rest st = skipn (pos st) text /\ (pos st <= List.length text)%nat.

(** Group [i] is bound to a span of [text] that one of its bodies in [r] can
    consume. *)
Definition bound_to (icase : bool) (text : jsstring) (r : regex) (i : nat) (cs' : caps) : Prop :=
  exists b s e,
    In b (group_bodies i r) /\ cap_lookup i cs' = Some (s, e)
    /\ lang icase b (slice text s e).

(** Every group is bound in [cs'] by [r], or as it was in [cs] when it need
    not take part. *)
Definition bound_by (icase : bool) (text : jsstring) (r : regex) (cs cs' : caps) : Prop :=
  forall i,
    (binds i r = false /\ cap_lookup i cs' = cap_lookup i cs)
    \/ bound_to icase text r i cs'.

(** An odds string: a sign and at least one digit. *)
Definition is_odds (o : jsstring) : Prop :=
  exists sg ds,
    o = sg :: ds /\ (sg = 43%N \/ sg = 45%N) /\ ds <> [] /\ Forall (fun c => is_digit c = true) ds.

Section At.

Variable icase : bool.
Variable A : Type.
Variable text : jsstring.

(** What a successful attempt of [r] from [st] gives: the continuation was
    entered at a later place of the text, the span in between is a word of
    [r], and the groups were bound by [r]. *)
Definition sound_at (r : regex) (st : mstate) (cs : caps) (k : cont A) (a : A) : Prop :=
  exists st' cs',
    k st' cs' = Some a /\ stands_in text st' /\ (pos st <= pos st')%nat
    /\ lang icase r (slice text (pos st) (pos st'))
    /\ bound_by icase text r cs cs'.

End At.

(** A match found by a search: its span lies in the text and is a word of
    the pattern, and each group that takes part in every match is bound to a
    word of its body. *)
Definition sound_match (r : regexp) (text : jsstring) (m : rmatch) : Prop :=
  m_text m = text
  /\ (m_start m <= m_end m)%nat /\ (m_end m <= List.length text)%nat
  /\ lang (ignoreCase r) (body r) (m0 m)
  /\ forall i, binds i (body r) = true ->
               exists b, In b (group_bodies i (body r)) /\ lang (ignoreCase r) b (grp m i).

(** Every word of [r] holds a digit. *)
Fixpoint needs_digit (r : regex) : bool :=
  match r with
  | RClass false [CDigit] => true
  | RSeq r1 r2 => needs_digit r1 || needs_digit r2
  | RAlt r1 r2 => needs_digit r1 && needs_digit r2
  | RRep mn _ _ r1 => Nat.leb 1 mn && needs_digit r1
  | RGroup _ r1 => needs_digit r1
  | _ => false
  end.

Definition all_digits (w : jsstring) : Prop := Forall (fun c => is_digit c = true) w.

(** Digits, at least one, after an optional sign. *)
Definition signed_digits (w : jsstring) : Prop :=
  exists ds, ds <> [] /\ all_digits ds /\ (w = ds \/ w = 43%N :: ds \/ w = 45%N :: ds).

(** Digits with an optional two-digit fraction. *)
Definition is_amount (w : jsstring) : Prop :=
  exists ds, ds <> [] /\ all_digits ds
             /\ (w = ds \/ exists c1 c2, is_digit c1 = true /\ is_digit c2 = true
                                         /\ w = ds ++ [46%N; c1; c2]).

Definition amount_body : regex :=
  RSeq (RRep 1 None true (RClass false [CDigit]))
       (RRep 0 (Some 1%nat) true
             (RSeq (RChar 46%N) (RRep 2 (Some 2%nat) true (RClass false [CDigit])))).

(** In each pattern of [oddsPatterns] the groups 1 and 2 take part in every
    match and hold digits after an optional sign. *)
Definition odds_groups (p : regexp) : Prop :=
  forall i, (i = 1 \/ i = 2)%nat ->
    binds i (body p) = true
    /\ forall b w, In b (group_bodies i (body p)) -> lang (ignoreCase p) b w -> signed_digits w.

(** In each pattern of [extractWasOdds] the group 1 takes part in every
    match and holds two to five digits. *)
Definition was_groups (p : regexp) : Prop :=
  binds 1 (body p) = true
  /\ group_bodies 1 (body p) = [RRep 2 (Some 5%nat) true (RClass false [CDigit])].

End RegexLang.

(** ** text-detection/index.ts: the bet amount and the "See all" check *)

Module BetAndDetails.

Import JsString Regex.
Local Open Scope string_scope.
Local Open Scope list_scope.

(** [m[i]] of a match object: [None] is [undefined]. *)
Definition group (m : rmatch) (i : nat) : option jsstring :=
  match cap_lookup i (m_caps m) with
  | Some (s, e) => Some (slice (m_text m) s e)
  | None => None
  end.

(** The entries 0 and 1 of what [text.match(pattern)] returns: the match
    and its first group without the [g] flag, the first two matches with
    it. *)
Definition match01 (text : jsstring) (pattern : regexp) : option (jsstring * option jsstring) :=
  if global pattern then
    match match_global text pattern with
    | Some (first :: others) => Some (first, hd_error others)
    | _ => None
    end
  else
    match match_first text pattern with
    | Some m => Some (m0 m, group m 1)
    | None => None
    end.

Definition betPatterns : list regexp :=
  [ rx "bet[:\s]*\$?(\d+(?:\.\d{2})?)" "i";
    rx "\$(\d+(?:\.\d{2})?)\s*bet" "i";
    rx "stake[:\s]*\$?(\d+(?:\.\d{2})?)" "i";
    rx "\$(\d+(?:\.\d{2})?)" "g" ].

(** The loop over the patterns; [amount] is [match[1] || match[0]]. *)
Fixpoint firstAmount (text : jsstring) (ps : list regexp) : option jsstring :=
  match ps with
  | [] => None
  | pattern :: rest =>
    match match01 text pattern with
    | Some (m_0, m_1) =>
      let amount := if truthy m_1 then match m_1 with Some a => a | None => m_0 end
                    else m_0 in
      Some amount
    | None => firstAmount text rest
    end
  end.

(** [detectBetAmount], from the recognised text on. *)
Definition detectBetAmount (text : jsstring) : option jsstring :=
  firstAmount text betPatterns.

Record seeAll := { hasSeeAll : bool; detectedText : jsstring }.

(** [detectSeeAllText]: [ocr] is the recognised text, [None] when image
    processing or OCR threw. *)
Definition detectSeeAllText (ocr : option jsstring) : seeAll :=
  match ocr with
  | Some text =>
    {| hasSeeAll := test (rx "see\s+all\s+\d+\s+selections?" "i") text
                    || test (rx "see\s+all\s+\d+" "i") text;
       detectedText := text |}
  | None => {| hasSeeAll := false; detectedText := [] |}
  end.

End BetAndDetails.

(** ** index.ts: the Was-odds extraction and the uptime *)

Module MonitorText.

Import JsString Regex TextDetection.
Local Open Scope string_scope.
Local Open Scope list_scope.

Definition wasPatterns : list regexp :=
  [ rx "Was\s*\+(\d{2,5})" "i";
    rx "was\s*\+(\d{2,5})" "i";
    rx "WAS\s*\+(\d{2,5})" EmptyString;
    rx "Waos\s*\+(\d{2,5})" "i";
    rx "Was\s*\+\s*(\d{2,5})" "i" ].

Definition extractWasOdds (detectedOdds : option jsstring) : option jsstring :=
  match detectedOdds with
  | Some text =>
    if truthy detectedOdds then
      match firstPattern text wasPatterns with
      | Some m => let oddsNumber := grp m 1 in Some (str "+" ++ oddsNumber)
      | None => None
      end
    else None
  | None => None
  end.

End MonitorText.

Module Trace.

Import JsString JsNum TextDetection Monitor Obs.



Definition isCapture (e : event) : bool :=
  match e with ScreenData _ _ => true | _ => false end.

(** The capture cycles among the events. *)
Definition captures (es : list event) : nat := List.length (filter isCapture es).

Definition is_odds_test (m : message) : bool :=
  match m with OddsTest _ _ => true | _ => false end.



(** A raised flag counts 1. *)
Definition flag (b : bool) : nat := if b then 1%nat else 0%nat.

(** The cycles of a run that ended with a percentage. *)
Definition parsedCycles (es : list event) : nat :=
  List.length (filter (fun e => negb (noParse e)) es).

End Trace.

(** ** Integers in template literals *)

Module JsShow.

Import JsString.
Local Open Scope Z_scope.

(** The decimal digits of [n], most significant first, before [acc]. *)
Fixpoint digits_of (fuel : nat) (n : Z) (acc : jsstring) : jsstring :=
  match fuel with
  | O => acc
  | S f =>
    let acc' := Z.to_N (48 + n mod 10) :: acc in
    if n <? 10 then acc' else digits_of f (n / 10) acc'
  end.

(** [`${z}`] for an integer [z]: the digits, after a minus sign when [z] is
    negative (the values rendered below stay far under 10^21, where
    JavaScript switches to the exponent form). *)
Definition Z_toString (z : Z) : jsstring :=
  if z <? 0
  then 45%N :: digits_of (S (Z.to_nat (Z.log2 (- z)))) (- z) []
  else digits_of (S (Z.to_nat (Z.log2 z))) z [].

End JsShow.

(** ** index.ts and discord-bot/index.ts: the uptime *)

Module Uptime.

Import JsString JsShow.
Local Open Scope string_scope.
Local Open Scope list_scope.
Local Open Scope Z_scope.

(** [DiscordBot.formatUptime(ms)]; [%] keeps the sign of the dividend. *)
Definition formatUptimeMs (ms : Z) : jsstring :=
  let hours := ms / (1000 * 60 * 60) in
  let minutes := Z.rem ms (1000 * 60 * 60) / (1000 * 60) in
  Z_toString hours ++ str "h " ++ Z_toString minutes ++ str "m".

(** [formatUptime(startTime)] of index.ts, called when the clock reads
    [now]. *)
Definition formatUptime (now startTime : Z) : jsstring :=
  let uptime := now - startTime in
  let hours := uptime / (1000 * 60 * 60) in
  let minutes := Z.rem uptime (1000 * 60 * 60) / (1000 * 60) in
  Z_toString hours ++ str "h " ++ Z_toString minutes ++ str "m".

End Uptime.

(** ** utils/imageCleanup.ts *)

Module ImageCleanup.

Import JsString.
Local Open Scope string_scope.
Local Open Scope list_scope.

(** A directory entry: what [readdirSync] lists and [statSync] tells of it.
    The entries are files; an operation of [fs] that throws is not
    modelled, so the [catch] branches are not reached. *)
Record file := { name : jsstring; mtime : Z }.

(** The directories under the working directory, by name. *)
Definition fileSystem := list (jsstring * list file).

Fixpoint readdirSync (d : fileSystem) (dir : jsstring) : option (list file) :=
  match d with
  | [] => None
  | (n, files) :: rest => if eqb n dir then Some files else readdirSync rest dir
  end.

Definition existsSync (d : fileSystem) (dir : jsstring) : bool :=
  match readdirSync d dir with Some _ => true | None => false end.

(** The directory [dir] with its entries changed by [f]. *)
Fixpoint update (d : fileSystem) (dir : jsstring) (f : list file -> list file) : fileSystem :=
  match d with
  | [] => []
  | (n, files) :: rest =>
    if eqb n dir then (n, f files) :: rest else (n, files) :: update rest dir f
  end.

Definition unlinkSync (dir fileName : jsstring) (d : fileSystem) : fileSystem :=
  update d dir (filter (fun f => negb (eqb (name f) fileName))).

Definition statSync (files : list file) (fileName : jsstring) : Z :=
  match find (fun f => eqb (name f) fileName) files with
  | Some f => mtime f
  | None => 0%Z
  end.

(** [s.endsWith(suffix)]. *)
Definition endsWith (s suffix : jsstring) : bool :=
  Nat.leb (List.length suffix) (List.length s)
  && eqb (skipn (List.length s - List.length suffix) s) suffix.

Definition isImage (fileName : jsstring) : bool :=
  endsWith (toLowerCase fileName) (str ".png")
  || endsWith (toLowerCase fileName) (str ".jpg")
  || endsWith (toLowerCase fileName) (str ".jpeg").

Definition IMAGE_DIRECTORIES : list jsstring := [str "alerts"; str "debug"; str "evidence"].

Definition cleanupDirectory (dirName : jsstring) (d : fileSystem) : fileSystem :=
  if existsSync d dirName then
    match readdirSync d dirName with
    | Some files =>
      let imageFiles := filter isImage (map name files) in
      if Nat.ltb 0 (List.length imageFiles)
      then fold_left (fun d file => unlinkSync dirName file d) imageFiles d
      else d
    | None => d
    end
  else d.

Definition cleanupOldImages (d : fileSystem) : fileSystem :=
  fold_left
    (fun d dir =>
       if existsSync d dir then
         match readdirSync d dir with
         | Some files =>
           let imageFiles := filter isImage (map name files) in
           if Nat.ltb 0 (List.length imageFiles)
           then fold_left (fun d file => unlinkSync dir file d) imageFiles d
           else d
         | None => d
         end
       else d)
    IMAGE_DIRECTORIES d.

(** [stats.sort((a, b) => b.mtime - a.mtime)]: newest first, entries of
    equal time in their former order. *)
Fixpoint insert (x : file) (l : list file) : list file :=
  match l with
  | [] => [x]
  | y :: t => if (mtime x <? mtime y)%Z then y :: insert x t else x :: l
  end.

Definition sortNewestFirst (l : list file) : list file := fold_right insert [] l.

(** [l.slice(start)]: a negative start counts from the end. *)
Definition sliceFrom {A : Type} (l : list A) (start : Z) : list A :=
  let len := Z.of_nat (List.length l) in
  skipn (Z.to_nat (if (start <? 0)%Z then Z.max (len + start) 0 else Z.min start len)) l.

Definition keepRecentImages (dirName : jsstring) (keepCount : Z) (d : fileSystem)
  : fileSystem :=
  if negb (existsSync d dirName) then d
  else
    match readdirSync d dirName with
    | Some files =>
      let imageFiles := filter isImage (map name files) in
      if (Z.of_nat (List.length imageFiles) <=? keepCount)%Z then d
      else
        let fileStats :=
          sortNewestFirst
            (map (fun file => {| name := file; mtime := statSync files file |}) imageFiles) in
        let filesToDelete := sliceFrom fileStats keepCount in
        if Nat.ltb 0 (List.length filesToDelete)
        then fold_left (fun d f => unlinkSync dirName (name f) d) filesToDelete d
        else d
    | None => d
    end.

(** The images of a directory, and its other entries. *)
Definition images (d : fileSystem) (dir : jsstring) : list file :=
  match readdirSync d dir with
  | Some files => filter (fun f => isImage (name f)) files
  | None => []
  end.

Definition others (d : fileSystem) (dir : jsstring) : list file :=
  match readdirSync d dir with
  | Some files => filter (fun f => negb (isImage (name f))) files
  | None => []
  end.

(** [a] is not older than [b]. *)
Definition newer (a b : file) : Prop := (mtime b <= mtime a)%Z.

(** Whether a name is in a list of names. *)
Definition mem (x : jsstring) (l : list jsstring) : bool := existsb (JsString.eqb x) l.

(** The images kept: all when there are not more than [keepCount], else
    the [keepCount] first of the sorted ones, or all but the last
    [- keepCount] when [keepCount] is negative. *)
Definition keptCount (n : nat) (keepCount : Z) : nat :=
  if (Z.of_nat n <=? keepCount)%Z then n
  else Z.to_nat (if (keepCount <? 0)%Z then Z.max (Z.of_nat n + keepCount) 0
                 else Z.min keepCount (Z.of_nat n)).

End ImageCleanup.

(** ** airconnect/index.ts: the crops of a capture *)

Module AirConnect.

Import JsString Monitor.
Local Open Scope Z_scope.

Record area := { x : Z; y : Z; width : Z; height : Z }.

Definition BOOST_CROP_AREA : area := {| x := 890; y := 447; width := 144; height := 35 |}.
Definition ODDS_CROP_AREA : area := {| x := 762; y := 493; width := 420; height := 35 |}.
Definition BOOST_DETAILS_CROP_AREA : area :=
  {| x := 737; y := 560; width := 445; height := 280 |}.

(** The argument of [extract]. *)
Record region := { left : Z; top : Z; regionWidth : Z; regionHeight : Z }.

(** The region [captureScreen] cuts for a crop area out of a screenshot of
    [fullWidth] by [fullHeight] pixels. *)
Definition cropRegion (a : area) (fullWidth fullHeight : Z) : region :=
  {| left := Z.max 0 (x a);
     top := Z.max 0 (y a);
     regionWidth := Z.min (width a) (fullWidth - x a);
     regionHeight := Z.min (height a) (fullHeight - y a) |}.

(** The warning of [captureScreen]: the area reaches beyond the screen. *)
Definition beyondScreen (a : area) (fullWidth fullHeight : Z) : bool :=
  let cropRight := x a + width a in
  let cropBottom := y a + height a in
  (fullWidth <? cropRight) || (fullHeight <? cropBottom).

(** The byte sizes of the four crops. *)
Record cropSizes := {
  boostCropSize : Z;
  oddsCropSize : Z;
  oddsGrayscaleSize : Z;
  boostDetailsCropSize : Z
}.

(** The flags of the ['screenData'] event a capture ends with, and the
    text OCR will read in its grayscale odds crop; a flag the payload does
    not hold reads as false in the handler. *)
Definition emitScreenData (c : cropSizes) (text : option jsstring) : screenData :=
  if (boostCropSize c =? 0) || (oddsCropSize c =? 0) || (oddsGrayscaleSize c =? 0)
     || (boostDetailsCropSize c =? 0)
  then {| cropFailed := true; cropTooSmall := false; oddsText := None |}
  else
    let cropTooSmall0 := false in
    let cropTooSmall1 := if boostCropSize c <? 500 then true else cropTooSmall0 in
    let cropTooSmall2 := if oddsCropSize c <? 1500 then true else cropTooSmall1 in
    let cropTooSmall3 := if boostDetailsCropSize c <? 3000 then true else cropTooSmall2 in
    {| cropFailed := false; cropTooSmall := cropTooSmall3; oddsText := text |}.

(** Whether [extract] can cut a region out of an image: the region has
    positive sides and lies in the image. *)
Definition extractable (r : region) (fullWidth fullHeight : Z) : Prop :=
  (0 <= left r /\ 0 <= top r
   /\ 0 < regionWidth r /\ 0 < regionHeight r
   /\ left r + regionWidth r <= fullWidth
   /\ top r + regionHeight r <= fullHeight)%Z.

End AirConnect.

(** ** The crop bounds read off the pixels *)

Module PixelCrop.

Local Open Scope Z_scope.

Record CropBounds := { width : Z; height : Z }.

(** The raw greyscale pixels, one byte each, row after row. *)
Definition pixels := list Z.

(** [data[y * width + x] < threshold], false where the buffer has no such
    entry. *)
Definition isContent (data : pixels) (width x y : nat) : bool :=
  match nth_error data (y * width + x) with
  | Some pixelValue => pixelValue <? 240
  | None => false
  end.

(** The inner loop: the rows [y], [y + 1], ... of column [x], [rows] of
    them. *)
Fixpoint hasContent (data : pixels) (width x y rows : nat) : bool :=
  match rows with
  | O => false
  | S rest => if isContent data width x y then true else hasContent data width x (S y) rest
  end.

(** The outer loop over the columns below [columns], from the right; 0
    when it ends without a column that has content. *)
Fixpoint scanColumns (data : pixels) (width height columns : nat) : nat :=
  match columns with
  | O => O
  | S x => if hasContent data width x 0 height then x else scanColumns data width height x
  end.

(** [getPixelBasedCropBounds], from the raw pixels on: [info] gives
    [width] and [height], the metadata [originalWidth] and
    [originalHeight]. *)
Definition getPixelBasedCropBounds (data : pixels) (width height : nat)
           (originalWidth originalHeight padding : Z) : option CropBounds :=
  let rightmostContent := Z.of_nat (scanColumns data width height width) in
  if rightmostContent =? 0 then None
  else
    let cropWidth := Z.min (rightmostContent + padding) originalWidth in
    let adjustedHeight := Z.max (originalHeight - 50) 100 in
    Some {| width := Z.max cropWidth 200; height := adjustedHeight |}.

End PixelCrop.

(** ** The image files the monitor writes and removes *)

Module Storage.

Import JsString JsShow ImageCleanup.
Local Open Scope string_scope.
Local Open Scope list_scope.




















End Storage.

(** ** discord-bot/index.ts: the roles a boost message tags *)

Module DiscordBot.

Import JsString JsNum.
Local Open Scope string_scope.
Local Open Scope list_scope.



End DiscordBot.

(** * Properties *)

Import JsString Regex JsNum Obs.
Close Scope Q_scope.

#[local] Arguments Qred : simpl never.
#[local] Arguments Qfloor : simpl never.
#[local] Arguments Qplus : simpl never.
#[local] Arguments Qmult : simpl never.
#[local] Arguments Qdiv : simpl never.
#[local] Arguments Qopp : simpl never.
#[local] Arguments Qabs : simpl never.
#[local] Arguments Qeq_bool : simpl never.
#[local] Arguments Qle_bool : simpl never.
#[local] Arguments inject_Z : simpl never.

(** ** Replacing the matches of a one-class pattern by nothing *)

Section ClassReplace.

Variable r : regexp.
Variable neg : bool.
Variable items : list citem.
Hypothesis r_body : body r = RClass neg items.







End ClassReplace.

(** ** Matches are spans of the searched text *)



Lemma In_skipn {A : Type} (x : A) (l : list A) :
  forall n, In x (skipn n l) -> In x l.
Proof.
  induction l as [|y t IH]; intros [|n]; simpl; auto.
  intros H. right. eapply IH; eassumption.
Qed.

Lemma In_firstn {A : Type} (x : A) (l : list A) :
  forall n, In x (firstn n l) -> In x l.
Proof.
  induction l as [|y t IH]; intros [|n]; simpl; auto; try tauto.
  intros [->|H]; [left; reflexivity|right; eapply IH; eassumption].
Qed.

Lemma In_slice (x : char) (s : jsstring) (a b : nat) : In x (slice s a b) -> In x s.
Proof.
  unfold slice. intros H. eapply In_skipn, In_firstn; eassumption.
Qed.


(** ** parseInt needs a digit *)




(** ** The percentage parser *)

Import TextDetection.















(** ** The odds parser *)

(** Every pattern of the parsers, the calculator and the handler is read in
    full. *)
Lemma patterns_well_read :
  forallb well_read
    [ rx "(\d+)%\s*Boost" "gi";
      rx "(\d+)%\s*boost" "gi";
      rx "(\d+)%Boost" "gi";
      rx "(\d+)%boost" "gi";
      rx "(\d+)\s*%\s*Boost" "gi";
      rx "(\d+)\s*%\s*boost" "gi";
      rx "Boost\s*(\d+)%" "gi";
      rx "boost\s*(\d+)%" "gi";
      rx "of\s*(\d+)%\s*Boost" "gi";
      rx "of\s*(\d+)%Boost" "gi";
      rx "(\d{1,3})\s*%" "g";
      rx "(\d{1,3})\s*percent" "gi";
      rx "(\d+)%\s*Baact" "gi";
      rx "(\d+)%\s*Boact" "gi";
      rx "(\d+)%\s*Bost" "gi";
      rx "(\d+)%\s*Bocst" "gi";
      rx "(\d+)%\s*Baacst" "gi";
      rx "(\d+)%\s*B[ao0][ao0][sc][ts]" "gi";
      rx "al\s*[=\-~]*\s*(\d+)[%oO0]" "gi";
      rx "pr\s*[=\-~]*\s*(\d+)[%oO0]" "gi";
      rx "(\d+)\s*[%oO0]\s*[Bb][Oo0][Oo0][Ss][Tt]" "gi";
      rx "[Bb][Oo0][Oo0][Ss][Tt]\s*(\d+)" "gi";
      rx "[^\d]" "g";
      rx "[+\-]" "g";
      rx "[+\-]" "";
      rx "Wos\s*([+\-]?\d{3,5})\s+5(\d{3})" "g";
      rx "\b(\d)6(\d{2,3})\b" "g";
      rx "([+\-]?)I(\d{3,4})" "g";
      rx "([+\-]?)Z(\d{3,4})" "g";
      rx "([+\-]\d{3,5})" "";
      rx "[+\-]?\d{3,5}" "g";
      rx "Was\s*([+\-]?\d{3,5})\s*[>→»]\s*Now\s*([+\-]?\d{3,5})" "i";
      rx "Was\s*([+\-]?\d{3,5})" "i";
      rx "Now\s*([+\-]?\d{3,5})" "i";
      rx "([+\-]?\d{3,5})" "";
      rx "Was\s*([+\-]?\d{3,5})\s*[|\\.,:;]\s*([+\-]?\d{3,5})" "i";
      rx "Was\s*([+\-]?\d{3,5})\s+([+\-]\d{3,5})" "i";
      rx "Was\s*([+\-]?\d{3,5})\s*\w*\s*([+\-]\d{3,5})" "i";
      rx "^\d+[a-zA-Z]$" "";
      rx "^\d+" "";
      rx "Was\s*([+\-]?\d{3,5})\s+(\w+)" "i";
      rx "Was.*?(\+?\d{3,5}).*?(\+?\d{3,5})" "i";
      rx "Was\s*([+\-]?\d{3,5})\s*(?:Now|→|->|\s)\s*([+\-]?\d{3,5})" "i";
      rx "Was\s*[+\-]?(\d{3,5})" "i";
      rx "Was\s*[+\-]?(\d{3,5})\s*.*?(?:v|→|Now)\s*[+\-]?(\d{3,5})" "gi";
      rx "(?:v|→|Now)\s*[+\-]?(\d{3,5})" "i";
      rx "Wos\s*([+\-]?\d{3,5})\s+([+\-]?\d{2,5}|[iv]\d{2,5}|[58]\d{3,4})" "i";
      rx "Was\s*[+\-]?\s*(\d{3,5})" "gi";
      rx "Now\s*[+\-]?\s*(\d{3,5})" "gi";
      rx "Was\s*[+\-]?(\d{3,5})\s*.*?Now\s*[+\-]?(\d{3,5})" "gi";
      rx "Was\s*([+-]?\d+)\s*[>→]\s*Now\s*([+-]?\d+)" "i";
      rx "Was\s*([+-]?\d+)\s*>\s*Now\s*([+-]?\d+)" "i";
      rx "([+-]?\d+)\s*[>→]\s*([+-]?\d+)" "";
      rx "Was\s*([+-]?\d+)[\s\S]*?Now\s*([+-]?\d+)" "i";
      rx "Was\s*\+?(\d+)[\s\S]*?Now\s*\+?(\d+)" "i";
      rx "([+-]?\d{3,4})" "g";
      rx "[^0-9.-]" "g" ]
  = true.
Proof. vm_compute. reflexivity. Qed.

(** ** Whether a match succeeds does not depend on the captures *)

Lemma orelse_succeeds {A : Type} (a b : option A) :
  succeeds (orelse a b) <-> succeeds a \/ succeeds b.
Proof.
  unfold succeeds, orelse. destruct a; split; intros H.
  - left. discriminate.
  - discriminate.
  - right. exact H.
  - destruct H as [H|H]; [congruence|exact H].
Qed.

Lemma none_fails {A : Type} (P : Prop) : succeeds (@None A) -> P.
Proof. intros H. exfalso. apply H. reflexivity. Qed.

Section Mono.

Variable icase : bool.
Variables A B : Type.

Lemma rep_loop_mono (m : mstate -> caps -> cont A -> option A)
      (m' : mstate -> caps -> cont B -> option B)
      (mn : nat) (mx : option nat) (g : bool) (k : cont A) (k' : cont B) :
  (forall st cs cs' h h', follows h h' -> succeeds (m st cs h) -> succeeds (m' st cs' h')) ->
  follows k k' ->
  forall fuel count st cs cs',
    succeeds (rep_loop m mn mx g k fuel count st cs) ->
    succeeds (rep_loop m' mn mx g k' fuel count st cs').
Proof.
  intros Hm Hk. induction fuel as [|f IH]; intros count st cs cs'; [apply none_fails|].
  cbn [rep_loop].
  assert (Hround :
            succeeds (m st cs
                        (fun st' c =>
                           if Nat.leb mn count && Nat.eqb (pos st') (pos st) then None
                           else rep_loop m mn mx g k f (S count) st' c)) ->
            succeeds (m' st cs'
                        (fun st' c =>
                           if Nat.leb mn count && Nat.eqb (pos st') (pos st) then None
                           else rep_loop m' mn mx g k' f (S count) st' c))).
  { apply Hm. intros st1 c1 c1'.
    destruct (Nat.leb mn count && Nat.eqb (pos st1) (pos st)); [apply none_fails|apply IH]. }
  destruct (below count mx); destruct (Nat.leb mn count); destruct g;
    rewrite ?orelse_succeeds; try apply none_fails;
    try (intros [H|H]; [left|right]; revert H);
    try exact Hround; try exact (Hk _ _ _); try apply none_fails.
Qed.

Lemma mtch_mono (r : regex) :
  forall st cs cs' (k : cont A) (k' : cont B),
    follows k k' ->
    succeeds (mtch icase r st cs k) -> succeeds (mtch icase r st cs' k').
Proof.
  induction r as [| |c| |neg items|r1 IH1 r2 IH2|r1 IH1 r2 IH2|mn mx g r1 IH1|i r1 IH1| | |];
    intros st cs cs' k k' Hk; cbn [mtch].
  - exact (Hk _ _ _).
  - apply none_fails.
  - destruct (rest st) as [|x t]; [apply none_fails|].
    destruct (char_match icase c x); [exact (Hk _ _ _)|apply none_fails].
  - destruct (rest st) as [|x t]; [apply none_fails|].
    destruct (is_line_terminator x); [apply none_fails|exact (Hk _ _ _)].
  - destruct (rest st) as [|x t]; [apply none_fails|].
    destruct (class_match icase neg items x); [exact (Hk _ _ _)|apply none_fails].
  - apply IH1. intros st1 c1 c1'. apply IH2. exact Hk.
  - rewrite !orelse_succeeds. intros [H|H]; [left; eapply IH1|right; eapply IH2]; eauto.
  - apply rep_loop_mono; [exact IH1|exact Hk].
  - apply IH1. intros st1 c1 c1'. exact (Hk _ _ _).
  - destruct (at_boundary st); [exact (Hk _ _ _)|apply none_fails].
  - destruct (Nat.eqb (pos st) 0); [exact (Hk _ _ _)|apply none_fails].
  - destruct (rest st); [exact (Hk _ _ _)|apply none_fails].
Qed.

Lemma mlist_mono (l : list regex) :
  forall st cs cs' (k : cont A) (k' : cont B),
    follows k k' ->
    succeeds (mlist icase l st cs k) -> succeeds (mlist icase l st cs' k').
Proof.
  induction l as [|a t IH]; intros st cs cs' k k' Hk; cbn [mlist].
  - exact (Hk _ _ _).
  - apply mtch_mono. intros st1 c1 c1'. apply IH. exact Hk.
Qed.

End Mono.

Section Splitting.

Variable icase : bool.
Variables A B : Type.

Lemma mlist_app_split (l1 l2 : list regex) :
  forall st cs cs' (k : cont A) (k' : cont B),
    follows k k' ->
    succeeds (mlist icase (l1 ++ l2) st cs k) ->
    succeeds (mlist icase l1 st cs' (fun st' c => mlist icase l2 st' c k')).
Proof.
  induction l1 as [|a t IH]; intros st cs cs' k k' Hk; cbn [mlist app].
  - apply mlist_mono. exact Hk.
  - apply mtch_mono. intros st1 c1 c1'. apply IH. exact Hk.
Qed.

Lemma mlist_app_join (l1 l2 : list regex) :
  forall st cs cs' (k : cont A) (k' : cont B),
    follows k k' ->
    succeeds (mlist icase l1 st cs (fun st' c => mlist icase l2 st' c k)) ->
    succeeds (mlist icase (l1 ++ l2) st cs' k').
Proof.
  induction l1 as [|a t IH]; intros st cs cs' k k' Hk; cbn [mlist app].
  - apply mlist_mono. exact Hk.
  - apply mtch_mono. intros st1 c1 c1'. apply IH. exact Hk.
Qed.

End Splitting.

Section Skeleton.

Variable icase : bool.
Variables A B : Type.

Lemma skeleton_of_match (r : regex) :
  forall st cs cs' (k : cont A) (k' : cont B),
    follows k k' -> follows k' k' ->
    succeeds (mtch icase r st cs k) ->
    succeeds (mlist icase (skeleton r) st cs' k').
Proof.
  induction r as [| |c| |neg items|r1 IH1 r2 IH2|r1 IH1 r2 IH2|mn mx g r1 IH1|i r1 IH1| | |];
    intros st cs cs' k k' Hk Hb; cbn [skeleton];
    try (cbn [mlist]; apply mtch_mono; intros st1 c1 c1'; exact (Hk _ _ _)).
  - cbn [mtch mlist]. exact (Hk _ _ _).
  - cbn [mtch]. intros H.
    apply (@mlist_app_join icase B B (skeleton r1) (skeleton r2) st cs' cs' k' k' Hb).
    revert H. apply IH1.
    + intros st1 c1 c1'. apply IH2; assumption.
    + intros st1 c1 c1'. apply mlist_mono. exact Hb.
  - cbn [mtch]. apply IH1; [|exact Hb]. intros st1 c1 c1'. exact (Hk _ _ _).
Qed.

Lemma match_of_skeleton (r : regex) :
  forall st cs cs' (k : cont A) (k' : cont B),
    follows k k' -> follows k k ->
    succeeds (mlist icase (skeleton r) st cs k) ->
    succeeds (mtch icase r st cs' k').
Proof.
  induction r as [| |c| |neg items|r1 IH1 r2 IH2|r1 IH1 r2 IH2|mn mx g r1 IH1|i r1 IH1| | |];
    intros st cs cs' k k' Hk Hb; cbn [skeleton];
    try (cbn [mlist]; apply mtch_mono; intros st1 c1 c1'; exact (Hk _ _ _)).
  - cbn [mtch mlist]. exact (Hk _ _ _).
  - cbn [mtch]. intros H.
    apply (@mlist_app_split icase A A (skeleton r1) (skeleton r2) st cs cs k k Hb) in H.
    revert H. apply IH1.
    + intros st1 c1 c1'. apply IH2; assumption.
    + intros st1 c1 c1'. apply mlist_mono. exact Hb.
  - cbn [mtch]. apply IH1; [|exact Hb]. intros st1 c1 c1'. exact (Hk _ _ _).
Qed.

End Skeleton.

(** A pattern whose atoms start with those of another matches only where
    the other does. *)
Lemma exec_at_prefix (r1 r2 : regexp) (l : list regex) :
  ignoreCase r1 = ignoreCase r2 ->
  skeleton (body r2) = skeleton (body r1) ++ l ->
  forall st, succeeds (exec_at r2 st) -> succeeds (exec_at r1 st).
Proof.
  intros Hi Hs st. unfold exec_at. rewrite Hi. intros H.
  assert (Blind : forall (f : mstate -> caps -> nat * caps),
             follows (fun st' cs' => Some (f st' cs')) (fun st' cs' => Some (f st' cs')))
    by (intros f st1 c1 c1' _; discriminate).
  apply (@skeleton_of_match _ _ _ (body r2) st [] []
           (fun st' cs' => Some (pos st', cs')) (fun st' cs' => Some (pos st', cs'))
           (Blind _) (Blind _)) in H.
  rewrite Hs in H.
  apply (@mlist_app_split _ _ _ (skeleton (body r1)) l st [] []
           (fun st' cs' => Some (pos st', cs')) (fun st' cs' => Some (pos st', cs'))
           (Blind _)) in H.
  revert H.
  apply (@match_of_skeleton _ _ _ (body r1)).
  - intros st1 c1 c1' _. discriminate.
  - intros st1 c1 c1'. apply mlist_mono. apply Blind.
Qed.

Lemma search_prefix (r1 r2 : regexp) (l : list regex) (text : jsstring) :
  ignoreCase r1 = ignoreCase r2 ->
  skeleton (body r2) = skeleton (body r1) ++ l ->
  forall rs p pv, succeeds (search r2 text p pv rs) -> succeeds (search r1 text p pv rs).
Proof.
  intros Hi Hs. induction rs as [|x t IH]; intros p pv; cbn [search].
  - pose proof (@exec_at_prefix r1 r2 l Hi Hs {| pos := p; prev := pv; rest := [] |}) as E.
    destruct (exec_at r2 _) as [[e2 c2]|]; [|apply none_fails].
    intros _. destruct (exec_at r1 _) as [[e1 c1]|]; [discriminate|].
    exfalso. apply E; [discriminate|reflexivity].
  - pose proof (@exec_at_prefix r1 r2 l Hi Hs {| pos := p; prev := pv; rest := x :: t |}) as E.
    destruct (exec_at r1 _) as [[e1 c1]|]; [intros _; discriminate|].
    destruct (exec_at r2 _) as [[e2 c2]|]; [exfalso; apply E; [discriminate|reflexivity]|].
    apply IH.
Qed.

(** Where a [g] pattern has a match, a pattern it extends has one too. *)
Lemma match_global_prefix (r1 r2 : regexp) (l : list regex) (text : jsstring) :
  ignoreCase r1 = ignoreCase r2 ->
  skeleton (body r2) = skeleton (body r1) ++ l ->
  succeeds (match_global text r2) -> succeeds (match_first text r1).
Proof.
  intros Hi Hs. unfold match_global, matchAll, match_first.
  replace (List.length text + 2)%nat with (S (List.length text + 1)) by lia.
  cbn [all_from]. destruct (Nat.ltb (List.length text) 0) eqn:E; [apply Nat.ltb_lt in E; lia|].
  intros H. apply (@search_prefix r1 r2 l text Hi Hs).
  unfold search_from in H. destruct (search r2 text 0 _ _); [discriminate|].
  exfalso. apply H. reflexivity.
Qed.

Lemma match_first_prefix (r1 r2 : regexp) (l : list regex) (text : jsstring) :
  ignoreCase r1 = ignoreCase r2 ->
  skeleton (body r2) = skeleton (body r1) ++ l ->
  succeeds (match_first text r2) -> succeeds (match_first text r1).
Proof.
  intros Hi Hs. unfold match_first, search_from. apply (@search_prefix r1 r2 l text Hi Hs).
Qed.

(** ** Blocks of [detectOdds] that never act *)

Lemma signed_truthy (s : jsstring) : truthy (Some (signed s)) = true.
Proof.
  unfold signed.
  destruct (startsWith s (str "+")) eqn:P; [destruct s; [discriminate|reflexivity]|].
  destruct (startsWith s (str "-")) eqn:M; [destruct s; [discriminate|reflexivity]|].
  reflexivity.
Qed.

Lemma simpleWas_settles (text : jsstring) (pre post : option jsstring) :
  succeeds (match_first text simpleWasRx) -> settled (simpleWas text pre post).
Proof.
  unfold simpleWas. fold simpleWasRx.
  destruct (match_first text simpleWasRx) as [m|]; [intros _|apply none_fails].
  destruct (unset pre post) eqn:U; [|exact U].
  destruct (match_first text (rx "Now\s*([+\-]?\d{3,5})" "i")); [exact I|].
  rewrite signed_truthy. cbn [andb].
  match goal with |- settled (if truthy ?p then _ else _) => destruct (truthy p) end;
    [exact I|].
  unfold settled, unset. rewrite signed_truthy. reflexivity.
Qed.

Lemma idle_bind (f : flow) (blk : option jsstring -> option jsstring -> flow) :
  (forall pre post, unset pre post = false -> blk pre post = Next pre post) ->
  settled f -> andThen f blk = f.
Proof.
  intros H S. destruct f as [a b|a b]; [reflexivity|]. simpl. apply H. exact S.
Qed.

Lemma extends_first (r1 r2 : regexp) (text : jsstring) :
  extends r1 r2 -> match_first text r1 = None -> match_first text r2 = None.
Proof.
  intros [Hi [l Hs]] H1.
  destruct (match_first text r2) as [m|] eqn:E; [|reflexivity].
  exfalso. apply (@match_first_prefix r1 r2 l text Hi Hs); [rewrite E; discriminate|exact H1].
Qed.

Lemma extends_global (r1 r2 : regexp) (text : jsstring) :
  extends r1 r2 -> match_first text r1 = None -> match_global text r2 = None.
Proof.
  intros [Hi [l Hs]] H1.
  destruct (match_global text r2) as [m|] eqn:E; [|reflexivity].
  exfalso. apply (@match_global_prefix r1 r2 l text Hi Hs); [rewrite E; discriminate|exact H1].
Qed.

Ltac show_extends := split; [reflexivity|eexists; vm_compute; reflexivity].

Lemma alternatives_extend :
  Forall (extends simpleWasRx) alternativeSeparatorPatterns.
Proof.
  unfold alternativeSeparatorPatterns.
  repeat (apply Forall_cons; [show_extends|]). apply Forall_nil.
Qed.

Lemma ocr_extends : extends simpleWasRx (rx "Was\s*([+\-]?\d{3,5})\s+(\w+)" "i").
Proof. show_extends. Qed.

Lemma sameLine_extends :
  extends simpleWasRx (rx "Was\s*([+\-]?\d{3,5})\s*(?:Now|→|->|\s)\s*([+\-]?\d{3,5})" "i").
Proof. show_extends. Qed.

Lemma standalone_extends : extends simpleWasRx (rx "Was\s*[+\-]?(\d{3,5})" "i").
Proof. show_extends. Qed.

Lemma full_extends :
  extends simpleWasRx
          (rx "Was\s*[+\-]?(\d{3,5})\s*.*?(?:v|→|Now)\s*[+\-]?(\d{3,5})" "gi").
Proof. show_extends. Qed.

Lemma alternativeSeparator_idle (text : jsstring) (pre post : option jsstring) :
  unset pre post = false \/ match_first text simpleWasRx = None ->
  alternativeSeparator text pre post = Next pre post.
Proof.
  intros H. unfold alternativeSeparator, alternativeSeparatorPatterns. cbn [fold_left].
  assert (One : forall p, extends simpleWasRx p ->
                          alternativeSeparator1 p text pre post = Next pre post).
  { intros p Hp. unfold alternativeSeparator1. destruct H as [U|N].
    - rewrite U. destruct (match_first text p); reflexivity.
    - rewrite (@extends_first _ _ _ Hp N). reflexivity. }
  pose proof alternatives_extend as E. unfold alternativeSeparatorPatterns in E.
  inversion E as [|p1 l1 E1 E']; subst. inversion E' as [|p2 l2 E2 E'']; subst.
  inversion E'' as [|p3 l3 E3 _]; subst.
  cbn [andThen]. rewrite (One _ E1). cbn [andThen].
  rewrite (One _ E2). cbn [andThen]. apply One. exact E3.
Qed.

Lemma wasWithOcrError_idle (text : jsstring) (pre post : option jsstring) :
  unset pre post = false \/ match_first text simpleWasRx = None ->
  wasWithOcrError text pre post = Next pre post.
Proof.
  intros [U|N]; unfold wasWithOcrError.
  - rewrite U. destruct (match_first text _); reflexivity.
  - rewrite (@extends_first _ _ _ ocr_extends N). reflexivity.
Qed.

Lemma wasGeneral_idle (text : jsstring) (pre post : option jsstring) :
  unset pre post = false -> wasGeneral text pre post = Next pre post.
Proof.
  intros U. unfold wasGeneral. rewrite U. destruct (match_first text _); reflexivity.
Qed.

Lemma sameLineWasNow_idle (text : jsstring) (pre post : option jsstring) :
  unset pre post = false \/ match_first text simpleWasRx = None ->
  sameLineWasNow text pre post = Next pre post.
Proof.
  intros [U|N]; unfold sameLineWasNow.
  - rewrite U. destruct (match_first text _); reflexivity.
  - rewrite (@extends_first _ _ _ sameLine_extends N). reflexivity.
Qed.

Lemma standaloneWas_idle (text : jsstring) (pre post : option jsstring) :
  unset pre post = false \/ match_first text simpleWasRx = None ->
  standaloneWas text pre post = Next pre post.
Proof.
  intros [U|N]; unfold standaloneWas.
  - rewrite U. destruct (match_first text _); reflexivity.
  - rewrite (@extends_first _ _ _ standalone_extends N). reflexivity.
Qed.

Lemma wasNowFull_idle (text : jsstring) (pre post : option jsstring) :
  unset pre post = false \/ match_first text simpleWasRx = None ->
  wasNowFull text pre post = Next pre post.
Proof.
  intros [U|N]; unfold wasNowFull.
  - rewrite U. destruct (match_global text _) as [[|fm l]|]; try reflexivity.
    destruct (match_first fm _); [|reflexivity].
    destruct (match_first fm _); reflexivity.
  - rewrite (@extends_global _ _ _ full_extends N). reflexivity.
Qed.

Lemma settled_or_absent (text : jsstring) (f : flow) :
  (succeeds (match_first text simpleWasRx) -> settled f) ->
  forall blk,
    (forall pre post,
        unset pre post = false \/ match_first text simpleWasRx = None ->
        blk pre post = Next pre post) ->
    andThen f blk = f.
Proof.
  intros S blk H. destruct f as [a b|a b]; [reflexivity|]. cbn [andThen].
  apply H. destruct (match_first text simpleWasRx) eqn:E.
  - left. apply S. discriminate.
  - right. reflexivity.
Qed.

(** With [g] the state of [detectOdds] after its direct extraction, its
    primary pattern and its secondary [Was] look-up: the alternative
    separators, the OCR correction, the same-line pattern, the standalone
    [Was] search and the validated [Was ... Now] block all leave the state as
    it is, on every text. *)
Lemma idle_blocks (text : jsstring) :
  let t := cleanText text in
  let g := Next None None >>= directOdds t >>= wasNowSeparator t >>= simpleWas t in
  g >>= alternativeSeparator t = g
  /\ g >>= wasWithOcrError t = g
  /\ g >>= wasGeneral t >>= sameLineWasNow t = g >>= wasGeneral t
  /\ g >>= wasGeneral t >>= standaloneWas t = g >>= wasGeneral t
  /\ g >>= wasGeneral t >>= wasNowFull t = g >>= wasGeneral t.
Proof.
  intros t g.
  assert (Sg : succeeds (match_first t simpleWasRx) -> settled g).
  { intros M. unfold g.
    destruct (Next None None >>= directOdds t >>= wasNowSeparator t) as [a b|a b];
      [exact I|]. cbn [andThen]. apply simpleWas_settles. exact M. }
  assert (Sw : succeeds (match_first t simpleWasRx) -> settled (g >>= wasGeneral t)).
  { intros M. specialize (Sg M). destruct g as [a b|a b]; [exact I|].
    cbn [andThen]. rewrite wasGeneral_idle by exact Sg. exact Sg. }
  repeat split.
  - apply (@settled_or_absent t _ Sg). intros; apply alternativeSeparator_idle; assumption.
  - apply (@settled_or_absent t _ Sg). intros; apply wasWithOcrError_idle; assumption.
  - apply (@settled_or_absent t _ Sw). intros; apply sameLineWasNow_idle; assumption.
  - apply (@settled_or_absent t _ Sw). intros; apply standaloneWas_idle; assumption.
  - apply (@settled_or_absent t _ Sw). intros; apply wasNowFull_idle; assumption.
Qed.

(** C1, at its own example and in general.  [detectOdds] returns the pair
    of ["Was +1200 Now +900"] as read, post-boost below pre-boost: the direct
    extraction sets both variables first; the same happens without signs
    (through the secondary pattern) and with a separator (through the
    primary one), and [detectOddsComparison], which the handler calls,
    returns the pair as read too.  The validated [Was ... Now] block on its
    own, entered with both variables unset, rejects the pair; but on every
    text it is passed over, whatever state reaches it. *)
Theorem C1_invalid_pair_returned :
  detectOdds (str "Was +1200 Now +900") = (Some (str "+1200"), Some (str "+900"))
  /\ detectOdds (str "Was 1200 Now 900") = (Some (str "+1200"), Some (str "+900"))
  /\ detectOdds (str "Was +1200 > Now +900") = (Some (str "+1200"), Some (str "+900"))
  /\ originalOdds (detectOddsComparison (str "Was +1200 Now +900")) = Some (str "+1200")
  /\ boostedOdds (detectOddsComparison (str "Was +1200 Now +900")) = Some (str "+900")
  /\ wasNowFull (str "Was +1200 Now +900") None None = Return None None
  /\ (forall text,
         let t := cleanText text in
         let f := Next None None
                  >>= directOdds t >>= wasNowSeparator t >>= simpleWas t
                  >>= alternativeSeparator t >>= wasWithOcrError t >>= wasGeneral t
                  >>= sameLineWasNow t >>= standaloneWas t in
         f >>= wasNowFull t = f).
Proof.
  split; [vm_compute; reflexivity|].
  split; [vm_compute; reflexivity|].
  split; [vm_compute; reflexivity|].
  split; [vm_compute; reflexivity|].
  split; [vm_compute; reflexivity|].
  split; [vm_compute; reflexivity|].
  intros text t f.
  destruct (idle_blocks text) as (E1 & E2 & E3 & E4 & E5).
  fold t in E1, E2, E3, E4, E5. unfold f.
  rewrite E1, E2, E3, E4. exact E5.
Qed.

(** X1. On every text [detectOdds] returns what it would return without its
    alternative-separator patterns, its OCR correction of the token after
    [Was <odds>], its same-line pattern, its standalone [Was] search and its
    validated [Was ... Now] block. *)
Theorem detectOdds_without_idle_blocks (text : jsstring) :
  detectOdds text
  = let t := cleanText text in
    match Next None None
          >>= directOdds t >>= wasNowSeparator t >>= simpleWas t
          >>= wasGeneral t
          >>= wos t >>= individual t >>= searchPost t >>= lastWasNow t
    with
    | Return preBoost postBoost => (preBoost, postBoost)
    | Next preBoost postBoost => (preBoost, postBoost)
    end.
Proof.
  unfold detectOdds. cbv zeta.
  destruct (idle_blocks text) as (E1 & E2 & E3 & E4 & E5). cbv zeta in E1, E2, E3, E4, E5.
  rewrite E1, E2, E3, E4, E5. reflexivity.
Qed.

(** The labelled examples: a pair with a separator is returned as read, a
    second number without sign gets a [+], by [detectOdds] and by
    [detectOddsComparison] alike; a lone number gives no pair. *)
Theorem odds_parser_examples :
  detectOdds (str "Was +950 > Now +1129") = (Some (str "+950"), Some (str "+1129"))
  /\ detectOdds (str "Was +4000 5000") = (Some (str "+4000"), Some (str "+5000"))
  /\ originalOdds (detectOddsComparison (str "Was +950 > Now +1129")) = Some (str "+950")
  /\ boostedOdds (detectOddsComparison (str "Was +950 > Now +1129")) = Some (str "+1129")
  /\ originalOdds (detectOddsComparison (str "Was +4000 5000")) = Some (str "+4000")
  /\ boostedOdds (detectOddsComparison (str "Was +4000 5000")) = Some (str "+5000")
  /\ detectOdds (str "Was +4000") = (Some (str "+4000"), None)
  /\ originalOdds (detectOddsComparison (str "Was +4000")) = None.
Proof.
  repeat split; vm_compute; reflexivity.
Qed.

(** ** The reconciler *)

Import Monitor.

Lemma eqb_spec (a : jsstring) : forall b, JsString.eqb a b = true <-> a = b.
Proof.
  induction a as [|x a IH]; intros [|y b]; simpl; split; try congruence; auto.
  - rewrite andb_true_iff, N.eqb_eq, IH. intros [-> ->]. reflexivity.
  - intros H. injection H as -> ->. rewrite N.eqb_refl. apply IH. reflexivity.
Qed.






(** Arithmetic on finite numbers. *)













(** *** The three ways a handler invocation ends *)

Lemma isDifferentBoost_data (s s' : state) (p : num) (w n : option jsstring) :
  lastBoostData s = lastBoostData s' -> isDifferentBoost s p w n = isDifferentBoost s' p w n.
Proof. unfold isDifferentBoost. intros ->. reflexivity. Qed.

Lemma onScreenData_noParse (now : Z) (d : screenData) (s : state) :
  cyclePercentage d = None ->
  let s' := fst (onScreenData now d s) in
  let out := snd (onScreenData now d s) in
  consecutiveNumberFailures s' = (consecutiveNumberFailures s + 1)%Z
  /\ numberFailureNotified s' = numberFailureNotified s
  /\ lastUniqueBoostTime s' = lastUniqueBoostTime s
  /\ noNewBoostNotified s' = noNewBoostNotified s
  /\ lastBoostData s' = lastBoostData s
  /\ filter is_boost_alert out = []
  /\ filter is_stale_alert out = []
  /\ filter is_failure_alert out = [].
Proof.
  unfold cyclePercentage, onScreenData.
  destruct (cropFailed d); [intros _; simpl; tauto|].
  destruct (cropTooSmall d); [intros _; simpl; tauto|].
  intros ->. simpl. tauto.
Qed.

Lemma onScreenData_repeat (now : Z) (d : screenData) (s : state) (p : num) :
  cyclePercentage d = Some p ->
  newBoost s d = false ->
  let s' := fst (onScreenData now d s) in
  let out := snd (onScreenData now d s) in
  consecutiveNumberFailures s' = 0%Z
  /\ numberFailureNotified s' = false
  /\ lastUniqueBoostTime s' = lastUniqueBoostTime s
  /\ noNewBoostNotified s' = noNewBoostNotified s
  /\ lastBoostData s' = lastBoostData s
  /\ filter is_boost_alert out = []
  /\ filter is_stale_alert out = []
  /\ filter is_failure_alert out = [].
Proof.
  unfold newBoost. intros Hp. rewrite Hp. revert Hp.
  unfold cyclePercentage, onScreenData.
  destruct (cropFailed d); [discriminate|].
  destruct (cropTooSmall d); [discriminate|].
  intros -> Hn.
  cbn [detectedPreBoostOdds detectedPostBoostOdds].
  rewrite (@isDifferentBoost_data _ s) by reflexivity.
  rewrite Hn. simpl. tauto.
Qed.

Lemma onScreenData_new (now : Z) (d : screenData) (s : state) (p : num) :
  cyclePercentage d = Some p ->
  newBoost s d = true ->
  let oc := runOddsComparison d in
  let s' := fst (onScreenData now d s) in
  let out := snd (onScreenData now d s) in
  lastBoostData s' = Some {| percentage := p; wasOdds := originalOdds oc;
                             nowOdds := boostedOdds oc; timestamp := now |}
  /\ consecutiveNumberFailures s' = 0%Z
  /\ numberFailureNotified s' = false
  /\ lastUniqueBoostTime s' = now
  /\ noNewBoostNotified s' = false
  /\ filter is_boost_alert out
     = [BoostAlert p (or_else (originalOdds oc) (originalOdds oc))
                   (or_else (or_else (boostedOdds oc) (boostedOdds oc)) None)]
  /\ filter is_stale_alert out = []
  /\ filter is_failure_alert out = [].
Proof.
  unfold newBoost. intros Hp. rewrite Hp. revert Hp.
  unfold cyclePercentage, onScreenData.
  destruct (cropFailed d); [discriminate|].
  destruct (cropTooSmall d); [discriminate|].
  intros -> Hn.
  cbn [detectedPreBoostOdds detectedPostBoostOdds].
  rewrite (@isDifferentBoost_data _ s) by reflexivity.
  rewrite Hn. destruct (gt p (of_Z 49)); simpl; tauto.
Qed.

Lemma newBoost_data (s s' : state) (d : screenData) :
  lastBoostData s = lastBoostData s' -> newBoost s d = newBoost s' d.
Proof.
  intros H. unfold newBoost. destruct (cyclePercentage d); [|reflexivity].
  apply isDifferentBoost_data, H.
Qed.



(** C3. A new-boost transition stores the observation, clears the failure
    counter and both alert flags, stamps the time of the last unique boost
    with the clock reading, and hands exactly one boost alert to the bot. *)
Theorem C3_new_boost_transition (now : Z) (d : screenData) (s : state) (p : num) :
  cyclePercentage d = Some p ->
  newBoost s d = true ->
  let oc := runOddsComparison d in
  let s' := fst (onScreenData now d s) in
  let out := snd (onScreenData now d s) in
  lastBoostData s' = Some {| percentage := p; wasOdds := originalOdds oc;
                             nowOdds := boostedOdds oc; timestamp := now |}
  /\ consecutiveNumberFailures s' = 0%Z
  /\ numberFailureNotified s' = false
  /\ lastUniqueBoostTime s' = now
  /\ noNewBoostNotified s' = false
  /\ count is_boost_alert out = 1%nat
  /\ (exists pre post, In (BoostAlert p pre post) out).
Proof.
  intros Hp Hn oc s' out.
  destruct (onScreenData_new now d s Hp Hn) as (Hd & Hc & Hf & Ht & Hs & Hb & _).
  repeat split; auto.
  - unfold count. fold out in Hb. rewrite Hb. reflexivity.
  - eexists. eexists.
    apply (proj1 (filter_In is_boost_alert _ out)).
    fold out in Hb. rewrite Hb. left. reflexivity.
Qed.

(** C9. A cycle that ends without a percentage (crop failed, crop too small,
    or nothing computed from the odds) adds one to the failure counter and
    leaves the time of the last unique boost alone; a cycle that ends with a
    percentage, new boost or not, sets the counter to 0 and clears the
    failure-alert flag. *)
Theorem C9_failure_counter (now : Z) (d : screenData) (s : state) :
  let s' := fst (onScreenData now d s) in
  ((cropFailed d = true \/ cropTooSmall d = true
    \/ boostPercentage (runOddsComparison d) = None) ->
   consecutiveNumberFailures s' = (consecutiveNumberFailures s + 1)%Z
   /\ lastUniqueBoostTime s' = lastUniqueBoostTime s)
  /\ (forall p,
         cropFailed d = false -> cropTooSmall d = false ->
         boostPercentage (runOddsComparison d) = Some p ->
         consecutiveNumberFailures s' = 0%Z /\ numberFailureNotified s' = false).
Proof.
  intros s'. split.
  - intros H.
    assert (Hc : cyclePercentage d = None).
    { unfold cyclePercentage.
      destruct (cropFailed d); [reflexivity|].
      destruct (cropTooSmall d); [reflexivity|].
      destruct H as [H|[H|H]]; try discriminate. exact H. }
    destruct (onScreenData_noParse now d s Hc) as (H1 & _ & H3 & _). auto.
  - intros p Hf Ht Hp.
    assert (Hc : cyclePercentage d = Some p)
      by (unfold cyclePercentage; rewrite Hf, Ht; exact Hp).
    destruct (newBoost s d) eqn:Hn.
    + destruct (onScreenData_new now d s Hc Hn) as (_ & H1 & H2 & _). auto.
    + destruct (onScreenData_repeat now d s Hc Hn) as (H1 & H2 & _). auto.
Qed.

(** *** Runs of the event loop *)

Lemma run_cons (e : event) (es : list event) (s : state) :
  run (e :: es) s
  = (fst (run es (fst (step e s))), snd (step e s) ++ snd (run es (fst (step e s)))).
Proof.
  simpl. destruct (step e s) as [s1 out1]. simpl.
  destruct (run es s1) as [s2 out2]. reflexivity.
Qed.

Lemma count_app (f : message -> bool) (a b : list message) :
  count f (a ++ b) = (count f a + count f b)%nat.
Proof. unfold count. rewrite filter_app, length_app. reflexivity. Qed.

Lemma checkNoNewBoost_frame (now : Z) (s : state) :
  let s' := fst (checkNoNewBoost now s) in
  consecutiveNumberFailures s' = consecutiveNumberFailures s
  /\ numberFailureNotified s' = numberFailureNotified s
  /\ lastUniqueBoostTime s' = lastUniqueBoostTime s
  /\ lastBoostData s' = lastBoostData s
  /\ count is_failure_alert (snd (checkNoNewBoost now s)) = 0%nat
  /\ count is_boost_alert (snd (checkNoNewBoost now s)) = 0%nat.
Proof.
  unfold checkNoNewBoost.
  destruct (_ && _); simpl; repeat split; reflexivity.
Qed.

Lemma checkNumberFailures_frame (s : state) :
  let s' := fst (checkNumberFailures s) in
  consecutiveNumberFailures s' = consecutiveNumberFailures s
  /\ noNewBoostNotified s' = noNewBoostNotified s
  /\ lastUniqueBoostTime s' = lastUniqueBoostTime s
  /\ lastBoostData s' = lastBoostData s
  /\ count is_stale_alert (snd (checkNumberFailures s)) = 0%nat
  /\ count is_boost_alert (snd (checkNumberFailures s)) = 0%nat.
Proof.
  unfold checkNumberFailures.
  destruct (_ && _); simpl; repeat split; reflexivity.
Qed.






(** The stale-boost watch, with the flag set: silent until a new boost. *)
Lemma stale_watch_silent (s0 : state) (es : list event) :
  forall s,
    lastBoostData s = lastBoostData s0 ->
    forallb (noNewBoost s0) es = true ->
    noNewBoostNotified s = true ->
    count is_stale_alert (snd (run es s)) = 0%nat.
Proof.
  induction es as [|e es IH]; intros s Hd Hes Hflag; [reflexivity|].
  simpl in Hes. apply andb_true_iff in Hes. destruct Hes as [He Hes].
  rewrite run_cons. cbn [snd]. rewrite count_app.
  destruct e as [now d|now|]; cbn [step].
  - simpl in He. apply negb_true_iff in He.
    rewrite <- (newBoost_data s s0 d Hd) in He.
    destruct (cyclePercentage d) as [p|] eqn:Hc.
    + destruct (onScreenData_repeat now d s Hc He) as (_ & _ & _ & Hf & Hl & _ & Ha & _).
      unfold count at 1. rewrite Ha. simpl. apply IH; [congruence|exact Hes|congruence].
    + destruct (onScreenData_noParse now d s Hc) as (_ & _ & _ & Hf & Hl & _ & Ha & _).
      unfold count at 1. rewrite Ha. simpl. apply IH; [congruence|exact Hes|congruence].
  - unfold checkNoNewBoost at 1 2. rewrite Hflag, andb_false_r. simpl.
    apply IH; assumption.
  - destruct (checkNumberFailures_frame s) as (_ & Hf & _ & Hl & Ha & _).
    rewrite Ha. simpl. apply IH; [congruence|exact Hes|congruence].
Qed.

(** The stale-boost watch, armed: one alert if a check later than the
    timeout runs, none otherwise. *)
Lemma stale_watch_armed (s0 : state) (es : list event) :
  forall s,
    lastBoostData s = lastBoostData s0 ->
    lastUniqueBoostTime s = lastUniqueBoostTime s0 ->
    forallb (noNewBoost s0) es = true ->
    forallb (staleTickAfter (lastUniqueBoostTime s0 + NO_NEW_BOOST_TIMEOUT)) es = true ->
    noNewBoostNotified s = false ->
    count is_stale_alert (snd (run es s))
    = if existsb isStaleTick es then 1%nat else 0%nat.
Proof.
  induction es as [|e es IH]; intros s Hd Ht Hes Hlate Hflag; [reflexivity|].
  simpl in Hes. apply andb_true_iff in Hes. destruct Hes as [He Hes].
  simpl in Hlate. apply andb_true_iff in Hlate. destruct Hlate as [Hl1 Hlate].
  rewrite run_cons. cbn [snd]. rewrite count_app.
  destruct e as [now d|now|]; cbn [step existsb isStaleTick orb].
  - simpl in He. apply negb_true_iff in He.
    rewrite <- (newBoost_data s s0 d Hd) in He.
    destruct (cyclePercentage d) as [p|] eqn:Hc.
    + destruct (onScreenData_repeat now d s Hc He) as (_ & _ & Hu & Hf & Hl & _ & Ha & _).
      unfold count at 1. rewrite Ha. simpl. apply IH; congruence.
    + destruct (onScreenData_noParse now d s Hc) as (_ & _ & Hu & Hf & Hl & _ & Ha & _).
      unfold count at 1. rewrite Ha. simpl. apply IH; congruence.
  - simpl in Hl1. apply Z.ltb_lt in Hl1.
    assert (Hgt : (NO_NEW_BOOST_TIMEOUT <? now - lastUniqueBoostTime s)%Z = true)
      by (apply Z.ltb_lt; lia).
    unfold checkNoNewBoost at 1 2. rewrite Hgt, Hflag. simpl.
    rewrite (stale_watch_silent s0); [reflexivity|exact Hd|exact Hes|reflexivity].
  - destruct (checkNumberFailures_frame s) as (_ & Hf & Hu & Hl & Ha & _).
    rewrite Ha. simpl. apply IH; congruence.
Qed.

(** C4 as stated fails at the bound: with the last unique boost at time
    1000 and the flag clear, a check at exactly [1000 + NO_NEW_BOOST_TIMEOUT]
    is a check "at or after" the timeout and sends nothing, so this run of
    checks sends no alert instead of one. *)
Lemma C4_counterexample :
  lastUniqueBoostTime (initial 1000) = 1000%Z
  /\ noNewBoostNotified (initial 1000) = false
  /\ count is_stale_alert
       (snd (run [NoNewBoostTick (1000 + NO_NEW_BOOST_TIMEOUT)] (initial 1000))) = 0%nat
  /\ count is_stale_alert
       (snd (run [NoNewBoostTick (1000 + NO_NEW_BOOST_TIMEOUT);
                  NoNewBoostTick (1000 + NO_NEW_BOOST_TIMEOUT)] (initial 1000))) <> 1%nat.
Proof.
  repeat split; try reflexivity. vm_compute. discriminate.
Qed.

(** C4, amended.  The timeout is 12 minutes.  A check no later than
    [lastUniqueBoostTime + NO_NEW_BOOST_TIMEOUT] (so one at the timeout
    minus 1, and one at the timeout itself) sends nothing and changes
    nothing.  With the flag clear, over any run of events that are not
    new-boost transitions and whose stale checks all come strictly after the
    timeout, exactly one stale alert is sent if the run holds a stale check.
    The check never clears the flag, and the flag goes from set to clear only
    in a new-boost transition. *)
Theorem C4_stale_watch :
  NO_NEW_BOOST_TIMEOUT = 720000%Z
  /\ (forall s now,
         (now <= lastUniqueBoostTime s + NO_NEW_BOOST_TIMEOUT)%Z ->
         checkNoNewBoost now s = (s, []))
  /\ (forall s es,
         noNewBoostNotified s = false ->
         forallb (noNewBoost s) es = true ->
         forallb (staleTickAfter (lastUniqueBoostTime s + NO_NEW_BOOST_TIMEOUT)) es = true ->
         existsb isStaleTick es = true ->
         count is_stale_alert (snd (run es s)) = 1%nat)
  /\ (forall s now,
         noNewBoostNotified s = false ->
         (lastUniqueBoostTime s + NO_NEW_BOOST_TIMEOUT < now)%Z ->
         count is_stale_alert (snd (checkNoNewBoost now s)) = 1%nat
         /\ noNewBoostNotified (fst (checkNoNewBoost now s)) = true)
  /\ (forall s now,
         noNewBoostNotified s = true ->
         noNewBoostNotified (fst (checkNoNewBoost now s)) = true)
  /\ (forall e s,
         noNewBoostNotified s = true ->
         noNewBoostNotified (fst (step e s)) = false ->
         noNewBoost s e = false).
Proof.
  split; [reflexivity|].
  split.
  { intros s now H. unfold checkNoNewBoost.
    assert (E : (NO_NEW_BOOST_TIMEOUT <? now - lastUniqueBoostTime s)%Z = false)
      by (apply Z.ltb_ge; lia).
    rewrite E. reflexivity. }
  split.
  { intros s es Hflag Hes Hlate Hex.
    rewrite (stale_watch_armed s es s eq_refl eq_refl Hes Hlate Hflag), Hex.
    reflexivity. }
  split.
  { intros s now Hflag Hlate. unfold checkNoNewBoost.
    assert (E : (NO_NEW_BOOST_TIMEOUT <? now - lastUniqueBoostTime s)%Z = true)
      by (apply Z.ltb_lt; lia).
    rewrite E, Hflag. simpl. auto. }
  split.
  { intros s now Hflag. unfold checkNoNewBoost.
    rewrite Hflag, andb_false_r. exact Hflag. }
  intros e s Hset Hclear.
  destruct e as [now d|now|]; cbn [step] in Hclear.
  - simpl. apply negb_false_iff.
    destruct (newBoost s d) eqn:Hn; [reflexivity|].
    destruct (cyclePercentage d) as [p|] eqn:Hc.
    + destruct (onScreenData_repeat now d s Hc Hn) as (_ & _ & _ & Hf & _). congruence.
    + destruct (onScreenData_noParse now d s Hc) as (_ & _ & _ & Hf & _). congruence.
  - revert Hclear. unfold checkNoNewBoost. rewrite Hset, andb_false_r. simpl. congruence.
  - destruct (checkNumberFailures_frame s) as (_ & Hf & _). congruence.
Qed.

(** ** The boost calculator *)

Import BoostCalculator.



















(** ** The percentage the handler works with *)



(** ** The theorems at concrete inputs *)


(** C3 at the same capture. *)
Lemma C3_new_boost_transition_witness :
  let d := capture "Was +950 > Now +1129" in
  let s := afterFailures 7 0 in
  let s' := fst (onScreenData 5000 d s) in
  consecutiveNumberFailures s = 7%Z
  /\ lastBoostData s' = Some {| percentage := Fin (94 # 5);
                                Monitor.wasOdds := originalOdds (runOddsComparison d);
                                Monitor.nowOdds := boostedOdds (runOddsComparison d);
                                timestamp := 5000 |}
  /\ consecutiveNumberFailures s' = 0%Z
  /\ numberFailureNotified s' = false
  /\ lastUniqueBoostTime s' = 5000%Z
  /\ noNewBoostNotified s' = false
  /\ count is_boost_alert (snd (onScreenData 5000 d s)) = 1%nat
  /\ (exists pre post, In (BoostAlert (Fin (94 # 5)) pre post) (snd (onScreenData 5000 d s))).
Proof.
  intros d s s'. split; [reflexivity|].
  apply (@C3_new_boost_transition 5000%Z d s (Fin (94 # 5))); vm_compute; reflexivity.
Defined.

(** C4 on a run of two late checks around a failure check. *)
Lemma C4_stale_watch_witness :
  count is_stale_alert
    (snd (run [NoNewBoostTick 720001; NumberFailureTick; NoNewBoostTick 900000] (initial 0)))
  = 1%nat
  /\ checkNoNewBoost 719999 (initial 0) = (initial 0, []).
Proof.
  destruct C4_stale_watch as (_ & Hquiet & Hrun & _).
  split.
  - apply Hrun; vm_compute; reflexivity.
  - apply Hquiet. vm_compute. discriminate.
Defined.




(** C9 at a failed crop and at a readable capture. *)
Lemma C9_failure_counter_witness :
  consecutiveNumberFailures
    (fst (onScreenData 100 {| cropFailed := true; cropTooSmall := false; oddsText := None |}
                       (afterFailures 3 0))) = (3 + 1)%Z
  /\ consecutiveNumberFailures
       (fst (onScreenData 100 (capture "Was +950 > Now +1129") (afterFailures 3 0))) = 0%Z.
Proof.
  split.
  - apply (C9_failure_counter 100
             {| cropFailed := true; cropTooSmall := false; oddsText := None |}
             (afterFailures 3 0)).
    left. reflexivity.
  - apply (proj2 (C9_failure_counter 100 (capture "Was +950 > Now +1129")
                                     (afterFailures 3 0)) (Fin (94 # 5)));
      vm_compute; reflexivity.
Defined.


(** * The rest of the pipeline *)

Import JsString Regex JsNum Obs RegexLang TextDetection.

(** ** Soundness of the matcher *)

Lemma slice_step (text : jsstring) (p : nat) (x : char) (t : jsstring) :
  skipn p text = x :: t ->
  slice text p (S p) = [x] /\ skipn (S p) text = t /\ (S p <= List.length text)%nat.
Proof.
  intros H. unfold slice. replace (S p - p)%nat with 1%nat by lia. rewrite H.
  split; [reflexivity|]. split.
  - change (S p) with (1 + p)%nat. rewrite <- skipn_skipn, H. reflexivity.
  - destruct (Nat.le_gt_cases (List.length text) p) as [L|L]; [|lia].
    rewrite skipn_all2 in H by exact L. discriminate.
Qed.

Lemma slice_refl (text : jsstring) (p : nat) : slice text p p = [].
Proof. unfold slice. rewrite Nat.sub_diag. reflexivity. Qed.

Lemma slice_app (text : jsstring) (a b c : nat) :
  (a <= b)%nat -> (b <= c)%nat -> slice text a c = slice text a b ++ slice text b c.
Proof.
  intros H1 H2. unfold slice.
  replace (c - a)%nat with ((b - a) + (c - b))%nat by lia.
  rewrite <- (firstn_skipn (b - a) (skipn a text)) at 1.
  rewrite firstn_app.
  rewrite firstn_firstn. replace (Nat.min (b - a + (c - b)) (b - a)) with (b - a)%nat by lia.
  f_equal.
  rewrite skipn_skipn. replace (b - a + a)%nat with b by lia.
  rewrite length_firstn.
  destruct (Nat.le_gt_cases (b - a) (List.length (skipn a text))) as [L|L].
  - replace (b - a + (c - b) - Nat.min (b - a) (List.length (skipn a text)))%nat
      with (c - b)%nat by lia.
    reflexivity.
  - rewrite length_skipn in L.
    rewrite (skipn_all2 (n:=b) text) by lia. rewrite !firstn_nil. reflexivity.
Qed.

Section Sound.

Variable icase : bool.
Variable A : Type.
Variable text : jsstring.

Lemma bound_to_same (r : regex) (i : nat) (cs cs' : caps) :
  cap_lookup i cs' = cap_lookup i cs ->
  bound_to icase text r i cs -> bound_to icase text r i cs'.
Proof.
  intros E (b & s & e & Hb & Hc & L). exists b, s, e. rewrite E. auto.
Qed.

Lemma bound_to_in (r r' : regex) (i : nat) (cs : caps) :
  (forall b, In b (group_bodies i r) -> In b (group_bodies i r')) ->
  bound_to icase text r i cs -> bound_to icase text r' i cs.
Proof.
  intros Hin (b & s & e & Hb & Hc & L). exists b, s, e. auto.
Qed.

Lemma advance_stands (st : mstate) (x : char) (t : jsstring) :
  stands_in text st -> rest st = x :: t ->
  stands_in text (advance st x t)
  /\ slice text (pos st) (pos (advance st x t)) = [x].
Proof.
  intros [Hr Hl] E. rewrite Hr in E.
  destruct (slice_step text (pos st) E) as (S1 & S2 & S3).
  unfold stands_in, advance. simpl. auto.
Qed.

Lemma rep_loop_sound (m : mstate -> caps -> cont A -> option A) (r1 : regex)
      (mn : nat) (mx : option nat) (g : bool) (k : cont A) :
  (forall st cs h a, stands_in text st -> m st cs h = Some a -> sound_at icase text r1 st cs h a) ->
  forall fuel count st cs a,
    stands_in text st ->
    rep_loop m mn mx g k fuel count st cs = Some a ->
    exists st' cs' n,
      k st' cs' = Some a /\ stands_in text st' /\ (pos st <= pos st')%nat
      /\ (mn <= count + n)%nat /\ (within count mx -> within (count + n) mx)
      /\ pieces (lang icase r1) n (slice text (pos st) (pos st'))
      /\ (forall i,
            ((n = 0%nat \/ binds i r1 = false) /\ cap_lookup i cs' = cap_lookup i cs)
            \/ bound_to icase text r1 i cs').
Proof.
  intros Hm. induction fuel as [|f IH]; intros count st cs a Hst; [discriminate|].
  cbn [rep_loop].
  assert (Stop : (if Nat.leb mn count then k st cs else None) = Some a ->
                 exists st' cs' n,
                   k st' cs' = Some a /\ stands_in text st' /\ (pos st <= pos st')%nat
                   /\ (mn <= count + n)%nat /\ (within count mx -> within (count + n) mx)
                   /\ pieces (lang icase r1) n (slice text (pos st) (pos st'))
                   /\ (forall i,
                         ((n = 0%nat \/ binds i r1 = false)
                          /\ cap_lookup i cs' = cap_lookup i cs)
                         \/ bound_to icase text r1 i cs')).
  { destruct (Nat.leb mn count) eqn:L; [|discriminate].
    apply Nat.leb_le in L. intros H. exists st, cs, 0%nat.
    rewrite Nat.add_0_r, slice_refl.
    split; [exact H|]. split; [exact Hst|]. split; [lia|]. split; [exact L|].
    split; [tauto|]. split; [reflexivity|]. intros i. left. auto. }
  assert (Round :
            (if below count mx
             then m st cs
                    (fun st' cs' =>
                       if Nat.leb mn count && Nat.eqb (pos st') (pos st) then None
                       else rep_loop m mn mx g k f (S count) st' cs')
             else None) = Some a ->
            exists st' cs' n,
              k st' cs' = Some a /\ stands_in text st' /\ (pos st <= pos st')%nat
              /\ (mn <= count + n)%nat /\ (within count mx -> within (count + n) mx)
              /\ pieces (lang icase r1) n (slice text (pos st) (pos st'))
              /\ (forall i,
                    ((n = 0%nat \/ binds i r1 = false)
                     /\ cap_lookup i cs' = cap_lookup i cs)
                    \/ bound_to icase text r1 i cs')).
  { destruct (below count mx) eqn:B; [|discriminate].
    intros H. apply Hm in H; [|exact Hst].
    destruct H as (st1 & cs1 & Hk & Hst1 & Hp1 & Hl1 & Hb1).
    destruct (Nat.leb mn count && Nat.eqb (pos st1) (pos st)); [discriminate|].
    apply IH in Hk; [|exact Hst1].
    destruct Hk as (st2 & cs2 & n & Hk2 & Hst2 & Hp2 & Hmn & Hmx & Hpc & Hb2).
    exists st2, cs2, (S n). split; [exact Hk2|]. split; [exact Hst2|].
    split; [lia|]. split; [lia|]. split.
    { intros _. replace (count + S n)%nat with (S count + n)%nat by lia. apply Hmx.
      unfold below in B. unfold within. destruct mx as [mxv|]; [|exact I].
      apply Nat.ltb_lt in B. lia. }
    split.
    { cbn [pieces]. exists (slice text (pos st) (pos st1)), (slice text (pos st1) (pos st2)).
      split; [apply slice_app; assumption|]. split; assumption. }
    intros i. destruct (Hb2 i) as [[_ E2]|N2]; [|right; exact N2].
    destruct (Hb1 i) as [[B1 E1]|N1].
    - left. split; [right; exact B1|congruence].
    - right. eapply bound_to_same; eassumption. }
  destruct g.
  - unfold orelse.
    match goal with |- match ?x with _ => _ end = _ -> _ => destruct x as [a'|] eqn:E end.
    + intros H. injection H as <-. apply Round. reflexivity.
    + exact Stop.
  - unfold orelse.
    match goal with |- match ?x with _ => _ end = _ -> _ => destruct x as [a'|] eqn:E end.
    + intros H. injection H as <-. apply Stop. reflexivity.
    + exact Round.
Qed.

Ltac sound_here H Hst :=
  split; [exact H|]; split; [exact Hst|]; split; [lia|]; split; [reflexivity|];
  intros i; left; split; reflexivity.

Lemma mtch_sound (r : regex) :
  forall st cs (k : cont A) a,
    stands_in text st -> mtch icase r st cs k = Some a -> sound_at icase text r st cs k a.
Proof.
  induction r as [| |c| |neg items|r1 IH1 r2 IH2|r1 IH1 r2 IH2|mn mx g r1 IH1|i r1 IH1| | |];
    intros st cs k a Hst; cbn [mtch]; unfold sound_at.
  - intros H. exists st, cs. rewrite slice_refl. sound_here H Hst.
  - discriminate.
  - destruct (rest st) as [|x t] eqn:E; [discriminate|].
    destruct (char_match icase c x) eqn:C; [|discriminate].
    intros H. destruct (advance_stands Hst E) as [S1 S2].
    exists (advance st x t), cs. rewrite S2.
    split; [exact H|]. split; [exact S1|]. split; [simpl; lia|].
    split; [exists x; auto|]. intros i. left. split; reflexivity.
  - destruct (rest st) as [|x t] eqn:E; [discriminate|].
    destruct (is_line_terminator x) eqn:C; [discriminate|].
    intros H. destruct (advance_stands Hst E) as [S1 S2].
    exists (advance st x t), cs. rewrite S2.
    split; [exact H|]. split; [exact S1|]. split; [simpl; lia|].
    split; [exists x; auto|]. intros i. left. split; reflexivity.
  - destruct (rest st) as [|x t] eqn:E; [discriminate|].
    destruct (class_match icase neg items x) eqn:C; [|discriminate].
    intros H. destruct (advance_stands Hst E) as [S1 S2].
    exists (advance st x t), cs. rewrite S2.
    split; [exact H|]. split; [exact S1|]. split; [simpl; lia|].
    split; [exists x; auto|]. intros i. left. split; reflexivity.
  - intros H. apply IH1 in H; [|exact Hst].
    destruct H as (st1 & cs1 & Hk & Hst1 & Hp1 & Hl1 & Hb1).
    apply IH2 in Hk; [|exact Hst1].
    destruct Hk as (st2 & cs2 & Hk2 & Hst2 & Hp2 & Hl2 & Hb2).
    exists st2, cs2. split; [exact Hk2|]. split; [exact Hst2|]. split; [lia|]. split.
    + cbn [lang]. exists (slice text (pos st) (pos st1)), (slice text (pos st1) (pos st2)).
      split; [apply slice_app; assumption|]. split; assumption.
    + intros i. cbn [binds].
      destruct (Hb2 i) as [[B2 E2]|N2].
      * destruct (Hb1 i) as [[B1 E1]|N1].
        -- left. rewrite B1, B2. split; [reflexivity|congruence].
        -- right. apply bound_to_same with cs1; [exact E2|].
           eapply bound_to_in; [|exact N1]. intros b Hin. cbn [group_bodies].
           apply in_or_app. left. exact Hin.
      * right. eapply bound_to_in; [|exact N2]. intros b Hin. cbn [group_bodies].
        apply in_or_app. right. exact Hin.
  - unfold orelse. destruct (mtch icase r1 st cs k) as [a'|] eqn:E.
    + intros H. injection H as <-. apply IH1 in E; [|exact Hst].
      destruct E as (st1 & cs1 & Hk & Hst1 & Hp1 & Hl1 & Hb1).
      exists st1, cs1. split; [exact Hk|]. split; [exact Hst1|]. split; [exact Hp1|]. split.
      * cbn [lang]. left. exact Hl1.
      * intros i. cbn [binds]. destruct (Hb1 i) as [[B1 E1]|N1].
        -- left. rewrite B1. auto.
        -- right. eapply bound_to_in; [|exact N1]. intros b Hin. cbn [group_bodies].
           apply in_or_app. left. exact Hin.
    + intros H. apply IH2 in H; [|exact Hst].
      destruct H as (st1 & cs1 & Hk & Hst1 & Hp1 & Hl1 & Hb1).
      exists st1, cs1. split; [exact Hk|]. split; [exact Hst1|]. split; [exact Hp1|]. split.
      * cbn [lang]. right. exact Hl1.
      * intros i. cbn [binds]. destruct (Hb1 i) as [[B1 E1]|N1].
        -- left. rewrite B1, andb_false_r. auto.
        -- right. eapply bound_to_in; [|exact N1]. intros b Hin. cbn [group_bodies].
           apply in_or_app. right. exact Hin.
  - intros H.
    apply (@rep_loop_sound (mtch icase r1) r1 mn mx g k IH1) in H; [|exact Hst].
    destruct H as (st1 & cs1 & n & Hk & Hst1 & Hp1 & Hmn & Hmx & Hpc & Hb1).
    exists st1, cs1. split; [exact Hk|]. split; [exact Hst1|]. split; [exact Hp1|].
    split.
    + cbn [lang]. exists n. simpl in Hmn, Hmx. split; [exact Hmn|]. split; [|exact Hpc].
      apply Hmx. unfold within. destruct mx; [lia|exact I].
    + intros i. cbn [binds group_bodies]. destruct (Hb1 i) as [[[Z|B1] E1]|N1].
      * left. subst n. simpl in Hmn. destruct mn; [auto|lia].
      * left. rewrite B1, andb_false_r. auto.
      * right. exact N1.
  - intros H. apply IH1 in H; [|exact Hst].
    destruct H as (st1 & cs1 & Hk & Hst1 & Hp1 & Hl1 & Hb1).
    exists st1, ((i, (pos st, pos st1)) :: cs1).
    split; [exact Hk|]. split; [exact Hst1|]. split; [exact Hp1|]. split; [exact Hl1|].
    intros j. cbn [binds]. destruct (Nat.eqb j i) eqn:J.
    + right. exists r1, (pos st), (pos st1). cbn [cap_lookup group_bodies]. rewrite J.
      split; [left; reflexivity|]. auto.
    + destruct (Hb1 j) as [[B1 E1]|(b & s & e & Hb & E & L)].
      * left. cbn [cap_lookup]. rewrite J, B1. auto.
      * right. exists b, s, e. cbn [cap_lookup group_bodies]. rewrite J. auto.
  - destruct (at_boundary st); [|discriminate]. intros H.
    exists st, cs. rewrite slice_refl. sound_here H Hst.
  - destruct (Nat.eqb (pos st) 0); [|discriminate]. intros H.
    exists st, cs. rewrite slice_refl. sound_here H Hst.
  - destruct (rest st); [|discriminate]. intros H.
    exists st, cs. rewrite slice_refl. sound_here H Hst.
Qed.

End Sound.

Lemma exec_at_sound (r : regexp) (text : jsstring) (st : mstate) (e : nat) (cs : caps) :
  stands_in text st -> exec_at r st = Some (e, cs) ->
  sound_match r text {| m_text := text; m_start := pos st; m_end := e; m_caps := cs |}.
Proof.
  intros Hst H. unfold exec_at in H.
  apply (@mtch_sound (ignoreCase r) _ text (body r) st [] _ (e, cs) Hst) in H.
  destruct H as (st' & cs' & Hk & Hst' & Hp & Hl & Hb).
  injection Hk as <- <-. unfold sound_match, m0, grp. cbn.
  split; [reflexivity|]. split; [exact Hp|]. split; [apply Hst'|]. split; [exact Hl|].
  intros i Hi. destruct (Hb i) as [[B _]|(b & s & e & Hin & E & L)]; [congruence|].
  exists b. rewrite E. auto.
Qed.

Lemma search_sound (r : regexp) (text : jsstring) :
  forall rs p pv m,
    rs = skipn p text -> (p <= List.length text)%nat ->
    search r text p pv rs = Some m ->
    sound_match r text m /\ (p <= m_start m)%nat.
Proof.
  induction rs as [|x t IH]; intros p pv m Hrs Hp; cbn [search].
  - destruct (exec_at r _) as [[e cs]|] eqn:E; [|discriminate].
    intros H. injection H as <-. split; [|simpl; lia].
    apply (@exec_at_sound r text {| pos := p; prev := pv; rest := [] |} e cs); [|exact E].
    split; assumption.
  - destruct (exec_at r _) as [[e cs]|] eqn:E.
    + intros H. injection H as <-. split; [|simpl; lia].
      apply (@exec_at_sound r text {| pos := p; prev := pv; rest := x :: t |} e cs); [|exact E].
      split; assumption.
    + intros H. symmetry in Hrs. destruct (slice_step text p Hrs) as (_ & S2 & S3).
      apply IH in H; [|symmetry; exact S2|exact S3].
      destruct H as [Hs Hle]. split; [exact Hs|lia].
Qed.

Lemma search_from_sound (r : regexp) (text : jsstring) (p : nat) (m : rmatch) :
  (p <= List.length text)%nat -> search_from r text p = Some m ->
  sound_match r text m /\ (p <= m_start m)%nat.
Proof. intros Hp. unfold search_from. apply search_sound; [reflexivity|exact Hp]. Qed.

Lemma match_first_sound (r : regexp) (text : jsstring) (m : rmatch) :
  match_first text r = Some m -> sound_match r text m.
Proof.
  unfold match_first. intros H. apply search_from_sound in H; [apply H|lia].
Qed.

Lemma all_from_sound (r : regexp) (text : jsstring) :
  forall fuel p m, In m (all_from fuel r text p) -> sound_match r text m.
Proof.
  induction fuel as [|f IH]; intros p m; cbn [all_from]; [intros []|].
  destruct (Nat.ltb (List.length text) p) eqn:L; [intros []|].
  apply Nat.ltb_ge in L.
  destruct (search_from r text p) as [m'|] eqn:E; [|intros []].
  intros [<-|Hin].
  - apply (search_from_sound _ _ L E).
  - eapply IH; eassumption.
Qed.

Lemma matchAll_sound (r : regexp) (text : jsstring) (m : rmatch) :
  In m (matchAll text r) -> sound_match r text m.
Proof. apply all_from_sound. Qed.

Import JsString Regex JsNum Obs RegexLang TextDetection.

(** ** Digits and signs *)

Lemma digit_class (icase : bool) (x : char) :
  class_match icase false [CDigit] x = is_digit x.
Proof.
  unfold class_match. cbn [existsb in_item xorb]. rewrite orb_false_r.
  destruct icase; cbn [andb]; [|apply orb_false_r].
  destruct (is_digit x) eqn:D; [reflexivity|]. cbn [orb].
  unfold upper, lower, is_lower, is_upper, is_digit, between in *.
  apply andb_false_iff in D.
  repeat match goal with
         | |- context [if ?b then _ else _] => destruct b eqn:?
         end;
    repeat match goal with
           | H : (_ && _)%bool = true |- _ => apply andb_true_iff in H; destruct H
           | H : (_ <=? _)%N = true |- _ => apply N.leb_le in H
           | H : (_ <=? _)%N = false |- _ => apply N.leb_gt in H
           end;
    apply orb_false_iff; split; apply andb_false_iff;
    destruct D as [D|D]; apply N.leb_gt in D;
    rewrite ?N.leb_gt; lia.
Qed.

Lemma upper_fixes (x c : char) :
  is_lower c = false -> is_upper c = false -> (c =? upper x)%N = (c =? x)%N.
Proof.
  intros L U. unfold upper. destruct (is_lower x) eqn:Lx; [|reflexivity].
  destruct (N.eqb_spec c (x - 32)) as [E|E]; destruct (N.eqb_spec c x) as [E'|E'];
    try reflexivity; exfalso.
  - subst c. unfold is_lower, is_upper, between in *.
    apply andb_true_iff in Lx. destruct Lx as [A B].
    apply N.leb_le in A. apply N.leb_le in B.
    apply andb_false_iff in U. destruct U as [U|U]; apply N.leb_gt in U; lia.
  - subst c. congruence.
Qed.

Lemma lower_fixes (x c : char) :
  is_lower c = false -> is_upper c = false -> (c =? lower x)%N = (c =? x)%N.
Proof.
  intros L U. unfold lower. destruct (is_upper x) eqn:Ux; [|reflexivity].
  destruct (N.eqb_spec c (x + 32)) as [E|E]; destruct (N.eqb_spec c x) as [E'|E'];
    try reflexivity; exfalso.
  - subst c. unfold is_lower, is_upper, between in *.
    apply andb_true_iff in Ux. destruct Ux as [A B].
    apply N.leb_le in A. apply N.leb_le in B.
    apply andb_false_iff in L. destruct L as [L|L]; apply N.leb_gt in L; lia.
  - subst c. congruence.
Qed.

(** A class of symbols without case matches the same with and without the
    [i] flag. *)
Lemma symbol_item (icase : bool) (c x : char) :
  is_lower c = false -> is_upper c = false ->
  in_item (CChar c) x || (icase && (in_item (CChar c) (upper x) || in_item (CChar c) (lower x)))
  = (c =? x)%N.
Proof.
  intros L U. cbn [in_item]. rewrite (@upper_fixes x c L U), (@lower_fixes x c L U).
  destruct (c =? x)%N, icase; reflexivity.
Qed.

Lemma sign_class (icase : bool) (x : char) :
  class_match icase false [CChar 43%N; CChar 45%N] x = true -> x = 43%N \/ x = 45%N.
Proof.
  unfold class_match. cbn [existsb xorb].
  rewrite !symbol_item by reflexivity. rewrite orb_false_r.
  intros H. apply orb_true_iff in H. destruct H as [H|H]; apply N.eqb_eq in H; auto.
Qed.

Lemma plus_class (icase : bool) (x : char) :
  char_match icase 43%N x = true -> x = 43%N.
Proof.
  unfold char_match. destruct icase; intros H; apply N.eqb_eq in H; [|auto].
  change (upper 43%N) with 43%N in H.
  pose proof (@upper_fixes x 43%N eq_refl eq_refl) as U. rewrite <- H in U.
  rewrite N.eqb_refl in U. symmetry in U. apply N.eqb_eq in U. auto.
Qed.

Lemma digit_pieces (icase : bool) :
  forall n w, pieces (lang icase (RClass false [CDigit])) n w ->
              List.length w = n /\ all_digits w.
Proof.
  induction n as [|n IH]; intros w; cbn [pieces].
  - intros ->. split; [reflexivity|constructor].
  - intros (u & v & -> & (x & -> & Hx) & Hv). destruct (IH _ Hv) as [L D].
    rewrite digit_class in Hx. split; [simpl; lia|]. constructor; assumption.
Qed.

Lemma digit_run (icase : bool) (mn : nat) (mx : option nat) (g : bool) (w : jsstring) :
  lang icase (RRep mn mx g (RClass false [CDigit])) w ->
  all_digits w /\ (mn <= List.length w)%nat /\ within (List.length w) mx.
Proof.
  cbn [lang]. intros (n & Hmn & Hmx & Hp). destruct (@digit_pieces icase n w Hp) as [L D].
  subst n. auto.
Qed.

Lemma optional (icase : bool) (g : bool) (r : regex) (w : jsstring) :
  lang icase (RRep 0 (Some 1%nat) g r) w -> w = [] \/ lang icase r w.
Proof.
  cbn [lang]. intros (n & _ & Hmx & Hp). cbn [within] in Hmx.
  destruct n as [|[|n]]; [left; exact Hp| |lia].
  cbn [pieces] in Hp. destruct Hp as (u & v & -> & Hu & ->).
  right. rewrite app_nil_r. exact Hu.
Qed.

Lemma lang_seq (icase : bool) (r1 r2 : regex) (w : jsstring) :
  lang icase (RSeq r1 r2) w ->
  exists u v, w = u ++ v /\ lang icase r1 u /\ lang icase r2 v.
Proof. exact (fun H => H). Qed.

Lemma lang_char (icase : bool) (c : char) (w : jsstring) :
  lang icase (RChar c) w -> exists x, w = [x] /\ char_match icase c x = true.
Proof. exact (fun H => H). Qed.

Lemma lang_class (icase : bool) (neg : bool) (items : list citem) (w : jsstring) :
  lang icase (RClass neg items) w ->
  exists x, w = [x] /\ class_match icase neg items x = true.
Proof. exact (fun H => H). Qed.

(** [[+-]?\d{mn,mx}] with [mn] at least 1. *)
Lemma signed_run (icase : bool) (mn : nat) (mx : option nat) (g g' : bool) (w : jsstring) :
  (1 <= mn)%nat ->
  lang icase (RSeq (RRep 0 (Some 1%nat) g (RClass false [CChar 43%N; CChar 45%N]))
                   (RRep mn mx g' (RClass false [CDigit]))) w ->
  signed_digits w.
Proof.
  intros Hmn H. apply lang_seq in H. destruct H as (u & v & -> & Hu & Hv).
  apply optional in Hu. apply digit_run in Hv. destruct Hv as (D & L & _).
  assert (Hne : v <> []) by (intros ->; simpl in L; lia).
  exists v. split; [exact Hne|]. split; [exact D|].
  destruct Hu as [->|Hu]; [left; reflexivity|].
  apply lang_class in Hu. destruct Hu as (x & -> & Hx).
  apply sign_class in Hx. destruct Hx as [-> | ->]; auto.
Qed.

Lemma unsigned_run (icase : bool) (mn : nat) (mx : option nat) (g : bool) (w : jsstring) :
  (1 <= mn)%nat ->
  lang icase (RRep mn mx g (RClass false [CDigit])) w -> signed_digits w.
Proof.
  intros Hmn Hv. apply digit_run in Hv. destruct Hv as (D & L & _).
  exists w. split; [intros ->; simpl in L; lia|]. auto.
Qed.

Lemma signed_is_odds (w : jsstring) : signed_digits w -> is_odds (signed w).
Proof.
  intros (ds & Hne & D & [-> | [-> | ->]]).
  - destruct ds as [|d t]; [congruence|].
    assert (Hd : is_digit d = true) by (inversion D; assumption).
    exists 43%N, (d :: t). split; [|auto].
    unfold signed, startsWith, str. simpl.
    destruct (N.eqb_spec d 43) as [->|_]; [discriminate|].
    destruct (N.eqb_spec d 45) as [->|_]; [discriminate|].
    reflexivity.
  - exists 43%N, ds. split; [|auto]. destruct ds; [congruence|reflexivity].
  - exists 45%N, ds. split; [|auto]. destruct ds; [congruence|reflexivity].
Qed.

(** ** The odds comparison returns signed numbers *)

Lemma firstPattern_In (text : jsstring) :
  forall ps m, firstPattern text ps = Some m ->
               exists p, In p ps /\ match_first text p = Some m.
Proof.
  induction ps as [|p t IH]; intros m; cbn [firstPattern]; [discriminate|].
  destruct (match_first text p) as [m'|] eqn:E.
  - intros H. injection H as <-. exists p. split; [left; reflexivity|exact E].
  - intros H. destruct (IH _ H) as (q & Hin & Hq). exists q. split; [right; exact Hin|exact Hq].
Qed.

Ltac odds_group :=
  intros i [-> | ->]; (split; [vm_compute; reflexivity|]);
  intros b w Hin; vm_compute in Hin; destruct Hin as [<-|[]];
  first [apply signed_run; lia | apply unsigned_run; lia].

Lemma oddsPatterns_groups : Forall odds_groups oddsPatterns.
Proof.
  unfold oddsPatterns. repeat (apply Forall_cons; [odds_group|]). apply Forall_nil.
Qed.

Lemma individualOdds_group :
  binds 1 (body (rx "([+-]?\d{3,4})" "g")) = true
  /\ forall b w, In b (group_bodies 1 (body (rx "([+-]?\d{3,4})" "g"))) ->
                 lang (ignoreCase (rx "([+-]?\d{3,4})" "g")) b w -> signed_digits w.
Proof.
  split; [vm_compute; reflexivity|].
  intros b w Hin; vm_compute in Hin; destruct Hin as [<-|[]]. apply signed_run; lia.
Qed.

Lemma comparison_odds (text : jsstring) :
  detectedText (detectOddsComparison text) = Some text
  /\ ((originalOdds (detectOddsComparison text) = None
       /\ boostedOdds (detectOddsComparison text) = None)
      \/ exists o b,
           originalOdds (detectOddsComparison text) = Some o
           /\ boostedOdds (detectOddsComparison text) = Some b
           /\ is_odds o /\ is_odds b).
Proof.
  unfold detectOddsComparison.
  destruct (firstPattern text oddsPatterns) as [m|] eqn:F.
  - split; [reflexivity|]. right. cbn.
    destruct (firstPattern_In _ _ F) as (p & Hin & Hm).
    pose proof oddsPatterns_groups as G. rewrite Forall_forall in G.
    specialize (G p Hin). apply match_first_sound in Hm.
    destruct Hm as (_ & _ & _ & _ & Hg).
    exists (signed (grp m 1)), (signed (grp m 2)).
    split; [reflexivity|]. split; [reflexivity|].
    split; apply signed_is_odds.
    + destruct (G 1%nat (or_introl eq_refl)) as [B L].
      destruct (Hg _ B) as (b & Hb & Hl). exact (L _ _ Hb Hl).
    + destruct (G 2%nat (or_intror eq_refl)) as [B L].
      destruct (Hg _ B) as (b & Hb & Hl). exact (L _ _ Hb Hl).
  - destruct (matchAll text (rx "([+-]?\d{3,4})" "g")) as [|a [|b l]] eqn:M;
      try (split; [reflexivity|left; split; reflexivity]).
    split; [reflexivity|]. right. cbn.
    destruct individualOdds_group as [B L].
    assert (Ha : sound_match (rx "([+-]?\d{3,4})" "g") text a)
      by (apply matchAll_sound; rewrite M; left; reflexivity).
    assert (Hb : sound_match (rx "([+-]?\d{3,4})" "g") text b)
      by (apply matchAll_sound; rewrite M; right; left; reflexivity).
    destruct Ha as (_ & _ & _ & _ & Ga). destruct Hb as (_ & _ & _ & _ & Gb).
    exists (signed (grp a 1)), (signed (grp b 1)).
    split; [reflexivity|]. split; [reflexivity|].
    split; apply signed_is_odds.
    + destruct (Ga _ B) as (r & Hr & Hl). exact (L _ _ Hr Hl).
    + destruct (Gb _ B) as (r & Hr & Hl). exact (L _ _ Hr Hl).
Qed.

(** X2. [detectOddsComparison] keeps the text it was given, and finds both
    odds or none: two odds it returns are each a sign, [+] or [-], followed
    by at least one digit. *)
Theorem detectOddsComparison_signed (text : jsstring) :
  detectedText (detectOddsComparison text) = Some text
  /\ ((originalOdds (detectOddsComparison text) = None
       /\ boostedOdds (detectOddsComparison text) = None)
      \/ exists o b,
           originalOdds (detectOddsComparison text) = Some o
           /\ boostedOdds (detectOddsComparison text) = Some b
           /\ is_odds o /\ is_odds b).
Proof. exact (comparison_odds text). Qed.

(** ** Found odds always give numbers *)

Import Monitor Trace.




Lemma digit_not_space (d : char) : is_digit d = true -> is_space d = false.
Proof.
  unfold is_digit, is_space, between. intros H.
  apply andb_true_iff in H. destruct H as [A B].
  apply N.leb_le in A. apply N.leb_le in B.
  rewrite (proj2 (N.leb_gt d 13)) by lia.
  rewrite (proj2 (N.leb_gt 8192 d)) by lia.
  repeat match goal with
         | |- context [(d =? ?n)%N] => rewrite (proj2 (N.eqb_neq d n)) by lia
         end.
  rewrite andb_false_r. reflexivity.
Qed.

Lemma digit_not_sign (d : char) :
  is_digit d = true -> (d =? 45)%N = false /\ (d =? 43)%N = false.
Proof.
  unfold is_digit, between. intros H.
  apply andb_true_iff in H. destruct H as [A B].
  apply N.leb_le in A. apply N.leb_le in B.
  split; apply N.eqb_neq; lia.
Qed.







Import JsString Regex JsNum Obs RegexLang TextDetection Monitor Trace.

(** ** Runs of the event loop: what the alerts carry *)

Lemma run_app (es1 es2 : list event) :
  forall s, run (es1 ++ es2) s
            = (fst (run es2 (fst (run es1 s))),
               snd (run es1 s) ++ snd (run es2 (fst (run es1 s)))).
Proof.
  induction es1 as [|e es1 IH]; intros s.
  - simpl. destruct (run es2 s); reflexivity.
  - rewrite <- app_comm_cons, !run_cons, IH. cbn [fst snd]. rewrite app_assoc. reflexivity.
Qed.







(** ** No boost is alerted twice in a row *)






(** ** The failure counter counts the cycles since the last parse *)

Lemma failures_counted (es : list event) :
  forall s,
    forallb noParse es = true ->
    consecutiveNumberFailures (fst (run es s))
    = (consecutiveNumberFailures s + Z.of_nat (captures es))%Z.
Proof.
  induction es as [|e es IH]; intros s Hes; [simpl; lia|].
  simpl in Hes. apply andb_true_iff in Hes. destruct Hes as [He Hes].
  rewrite run_cons. cbn [fst]. rewrite (IH _ Hes).
  destruct e as [now d|now|]; unfold captures; cbn [step filter isCapture].
  - simpl in He. destruct (cyclePercentage d) eqn:Hc; [discriminate|].
    destruct (onScreenData_noParse now d s Hc) as (Hn & _). rewrite Hn.
    cbn [List.length]. lia.
  - destruct (checkNoNewBoost_frame now s) as (Hn & _). rewrite Hn. reflexivity.
  - destruct (checkNumberFailures_frame s) as (Hn & _). rewrite Hn. reflexivity.
Qed.

(** X6. Over events none of which ends with a percentage the failure
    counter grows by one per capture cycle, the two timers leaving it alone;
    so after a cycle that ended with a percentage it is the number of
    capture cycles run since, whatever came before. *)
Theorem failure_counter_counts (es1 es2 : list event) (now : Z) (d : screenData) (s : state) :
  forallb noParse es2 = true ->
  consecutiveNumberFailures (fst (run es2 s))
  = (consecutiveNumberFailures s + Z.of_nat (captures es2))%Z
  /\ (forall p,
         cyclePercentage d = Some p ->
         consecutiveNumberFailures (fst (run (es1 ++ ScreenData now d :: es2) s))
         = Z.of_nat (captures es2)).
Proof.
  intros Hes. split; [exact (failures_counted _ _ Hes)|].
  intros p Hc. rewrite run_app. cbn [fst]. rewrite run_cons. cbn [fst].
  rewrite (failures_counted _ _ Hes). cbn [step].
  destruct (newBoost (fst (run es1 s)) d) eqn:Hn.
  - destruct (onScreenData_new now d _ Hc Hn) as (_ & H & _). rewrite H. lia.
  - destruct (onScreenData_repeat now d _ Hc Hn) as (H & _). rewrite H. lia.
Qed.

(** ** The health alerts are rate limited *)

Lemma stale_step (e : event) (s : state) :
  (count is_stale_alert (snd (step e s)) + flag (noNewBoostNotified s)
   <= count is_boost_alert (snd (step e s)) + flag (noNewBoostNotified (fst (step e s))))%nat.
Proof.
  destruct e as [now d|now|]; cbn [step].
  - destruct (cyclePercentage d) as [p|] eqn:Hc.
    + destruct (newBoost s d) eqn:Hn.
      * destruct (onScreenData_new now d s Hc Hn) as (_ & _ & _ & _ & Hf & Hb & Hs & _).
        unfold count. rewrite Hf, Hb, Hs. destruct (noNewBoostNotified s); simpl; lia.
      * destruct (onScreenData_repeat now d s Hc Hn) as (_ & _ & _ & Hf & _ & Hb & Hs & _).
        unfold count. rewrite Hf, Hb, Hs. simpl. lia.
    + destruct (onScreenData_noParse now d s Hc) as (_ & _ & _ & Hf & _ & Hb & Hs & _).
      unfold count. rewrite Hf, Hb, Hs. simpl. lia.
  - unfold checkNoNewBoost.
    destruct (NO_NEW_BOOST_TIMEOUT <? now - lastUniqueBoostTime s)%Z;
      destruct (noNewBoostNotified s) eqn:F; simpl; rewrite ?F; simpl; lia.
  - destruct (checkNumberFailures_frame s) as (_ & Hf & _ & _ & Hs & Hb).
    rewrite Hf, Hs, Hb. lia.
Qed.

Lemma failure_step (e : event) (s : state) :
  (count is_failure_alert (snd (step e s)) + flag (numberFailureNotified s)
   <= flag (negb (noParse e)) + flag (numberFailureNotified (fst (step e s))))%nat.
Proof.
  destruct e as [now d|now|]; cbn [step noParse].
  - destruct (cyclePercentage d) as [p|] eqn:Hc.
    + destruct (newBoost s d) eqn:Hn.
      * destruct (onScreenData_new now d s Hc Hn) as (_ & _ & Hf & _ & _ & _ & _ & Ha).
        unfold count. rewrite Hf, Ha. destruct (numberFailureNotified s); simpl; lia.
      * destruct (onScreenData_repeat now d s Hc Hn) as (_ & Hf & _ & _ & _ & _ & _ & Ha).
        unfold count. rewrite Hf, Ha. destruct (numberFailureNotified s); simpl; lia.
    + destruct (onScreenData_noParse now d s Hc) as (_ & Hf & _ & _ & _ & _ & _ & Ha).
      unfold count. rewrite Hf, Ha. simpl. lia.
  - destruct (checkNoNewBoost_frame now s) as (_ & Hf & _ & _ & Ha & _).
    rewrite Hf, Ha. simpl. lia.
  - unfold checkNumberFailures.
    destruct (MAX_NUMBER_FAILURES <=? consecutiveNumberFailures s)%Z;
      destruct (numberFailureNotified s) eqn:F; simpl; rewrite ?F; simpl; lia.
Qed.

Lemma flag_le (b : bool) : (flag b <= 1)%nat.
Proof. destruct b; simpl; lia. Qed.

(** X7. A run never sends more stale-boost alerts than boost alerts plus one,
    nor more failure alerts than it has cycles with a percentage plus one:
    after a health alert the next one of its kind needs a new boost, or a
    parsed cycle, in between. *)
Theorem health_alerts_rate_limited (es : list event) :
  forall s,
    (count is_stale_alert (snd (run es s)) + flag (noNewBoostNotified s)
     <= count is_boost_alert (snd (run es s)) + 1)%nat
    /\ (count is_failure_alert (snd (run es s)) + flag (numberFailureNotified s)
        <= parsedCycles es + 1)%nat.
Proof.
  assert (G : forall s,
             (count is_stale_alert (snd (run es s)) + flag (noNewBoostNotified s)
              <= count is_boost_alert (snd (run es s))
                 + flag (noNewBoostNotified (fst (run es s))))%nat
             /\ (count is_failure_alert (snd (run es s)) + flag (numberFailureNotified s)
                 <= parsedCycles es + flag (numberFailureNotified (fst (run es s))))%nat).
  { induction es as [|e es IH]; intros s; [simpl; lia|].
    rewrite run_cons. cbn [fst snd]. rewrite !count_app.
    destruct (IH (fst (step e s))) as [I1 I2].
    pose proof (stale_step e s) as S1. pose proof (failure_step e s) as S2.
    unfold parsedCycles in *. cbn [filter].
    destruct (negb (noParse e)); cbn [List.length flag] in *; lia. }
  intros s. destruct (G s) as [G1 G2].
  pose proof (flag_le (noNewBoostNotified (fst (run es s)))).
  pose proof (flag_le (numberFailureNotified (fst (run es s)))). lia.
Qed.

Import JsString Regex JsNum Obs RegexLang TextDetection Monitor Trace BetAndDetails MonitorText.

Lemma more_patterns_well_read :
  forallb well_read
    (betPatterns ++ wasPatterns
     ++ [rx "see\s+all\s+\d+\s+selections?" "i"; rx "see\s+all\s+\d+" "i"]) = true.
Proof. vm_compute. reflexivity. Qed.

(** ** Patterns that need a digit *)

Lemma lang_needs_digit (icase : bool) (r : regex) :
  needs_digit r = true ->
  forall w, lang icase r w -> exists c, In c w /\ is_digit c = true.
Proof.
  induction r as [| |c| |neg items|r1 IH1 r2 IH2|r1 IH1 r2 IH2|mn mx g r1 IH1|i r1 IH1| | |];
    cbn [needs_digit]; try discriminate.
  - destruct neg; [discriminate|]. destruct items as [|[] [|]]; try discriminate.
    intros _ w (x & -> & Hx). rewrite digit_class in Hx. exists x. split; [left; reflexivity|exact Hx].
  - intros H w (u & v & -> & Hu & Hv). apply orb_true_iff in H. destruct H as [H|H].
    + destruct (IH1 H _ Hu) as (c & Hc & Hd). exists c. split; [apply in_or_app; auto|exact Hd].
    + destruct (IH2 H _ Hv) as (c & Hc & Hd). exists c. split; [apply in_or_app; auto|exact Hd].
  - intros H w [Hw|Hw]; apply andb_true_iff in H; destruct H as [H1 H2]; eauto.
  - intros H w (n & Hmn & _ & Hp). apply andb_true_iff in H. destruct H as [H1 H2].
    apply Nat.leb_le in H1. destruct n as [|n]; [lia|].
    destruct Hp as (u & v & -> & Hu & _).
    destruct (IH1 H2 _ Hu) as (c & Hc & Hd). exists c. split; [apply in_or_app; auto|exact Hd].
  - intros H w Hw. exact (IH1 H _ Hw).
Qed.

Section NoDigit.

Variable text : jsstring.
Hypothesis text_no_digit : no_digit text.
Variable r : regexp.
Hypothesis r_needs_digit : needs_digit (body r) = true.

Lemma no_digit_search (p : nat) :
  (p <= List.length text)%nat -> search_from r text p = None.
Proof.
  intros L. destruct (search_from r text p) as [m|] eqn:E; [|reflexivity]. exfalso.
  destruct (search_from_sound _ _ L E) as [(Ht & _ & _ & Hl & _) _].
  destruct (lang_needs_digit _ _ r_needs_digit _ Hl) as (c & Hc & Hd).
  unfold m0 in Hc. apply In_slice in Hc. rewrite Ht in Hc.
  rewrite (text_no_digit _ Hc) in Hd. discriminate.
Qed.

Lemma no_digit_first : match_first text r = None.
Proof. apply no_digit_search. lia. Qed.

Lemma no_digit_all : matchAll text r = [].
Proof.
  unfold matchAll. replace (List.length text + 2)%nat with (S (List.length text + 1)) by lia.
  cbn [all_from]. destruct (Nat.ltb (List.length text) 0); [reflexivity|].
  rewrite no_digit_search by lia. reflexivity.
Qed.

Lemma no_digit_global : match_global text r = None.
Proof. unfold match_global. rewrite no_digit_all. reflexivity. Qed.

Lemma no_digit_test : test r text = false.
Proof. unfold test. rewrite no_digit_first. reflexivity. Qed.

Lemma no_digit_replace (fn : rmatch -> jsstring) : replace_global text r fn = text.
Proof. unfold replace_global. rewrite no_digit_all. reflexivity. Qed.

End NoDigit.

Ltac no_digit_step H :=
  first
    [ rewrite (no_digit_first H) by (vm_compute; reflexivity)
    | rewrite (no_digit_global H) by (vm_compute; reflexivity)
    | rewrite (no_digit_all H) by (vm_compute; reflexivity)
    | rewrite (no_digit_test H) by (vm_compute; reflexivity)
    | rewrite (no_digit_replace H) by (vm_compute; reflexivity) ].

Lemma cleanText_no_digit (text : jsstring) : no_digit text -> cleanText text = text.
Proof.
  intros H. unfold cleanText. repeat no_digit_step H. reflexivity.
Qed.

Lemma detectOdds_no_digit (text : jsstring) : no_digit text -> detectOdds text = (None, None).
Proof.
  intros H. unfold detectOdds. rewrite (cleanText_no_digit H).
  unfold directOdds, wasNowSeparator, simpleWas, alternativeSeparator,
    alternativeSeparatorPatterns, alternativeSeparator1, wasWithOcrError, wasGeneral,
    sameLineWasNow, standaloneWas, wasNowFull, wos, individual, wasNowPatterns,
    searchPost, lastWasNow.
  cbn [andThen fold_left].
  repeat (no_digit_step H; cbn [andThen fold_left truthy negb orb]).
  reflexivity.
Qed.

(** X8. On a text without a decimal digit every detector comes back empty:
    [detectOdds] and [detectOddsComparison] return no odds, [detectBetAmount]
    and [extractWasOdds] return [null], and the "See all" check is false. *)
Theorem nothing_without_digits (text : jsstring) :
  no_digit text ->
  detectOdds text = (None, None)
  /\ detectOddsComparison text
     = {| originalOdds := None; boostedOdds := None; TextDetection.detectedText := Some text |}
  /\ detectBetAmount text = None
  /\ extractWasOdds (Some text) = None
  /\ hasSeeAll (detectSeeAllText (Some text)) = false.
Proof.
  intros H. split; [apply detectOdds_no_digit; exact H|]. split.
  { unfold detectOddsComparison, oddsPatterns. cbn [firstPattern].
    repeat no_digit_step H. reflexivity. }
  split.
  { unfold detectBetAmount, betPatterns. cbn [firstAmount]. unfold match01.
    cbn [global rx]. change (has_flag "g" "i") with false. change (has_flag "g" "g") with true.
    cbn iota. repeat no_digit_step H. reflexivity. }
  split.
  { unfold extractWasOdds, wasPatterns. cbn [firstPattern].
    repeat no_digit_step H. destruct (truthy (Some text)); reflexivity. }
  unfold detectSeeAllText. cbn [hasSeeAll]. repeat no_digit_step H. reflexivity.
Qed.

(** ** The "See all" check *)

Lemma test_extends (r1 r2 : regexp) (text : jsstring) :
  extends r1 r2 -> test r2 text = true -> test r1 text = true.
Proof.
  intros E. unfold test. destruct (match_first text r1) eqn:E1; [reflexivity|].
  rewrite (@extends_first _ _ _ E E1). discriminate.
Qed.

Lemma space_class (icase : bool) (x : char) :
  class_match icase false [CSpace] x = is_space x.
Proof.
  unfold class_match. cbn [existsb in_item xorb]. rewrite orb_false_r.
  destruct icase; cbn [andb]; [|apply orb_false_r].
  destruct (is_space x) eqn:D; [reflexivity|]. cbn [orb].
  unfold upper, lower.
  destruct (is_lower x) eqn:L; destruct (is_upper x) eqn:U; rewrite ?D; try reflexivity.
  - exfalso. unfold is_lower, is_upper, between in *.
    apply andb_true_iff in L. destruct L as [L1 L2]. apply N.leb_le in L1, L2.
    apply andb_true_iff in U. destruct U as [U1 U2]. apply N.leb_le in U1, U2. lia.
  - rewrite orb_false_r. unfold is_lower, between in L.
    apply andb_true_iff in L. destruct L as [L1 L2]. apply N.leb_le in L1, L2.
    unfold is_space, between.
    rewrite (proj2 (N.leb_gt 8192 (x - 32))) by lia.
    rewrite (proj2 (N.leb_gt (x - 32) 13)) by lia. rewrite andb_false_r.
    repeat match goal with
           | |- context [(x - 32 =? ?n)%N] => rewrite (proj2 (N.eqb_neq (x - 32) n)) by lia
           end.
    reflexivity.
  - cbn [orb]. unfold is_upper, between in U.
    apply andb_true_iff in U. destruct U as [U1 U2]. apply N.leb_le in U1, U2.
    unfold is_space, between.
    rewrite (proj2 (N.leb_gt 8192 (x + 32))) by lia.
    rewrite (proj2 (N.leb_gt (x + 32) 13)) by lia. rewrite andb_false_r.
    repeat match goal with
           | |- context [(x + 32 =? ?n)%N] => rewrite (proj2 (N.eqb_neq (x + 32) n)) by lia
           end.
    reflexivity.
Qed.

Lemma class_pieces (icase neg : bool) (items : list citem) (P : char -> Prop) :
  (forall x, class_match icase neg items x = true -> P x) ->
  forall n w, pieces (lang icase (RClass neg items)) n w ->
              List.length w = n /\ Forall P w.
Proof.
  intros HP. induction n as [|n IH]; intros w; cbn [pieces].
  - intros ->. split; [reflexivity|constructor].
  - intros (u & v & -> & (x & -> & Hx) & Hv). destruct (IH _ Hv) as [L D].
    split; [simpl; lia|]. constructor; auto.
Qed.

Lemma space_run (icase : bool) (mn : nat) (mx : option nat) (g : bool) (w : jsstring) :
  lang icase (RRep mn mx g (RClass false [CSpace])) w ->
  Forall (fun c => is_space c = true) w /\ (mn <= List.length w)%nat.
Proof.
  intros (n & Hmn & _ & Hp).
  destruct (@class_pieces icase false [CSpace] (fun c => is_space c = true)
              (fun x Hx => eq_trans (eq_sym (space_class icase x)) Hx) n w Hp) as [L D].
  subst n. auto.
Qed.

Lemma letter_match (icase : bool) (c x : char) :
  is_lower c = true -> char_match icase c x = true -> lower x = c.
Proof.
  intros Lc. unfold char_match.
  assert (Uc : is_upper c = false).
  { unfold is_lower, is_upper, between in *.
    apply andb_true_iff in Lc. destruct Lc as [L1 L2]. apply N.leb_le in L1, L2.
    apply andb_false_iff. right. apply N.leb_gt. lia. }
  destruct icase; intros H; apply N.eqb_eq in H.
  - unfold upper in H. rewrite Lc in H. unfold lower.
    unfold is_lower, is_upper, between in *.
    apply andb_true_iff in Lc. destruct Lc as [L1 L2]. apply N.leb_le in L1, L2.
    destruct ((97 <=? x)%N && (x <=? 122)%N) eqn:Lx.
    + apply andb_true_iff in Lx. destruct Lx as [X1 X2]. apply N.leb_le in X1, X2.
      rewrite (proj2 (N.leb_gt x 90)) by lia. rewrite andb_false_r. lia.
    + destruct ((65 <=? x)%N && (x <=? 90)%N) eqn:Ux; [lia|].
      exfalso. apply andb_false_iff in Ux.
      destruct Ux as [Ux|Ux]; apply N.leb_gt in Ux; lia.
  - subst x. unfold lower. rewrite Uc. reflexivity.
Qed.

(** X9. The "See all" flag is decided by the second pattern alone: the text
    holds [see], [all] and a number, separated by white space, in any case;
    the first pattern, with [selection(s)] after the number, matches only
    where the second does.  When OCR fails the flag is false and the text
    empty. *)
Theorem seeAll_by_second_pattern :
  (forall text,
      hasSeeAll (detectSeeAllText (Some text)) = test (rx "see\s+all\s+\d+" "i") text
      /\ BetAndDetails.detectedText (detectSeeAllText (Some text)) = text)
  /\ (forall text,
         hasSeeAll (detectSeeAllText (Some text)) = true ->
         exists before s1 s2 number after x y,
           text = before ++ x ++ s1 ++ y ++ s2 ++ number ++ after
           /\ toLowerCase x = str "see" /\ toLowerCase y = str "all"
           /\ s1 <> [] /\ Forall (fun c => is_space c = true) s1
           /\ s2 <> [] /\ Forall (fun c => is_space c = true) s2
           /\ number <> [] /\ all_digits number)
  /\ detectSeeAllText None = {| hasSeeAll := false; BetAndDetails.detectedText := [] |}.
Proof.
  assert (First : forall text,
             hasSeeAll (detectSeeAllText (Some text)) = test (rx "see\s+all\s+\d+" "i") text).
  { intros text. cbn [detectSeeAllText hasSeeAll].
    destruct (test (rx "see\s+all\s+\d+\s+selections?" "i") text) eqn:T; [|reflexivity].
    symmetry. cbn [orb]. revert T. apply test_extends. show_extends. }
  split; [intros text; split; [apply First|reflexivity]|].
  split; [|reflexivity].
  intros text H. rewrite First in H. unfold test in H.
  destruct (match_first text (rx "see\s+all\s+\d+" "i")) as [m|] eqn:M; [|discriminate].
  apply match_first_sound in M. destruct M as (Ht & Hs & He & Hl & _).
  assert (Split : text = firstn (m_start m) text ++ m0 m ++ skipn (m_end m) text).
  { unfold m0, slice. rewrite Ht.
    rewrite <- (firstn_skipn (m_start m) text) at 1. f_equal.
    rewrite <- (firstn_skipn (m_end m - m_start m) (skipn (m_start m) text)) at 1.
    f_equal. rewrite skipn_skipn. f_equal. lia. }
  vm_compute body in Hl. vm_compute ignoreCase in Hl.
  apply lang_seq in Hl. destruct Hl as (c1 & w1 & E1 & C1 & Hl).
  apply lang_seq in Hl. destruct Hl as (c2 & w2 & E2 & C2 & Hl).
  apply lang_seq in Hl. destruct Hl as (c3 & w3 & E3 & C3 & Hl).
  apply lang_seq in Hl. destruct Hl as (s1 & w4 & E4 & S1 & Hl).
  apply lang_seq in Hl. destruct Hl as (c4 & w5 & E5 & C4 & Hl).
  apply lang_seq in Hl. destruct Hl as (c5 & w6 & E6 & C5 & Hl).
  apply lang_seq in Hl. destruct Hl as (c6 & w7 & E7 & C6 & Hl).
  apply lang_seq in Hl. destruct Hl as (s2 & number & E8 & S2 & Hd).
  apply lang_char in C1, C2, C3, C4, C5, C6.
  destruct C1 as (x1 & -> & X1). destruct C2 as (x2 & -> & X2).
  destruct C3 as (x3 & -> & X3). destruct C4 as (x4 & -> & X4).
  destruct C5 as (x5 & -> & X5). destruct C6 as (x6 & -> & X6).
  apply letter_match in X1, X2, X3, X4, X5, X6; try reflexivity.
  apply space_run in S1, S2. destruct S1 as [S1 L1]. destruct S2 as [S2 L2].
  apply digit_run in Hd. destruct Hd as (Hd & L3 & _).
  exists (firstn (m_start m) text), s1, s2, number, (skipn (m_end m) text),
    [x1; x2; x3], [x4; x5; x6].
  split.
  { rewrite Split at 1. f_equal. rewrite E1, E2, E3, E4, E5, E6, E7, E8.
    cbn [app]. rewrite <- !app_assoc. cbn [app]. rewrite <- !app_assoc. reflexivity. }
  split; [cbn [toLowerCase map]; rewrite X1, X2, X3; reflexivity|].
  split; [cbn [toLowerCase map]; rewrite X4, X5, X6; reflexivity|].
  split; [intros ->; simpl in L1; lia|]. split; [exact S1|].
  split; [intros ->; simpl in L2; lia|]. split; [exact S2|].
  split; [intros ->; simpl in L3; lia|exact Hd].
Qed.

(** ** The bet amount *)

Lemma dot_match (icase : bool) (x : char) : char_match icase 46%N x = true -> x = 46%N.
Proof.
  unfold char_match. destruct icase; intros H; apply N.eqb_eq in H; [|auto].
  change (upper 46%N) with 46%N in H.
  pose proof (@upper_fixes x 46%N eq_refl eq_refl) as U. rewrite <- H in U.
  rewrite N.eqb_refl in U. symmetry in U. apply N.eqb_eq in U. auto.
Qed.

Lemma dollar_match (icase : bool) (x : char) : char_match icase 36%N x = true -> x = 36%N.
Proof.
  unfold char_match. destruct icase; intros H; apply N.eqb_eq in H; [|auto].
  change (upper 36%N) with 36%N in H.
  pose proof (@upper_fixes x 36%N eq_refl eq_refl) as U. rewrite <- H in U.
  rewrite N.eqb_refl in U. symmetry in U. apply N.eqb_eq in U. auto.
Qed.

Lemma amount_lang (icase : bool) (w : jsstring) : lang icase amount_body w -> is_amount w.
Proof.
  unfold amount_body. intros H. apply lang_seq in H. destruct H as (ds & f & -> & Hd & Hf).
  apply digit_run in Hd. destruct Hd as (D & L & _).
  exists ds. split; [intros ->; simpl in L; lia|]. split; [exact D|].
  apply optional in Hf. destruct Hf as [->|Hf]; [left; apply app_nil_r|].
  right. apply lang_seq in Hf. destruct Hf as (dot & cc & -> & Hdot & Hcc).
  apply lang_char in Hdot. destruct Hdot as (x & -> & Hx). apply dot_match in Hx. subst x.
  apply digit_run in Hcc. destruct Hcc as (D2 & L2 & U2). cbn [within] in U2.
  destruct cc as [|c1 [|c2 [|c3 cc]]]; simpl in L2, U2; try lia.
  inversion D2 as [|? ? H1 D2']; subst. inversion D2' as [|? ? H2 _]; subst.
  exists c1, c2. auto.
Qed.

Lemma amount_nonempty (w : jsstring) : is_amount w -> w <> [].
Proof.
  intros (ds & Hne & _ & [->|(c1 & c2 & _ & _ & ->)]); [exact Hne|].
  destruct ds; discriminate.
Qed.

(** The first group of a pattern whose group 1 is an amount. *)
Lemma first_group_amount (pattern : regexp) (text : jsstring) (m : rmatch) :
  binds 1 (body pattern) = true ->
  group_bodies 1 (body pattern) = [amount_body] ->
  match_first text pattern = Some m ->
  exists a, group m 1 = Some a /\ is_amount a.
Proof.
  intros B G M. apply match_first_sound in M. destruct M as (_ & _ & _ & _ & Hg).
  destruct (Hg _ B) as (b & Hb & Hl). rewrite G in Hb. destruct Hb as [<-|[]].
  apply amount_lang in Hl. unfold group. unfold grp in Hl.
  destruct (cap_lookup 1 (m_caps m)) as [[s e]|].
  - eexists. split; [reflexivity|exact Hl].
  - exfalso. exact (amount_nonempty Hl eq_refl).
Qed.

Lemma dollar_amounts (text : jsstring) (l : list jsstring) :
  match_global text (rx "\$(\d+(?:\.\d{2})?)" "g") = Some l ->
  Forall (fun w => exists a, w = 36%N :: a /\ is_amount a) l.
Proof.
  unfold match_global.
  pose proof (@matchAll_sound (rx "\$(\d+(?:\.\d{2})?)" "g") text) as S.
  destruct (matchAll text (rx "\$(\d+(?:\.\d{2})?)" "g")) as [|m0' ms]; [discriminate|].
  intros H. injection H as <-. apply Forall_forall. intros w Hw.
  change (m0 m0' :: map m0 ms) with (map m0 (m0' :: ms)) in Hw.
  apply in_map_iff in Hw. destruct Hw as (m & <- & Hm).
  destruct (S m Hm) as (_ & _ & _ & Hl & _).
  vm_compute body in Hl. apply lang_seq in Hl. destruct Hl as (d & a & -> & Hd & Ha).
  apply lang_char in Hd. destruct Hd as (x & -> & Hx). apply dollar_match in Hx. subst x.
  exists a. split; [reflexivity|]. apply amount_lang with (icase := false). exact Ha.
Qed.

(** X10. A bet amount found by one of the three worded patterns is the
    number alone, digits with an optional two-digit fraction; one found by
    the bare dollar pattern keeps its dollar sign, and is the second dollar
    amount of the text when there are two. *)
Theorem betAmount_shape (text : jsstring) :
  match detectBetAmount text with
  | Some amount =>
    is_amount amount
    \/ (exists a, amount = 36%N :: a /\ is_amount a)
       /\ Forall (fun p => match_first text p = None) (firstn 3 betPatterns)
       /\ exists first others,
            match_global text (rx "\$(\d+(?:\.\d{2})?)" "g") = Some (first :: others)
            /\ amount = match others with second :: _ => second | [] => first end
  | None =>
    Forall (fun p => match_first text p = None) (firstn 3 betPatterns)
    /\ match_global text (rx "\$(\d+(?:\.\d{2})?)" "g") = None
  end.
Proof.
  unfold detectBetAmount, betPatterns. cbn [firstAmount firstn]. unfold match01.
  cbn [global rx]. change (has_flag "g" "i") with false. change (has_flag "g" "g") with true.
  cbn iota.
  destruct (match_first text (rx "bet[:\s]*\$?(\d+(?:\.\d{2})?)" "i")) as [m1|] eqn:M1.
  { pose proof (fun B G => @first_group_amount _ text m1 B G M1) as F.
    destruct (F eq_refl eq_refl) as (a & -> & Ha).
    left. destruct a; [exfalso; exact (amount_nonempty Ha eq_refl)|exact Ha]. }
  destruct (match_first text (rx "\$(\d+(?:\.\d{2})?)\s*bet" "i")) as [m2|] eqn:M2.
  { pose proof (fun B G => @first_group_amount _ text m2 B G M2) as F.
    destruct (F eq_refl eq_refl) as (a & -> & Ha).
    left. destruct a; [exfalso; exact (amount_nonempty Ha eq_refl)|exact Ha]. }
  destruct (match_first text (rx "stake[:\s]*\$?(\d+(?:\.\d{2})?)" "i")) as [m3|] eqn:M3.
  { pose proof (fun B G => @first_group_amount _ text m3 B G M3) as F.
    destruct (F eq_refl eq_refl) as (a & -> & Ha).
    left. destruct a; [exfalso; exact (amount_nonempty Ha eq_refl)|exact Ha]. }
  assert (N3 : Forall (fun p => match_first text p = None)
                      [rx "bet[:\s]*\$?(\d+(?:\.\d{2})?)" "i";
                       rx "\$(\d+(?:\.\d{2})?)\s*bet" "i";
                       rx "stake[:\s]*\$?(\d+(?:\.\d{2})?)" "i"])
    by (repeat constructor; assumption).
  destruct (match_global text (rx "\$(\d+(?:\.\d{2})?)" "g")) as [[|first others]|] eqn:G;
    [exfalso| |split; [exact N3|reflexivity]].
  { unfold match_global in G. destruct (matchAll text _); discriminate. }
  right. pose proof (dollar_amounts _ G) as D.
  inversion D as [|? ? (a1 & E1 & A1) D']; subst.
  split; [|split; [exact N3|]].
  - destruct others as [|second others]; cbn [hd_error truthy].
    + exists a1. auto.
    + inversion D' as [|? ? (a2 & E2 & A2) _]; subst. exists a2. auto.
  - exists (36%N :: a1), others. split; [reflexivity|].
    destruct others as [|second others]; cbn [hd_error truthy]; [reflexivity|].
    inversion D' as [|? ? (a2 & E2 & A2) _]; subst. reflexivity.
Qed.

(** ** The Was-odds extraction *)

Lemma wasPatterns_groups : Forall was_groups wasPatterns.
Proof.
  unfold wasPatterns. repeat (apply Forall_cons; [split; vm_compute; reflexivity|]).
  apply Forall_nil.
Qed.

(** X11. [extractWasOdds] returns a plus sign followed by two to five digits
    that stand in the given text, and [null] for [null] or the empty
    string. *)
Theorem extractWasOdds_shape :
  (forall text result,
      extractWasOdds (Some text) = Some result ->
      exists ds before after,
        result = 43%N :: ds /\ all_digits ds
        /\ (2 <= List.length ds <= 5)%nat
        /\ text = before ++ ds ++ after)
  /\ extractWasOdds None = None
  /\ extractWasOdds (Some []) = None.
Proof.
  split; [|split; reflexivity].
  intros text result. unfold extractWasOdds.
  destruct (truthy (Some text)); [|discriminate].
  destruct (firstPattern text wasPatterns) as [m|] eqn:F; [|discriminate].
  intros H. injection H as <-.
  destruct (firstPattern_In _ _ F) as (p & Hin & Hm).
  pose proof wasPatterns_groups as G. rewrite Forall_forall in G.
  destruct (G p Hin) as [B Gb]. apply match_first_sound in Hm.
  destruct Hm as (Ht & _ & _ & _ & Hg).
  destruct (Hg _ B) as (b & Hb & Hl). rewrite Gb in Hb. destruct Hb as [<-|[]].
  apply digit_run in Hl. destruct Hl as (D & L & U). cbn [within] in U.
  unfold grp in *. destruct (cap_lookup 1 (m_caps m)) as [[s e]|]; [|simpl in L; lia].
  exists (slice (m_text m) s e), (firstn s text), (skipn (e - s) (skipn s text)).
  split; [reflexivity|]. split; [exact D|]. split; [split; [exact L|exact U]|].
  rewrite Ht. unfold slice. rewrite !firstn_skipn. reflexivity.
Qed.

Import JsString Regex JsNum Obs RegexLang TextDetection Monitor Trace JsShow Uptime.

(** ** Rendering and reading integers *)

Lemma digits_of_acc (fuel : nat) :
  forall n acc, digits_of fuel n acc = digits_of fuel n [] ++ acc.
Proof.
  induction fuel as [|f IH]; intros n acc; cbn [digits_of]; [reflexivity|].
  destruct (n <? 10)%Z; [reflexivity|].
  rewrite IH, (IH _ [_]). rewrite <- app_assoc. reflexivity.
Qed.

Lemma digit_char (d : Z) :
  (0 <= d < 10)%Z ->
  is_digit (Z.to_N (48 + d)) = true /\ digit_val (Z.to_N (48 + d)) = d.
Proof.
  intros H. unfold is_digit, between, digit_val. split.
  - apply andb_true_iff. split; apply N.leb_le; lia.
  - lia.
Qed.

Lemma dec_run_app (l1 l2 : jsstring) :
  all_digits l1 -> forall acc, dec_run (l1 ++ l2) acc = dec_run l2 (dec_run l1 acc).
Proof.
  intros D. induction D as [|d t Hd D IH]; intros acc; [reflexivity|].
  cbn [app dec_run]. rewrite Hd. apply IH.
Qed.

Lemma dec_run_digits (l : jsstring) :
  all_digits l -> forall acc, dec_run l acc = (acc * 10 ^ Z.of_nat (List.length l) + dec_run l 0)%Z.
Proof.
  intros D. induction D as [|d t Hd D IH]; intros acc.
  - simpl. lia.
  - cbn [dec_run List.length]. rewrite Hd. rewrite IH, (IH (0 * 10 + digit_val d)%Z).
    rewrite Nat2Z.inj_succ, Z.pow_succ_r by lia. ring.
Qed.

Lemma digits_of_spec (f : nat) :
  forall n,
    (0 <= n < 2 ^ Z.of_nat (S f))%Z ->
    all_digits (digits_of (S f) n []) /\ digits_of (S f) n [] <> []
    /\ dec_run (digits_of (S f) n []) 0 = n.
Proof.
  induction f as [|f IH]; intros n Hn.
  - assert (Hm : (0 <= n mod 10 < 10)%Z) by (apply Z.mod_pos_bound; lia).
    destruct (digit_char Hm) as [Hd Hv].
    change (2 ^ Z.of_nat 1)%Z with 2%Z in Hn.
    cbn [digits_of]. rewrite (proj2 (Z.ltb_lt n 10)) by lia.
    split; [repeat constructor; exact Hd|]. split; [discriminate|].
    cbn [dec_run]. rewrite Hd, Hv. rewrite Z.mod_small by lia. lia.
  - remember (S f) as g. cbn [digits_of].
    assert (Hm : (0 <= n mod 10 < 10)%Z) by (apply Z.mod_pos_bound; lia).
    destruct (digit_char Hm) as [Hd Hv].
    destruct (Z.ltb_spec n 10) as [L|L].
    + split; [repeat constructor; exact Hd|]. split; [discriminate|].
      cbn [dec_run]. rewrite Hd, Hv. rewrite Z.mod_small by lia. lia.
    + rewrite digits_of_acc.
      assert (Hq : (0 <= n / 10 < 2 ^ Z.of_nat g)%Z).
      { split; [apply Z.div_pos; lia|].
        rewrite Nat2Z.inj_succ, Z.pow_succ_r in Hn by lia.
        apply Z.div_lt_upper_bound; lia. }
      subst g. destruct (IH _ Hq) as (D & Ne & V).
      split; [apply Forall_app; split; [exact D|repeat constructor; exact Hd]|].
      split; [destruct (digits_of (S f) (n / 10) []); [congruence|discriminate]|].
      rewrite dec_run_app by exact D. rewrite V. cbn [dec_run]. rewrite Hd, Hv.
      pose proof (Z.div_mod n 10). lia.
Qed.

Lemma enough_fuel (n : Z) : (0 <= n)%Z -> (0 <= n < 2 ^ Z.of_nat (S (Z.to_nat (Z.log2 n))))%Z.
Proof.
  intros H. split; [exact H|].
  rewrite Nat2Z.inj_succ, Z2Nat.id by apply Z.log2_nonneg.
  destruct (Z.eq_dec n 0) as [->|N]; [reflexivity|].
  apply Z.log2_spec. lia.
Qed.

(** The rendering of a number that is not negative: digits that read back
    as the number. *)
Lemma show_nonneg (n : Z) :
  (0 <= n)%Z ->
  all_digits (Z_toString n) /\ Z_toString n <> [] /\ dec_run (Z_toString n) 0 = n.
Proof.
  intros H. unfold Z_toString. rewrite (proj2 (Z.ltb_ge n 0)) by exact H.
  apply digits_of_spec, enough_fuel, H.
Qed.

Lemma parse_magnitude_digits (ds rest : jsstring) :
  ds <> [] -> all_digits ds ->
  match rest with c :: _ => is_digit c = false /\ c <> 120%N /\ c <> 88%N | [] => True end ->
  parse_magnitude (ds ++ rest) = Some (dec_run ds 0).
Proof.
  intros Ne D Hr. destruct ds as [|d t]; [congruence|].
  assert (Hd : is_digit d = true) by (inversion D; assumption).
  assert (Dt : all_digits t) by (inversion D; assumption).
  assert (V : dec_run ((d :: t) ++ rest) 0 = dec_run (d :: t) 0).
  { rewrite dec_run_app by exact D. destruct rest as [|c r]; [reflexivity|].
    cbn [dec_run]. destruct Hr as (Hc & _). rewrite Hc. reflexivity. }
  unfold parse_magnitude. cbn [app]. fold (app t rest).
  change (d :: t ++ rest) with ((d :: t) ++ rest). rewrite V, Hd.
  destruct (t ++ rest) as [|x u] eqn:E; [reflexivity|].
  assert (Hx : ((x =? 120) || (x =? 88))%N = false).
  { destruct t as [|y t']; simpl in E.
    - subst rest. destruct Hr as (_ & H1 & H2).
      apply orb_false_iff. split; apply N.eqb_neq; assumption.
    - injection E as -> _. assert (Hy : is_digit x = true) by (inversion Dt; assumption).
      unfold is_digit, between in Hy. apply andb_true_iff in Hy. destruct Hy as [A B].
      apply N.leb_le in A. apply N.leb_le in B.
      apply orb_false_iff. split; apply N.eqb_neq; lia. }
  rewrite Hx, andb_false_r. reflexivity.
Qed.

(** The round trip: [parseInt] reads a rendered integer back, also when
    text that starts with no digit and no [x] follows. *)
Lemma parseInt_Z_toString (z : Z) (rest : jsstring) :
  match rest with c :: _ => is_digit c = false /\ c <> 120%N /\ c <> 88%N | [] => True end ->
  parseInt (Z_toString z ++ rest) = Some z.
Proof.
  intros Hr. destruct (Z.ltb_spec z 0) as [L|L].
  - unfold Z_toString. rewrite (proj2 (Z.ltb_lt z 0)) by exact L.
    assert (Hn : (0 <= - z)%Z) by lia.
    destruct (@digits_of_spec _ (- z) (enough_fuel Hn)) as (D & Ne & V).
    unfold parseInt. cbn [app skip_ws]. change (is_space 45%N) with false. cbn iota.
    change ((45 =? 45)%N) with true. cbn iota.
    rewrite (parse_magnitude_digits _ Ne D Hr), V. cbn. f_equal. lia.
  - destruct (show_nonneg L) as (D & Ne & V).
    destruct (Z_toString z) as [|d t] eqn:E; [congruence|].
    assert (Hd : is_digit d = true) by (inversion D; assumption).
    unfold parseInt. cbn [app skip_ws]. rewrite (digit_not_space _ Hd).
    destruct (digit_not_sign _ Hd) as [-> ->].
    change (d :: t ++ rest) with ((d :: t) ++ rest).
    rewrite (parse_magnitude_digits _ Ne D Hr), V. reflexivity.
Qed.

(** ** The uptime *)

(** X12. With the start not after the clock reading, the uptime reads
    [<h>h <m>m] where [h] and [m] are the whole hours and the minutes past
    the hour of the elapsed time, [m] below 60; [parseInt] reads the hours
    back from the text; the method of the bot and the function of index.ts
    render the same elapsed time alike. *)
Theorem uptime_hours_minutes (now startTime : Z) :
  (startTime <= now)%Z ->
  let h := ((now - startTime) / 3600000)%Z in
  let m := (((now - startTime) / 60000) mod 60)%Z in
  formatUptime now startTime = Z_toString h ++ str "h " ++ Z_toString m ++ str "m"
  /\ (0 <= h)%Z /\ (0 <= m < 60)%Z
  /\ ((60 * h + m) * 60000 <= now - startTime < (60 * h + m + 1) * 60000)%Z
  /\ parseInt (formatUptime now startTime) = Some h
  /\ formatUptimeMs (now - startTime) = formatUptime now startTime.
Proof.
  intros Hle h m.
  assert (Hm : (Z.rem (now - startTime) (1000 * 60 * 60) / (1000 * 60))%Z = m).
  { unfold m. rewrite Z.rem_mod_nonneg by lia.
    change (1000 * 60 * 60)%Z with 3600000%Z. change (1000 * 60)%Z with 60000%Z.
    Z.to_euclidean_division_equations. lia. }
  assert (E : formatUptime now startTime
              = Z_toString h ++ str "h " ++ Z_toString m ++ str "m").
  { unfold formatUptime. cbv zeta. rewrite Hm. reflexivity. }
  split; [exact E|].
  split; [unfold h; apply Z.div_pos; lia|].
  split; [unfold m; apply Z.mod_pos_bound; lia|].
  split; [unfold h, m; Z.to_euclidean_division_equations; lia|].
  split; [|reflexivity].
  rewrite E. apply parseInt_Z_toString. cbn. repeat split; discriminate.
Qed.

Import JsString ImageCleanup.

(** ** Cleaning the image directories *)

Lemma eqb_refl (a : jsstring) : JsString.eqb a a = true.
Proof. apply eqb_spec. reflexivity. Qed.

Lemma eqb_neq (a b : jsstring) : a <> b -> JsString.eqb a b = false.
Proof.
  intros H. destruct (JsString.eqb a b) eqn:E; [|reflexivity].
  apply eqb_spec in E. congruence.
Qed.

Lemma readdir_update (d : fileSystem) (dir dir' : jsstring) (f : list file -> list file) :
  readdirSync (update d dir f) dir'
  = if JsString.eqb dir dir' then option_map f (readdirSync d dir') else readdirSync d dir'.
Proof.
  induction d as [|[n files] rest IH]; cbn [update readdirSync].
  - destruct (JsString.eqb dir dir'); reflexivity.
  - destruct (JsString.eqb n dir) eqn:E1.
    + apply eqb_spec in E1. subst n. cbn [readdirSync].
      destruct (JsString.eqb dir dir'); reflexivity.
    + cbn [readdirSync]. destruct (JsString.eqb n dir') eqn:E2.
      * apply eqb_spec in E2. subst n.
        destruct (JsString.eqb dir dir') eqn:E3; [|reflexivity].
        apply eqb_spec in E3. subst dir'. rewrite eqb_refl in E1. discriminate.
      * exact IH.
Qed.

(** Unlinking a list of names drops the entries so named. *)
Lemma unlink_all (dir : jsstring) (names : list jsstring) :
  forall d dir',
    readdirSync (fold_left (fun d file => unlinkSync dir file d) names d) dir'
    = if JsString.eqb dir dir'
      then option_map (filter (fun f => negb (existsb (JsString.eqb (name f)) names)))
                      (readdirSync d dir')
      else readdirSync d dir'.
Proof.
  induction names as [|n names IH]; intros d dir'; cbn [fold_left].
  - destruct (JsString.eqb dir dir'); [|reflexivity].
    destruct (readdirSync d dir') as [files|]; [|reflexivity]. cbn.
    f_equal. symmetry. apply forallb_filter_id. apply forallb_forall. reflexivity.
  - rewrite IH. unfold unlinkSync at 1 2. rewrite readdir_update.
    destruct (JsString.eqb dir dir'); [|reflexivity].
    destruct (readdirSync d dir') as [files|]; [|reflexivity]. cbn [option_map].
    f_equal. induction files as [|f files IHf]; [reflexivity|].
    cbn [filter existsb]. destruct (JsString.eqb (name f) n); cbn [negb orb].
    + exact IHf.
    + cbn [filter]. destruct (existsb (JsString.eqb (name f)) names); cbn [negb];
        rewrite IHf; reflexivity.
Qed.

Lemma named_image (files : list file) (f : file) :
  In f files ->
  existsb (JsString.eqb (name f)) (filter isImage (map name files)) = isImage (name f).
Proof.
  intros Hin. destruct (isImage (name f)) eqn:I.
  - apply existsb_exists. exists (name f). split; [|apply eqb_refl].
    apply filter_In. split; [apply in_map; exact Hin|exact I].
  - destruct (existsb _ _) eqn:E; [|reflexivity].
    apply existsb_exists in E. destruct E as (n & Hn & En).
    apply eqb_spec in En. subst n. apply filter_In in Hn. destruct Hn as [_ Hn]. congruence.
Qed.

Lemma no_image_names (files : list file) :
  filter isImage (map name files) = [] ->
  filter (fun f => negb (isImage (name f))) files = files.
Proof.
  intros H. apply forallb_filter_id. apply forallb_forall. intros f Hf.
  destruct (isImage (name f)) eqn:I; [|reflexivity].
  assert (Hin : In (name f) (filter isImage (map name files)))
    by (apply filter_In; split; [apply in_map; exact Hf|exact I]).
  rewrite H in Hin. destruct Hin.
Qed.

(** What [cleanupDirectory] leaves in each directory. *)
Lemma cleanupDirectory_readdir (dirName : jsstring) (d : fileSystem) (dir' : jsstring) :
  readdirSync (cleanupDirectory dirName d) dir'
  = if JsString.eqb dirName dir'
    then option_map (filter (fun f => negb (isImage (name f)))) (readdirSync d dir')
    else readdirSync d dir'.
Proof.
  unfold cleanupDirectory, existsSync.
  destruct (readdirSync d dirName) as [files|] eqn:R.
  - destruct (Nat.ltb 0 (List.length (filter isImage (map name files)))) eqn:L.
    + rewrite unlink_all. destruct (JsString.eqb dirName dir') eqn:E; [|reflexivity].
      apply eqb_spec in E. subst dir'. rewrite R. cbn [option_map]. f_equal.
      apply filter_ext_in. intros f Hf. rewrite (named_image _ _ Hf). reflexivity.
    + destruct (JsString.eqb dirName dir') eqn:E; [|reflexivity].
      apply eqb_spec in E. subst dir'. rewrite R. cbn [option_map]. f_equal.
      symmetry. apply no_image_names. apply Nat.ltb_ge in L.
      destruct (filter isImage (map name files)); [reflexivity|simpl in L; lia].
  - destruct (JsString.eqb dirName dir') eqn:E; [|reflexivity].
    apply eqb_spec in E. subst dir'. rewrite R. reflexivity.
Qed.

Lemma filter_filter_neg {A : Type} (p : A -> bool) (l : list A) :
  filter p (filter (fun x => negb (p x)) l) = [].
Proof.
  induction l as [|x l IH]; [reflexivity|]. cbn [filter].
  destruct (p x) eqn:P; cbn [negb]; [exact IH|]. cbn [filter]. rewrite P. exact IH.
Qed.

Lemma filter_idem {A : Type} (p : A -> bool) (l : list A) :
  filter p (filter p l) = filter p l.
Proof.
  induction l as [|x l IH]; [reflexivity|]. cbn [filter].
  destruct (p x) eqn:P; [cbn [filter]; rewrite P, IH; reflexivity|exact IH].
Qed.

(** X13. [cleanupDirectory] removes every image of the named directory, the
    names ending in [.png], [.jpg] or [.jpeg] in any case, and nothing else:
    the other entries stay in their order, the other directories are as
    before, a directory that does not exist is not created, and a second
    call changes nothing. *)
Theorem cleanupDirectory_removes_images (dirName : jsstring) (d : fileSystem) :
  images (cleanupDirectory dirName d) dirName = []
  /\ others (cleanupDirectory dirName d) dirName = others d dirName
  /\ existsSync (cleanupDirectory dirName d) dirName = existsSync d dirName
  /\ (forall dir, dir <> dirName ->
                  readdirSync (cleanupDirectory dirName d) dir = readdirSync d dir)
  /\ cleanupDirectory dirName (cleanupDirectory dirName d) = cleanupDirectory dirName d.
Proof.
  pose proof (cleanupDirectory_readdir dirName d dirName) as R. rewrite eqb_refl in R.
  split; [|split; [|split; [|split]]].
  - unfold images. rewrite R. destruct (readdirSync d dirName); [|reflexivity].
    apply (filter_filter_neg (fun f => isImage (name f))).
  - unfold others. rewrite R. destruct (readdirSync d dirName); [|reflexivity].
    apply (filter_idem (fun f => negb (isImage (name f)))).
  - unfold existsSync. rewrite R. destruct (readdirSync d dirName); reflexivity.
  - intros dir Hd. rewrite cleanupDirectory_readdir. rewrite eqb_neq by congruence. reflexivity.
  - unfold cleanupDirectory at 1. unfold existsSync. rewrite R.
    destruct (readdirSync d dirName) as [files|]; [|reflexivity]. cbn [option_map].
    replace (filter isImage (map name (filter (fun f => negb (isImage (name f))) files)))
      with (@nil jsstring); [reflexivity|].
    symmetry. clear R. induction files as [|f files IH]; [reflexivity|]. cbn [filter].
    destruct (isImage (name f)) eqn:I; cbn [negb]; [exact IH|].
    cbn [map filter]. rewrite I. exact IH.
Qed.

Lemma cleanupOldImages_unfold (d : fileSystem) :
  cleanupOldImages d
  = cleanupDirectory (str "evidence")
      (cleanupDirectory (str "debug") (cleanupDirectory (str "alerts") d)).
Proof. reflexivity. Qed.

(** X14. [cleanupOldImages] is [cleanupDirectory] on [alerts], [debug] and
    [evidence] in turn: afterwards none of the three holds an image, their
    other entries are as before, and every other directory is untouched. *)
Theorem cleanupOldImages_clears_all (d : fileSystem) (dir : jsstring) :
  (In dir IMAGE_DIRECTORIES ->
   images (cleanupOldImages d) dir = []
   /\ others (cleanupOldImages d) dir = others d dir
   /\ existsSync (cleanupOldImages d) dir = existsSync d dir)
  /\ (~ In dir IMAGE_DIRECTORIES -> readdirSync (cleanupOldImages d) dir = readdirSync d dir).
Proof.
  assert (R : readdirSync (cleanupOldImages d) dir
              = if existsb (fun n => JsString.eqb n dir) IMAGE_DIRECTORIES
                then option_map (filter (fun f => negb (isImage (name f)))) (readdirSync d dir)
                else readdirSync d dir).
  { rewrite cleanupOldImages_unfold, !cleanupDirectory_readdir.
    unfold IMAGE_DIRECTORIES. cbn [existsb].
    destruct (JsString.eqb (str "alerts") dir) eqn:A;
      destruct (JsString.eqb (str "debug") dir) eqn:D;
      destruct (JsString.eqb (str "evidence") dir) eqn:E; cbn [orb];
      try reflexivity;
      try (apply eqb_spec in A); try (apply eqb_spec in D); try (apply eqb_spec in E);
      subst; try discriminate;
      destruct (readdirSync d _); reflexivity. }
  split.
  - intros Hin.
    assert (Ex : existsb (fun n => JsString.eqb n dir) IMAGE_DIRECTORIES = true)
      by (apply existsb_exists; exists dir; split; [exact Hin|apply eqb_refl]).
    rewrite Ex in R. unfold images, others, existsSync. rewrite R.
    destruct (readdirSync d dir) as [files|]; cbn [option_map]; [|auto].
    split; [apply (filter_filter_neg (fun f => isImage (name f)))|].
    split; [apply (filter_idem (fun f => negb (isImage (name f))))|reflexivity].
  - intros Hnin.
    assert (Ex : existsb (fun n => JsString.eqb n dir) IMAGE_DIRECTORIES = false).
    { destruct (existsb _ _) eqn:E; [|reflexivity]. exfalso.
      apply existsb_exists in E. destruct E as (n & Hn & En). apply eqb_spec in En.
      subst n. auto. }
    rewrite Ex in R. exact R.
Qed.

(** ** Keeping the newest images *)

Lemma insert_perm (x : file) (l : list file) : Permutation (insert x l) (x :: l).
Proof.
  induction l as [|y t IH]; cbn [insert]; [reflexivity|].
  destruct (mtime x <? mtime y)%Z; [|reflexivity].
  rewrite IH. apply perm_swap.
Qed.

Lemma sort_perm (l : list file) : Permutation (sortNewestFirst l) l.
Proof.
  induction l as [|x l IH]; [reflexivity|].
  cbn [sortNewestFirst fold_right]. fold (sortNewestFirst l).
  rewrite insert_perm, IH. reflexivity.
Qed.

Lemma insert_sorted (x : file) (l : list file) :
  StronglySorted newer l -> StronglySorted newer (insert x l).
Proof.
  induction l as [|y t IH]; intros S; cbn [insert].
  - repeat constructor.
  - inversion S as [|? ? St Hy]; subst.
    destruct (Z.ltb_spec (mtime x) (mtime y)) as [L|L].
    + constructor; [apply IH; exact St|].
      apply Forall_forall. intros z Hz.
      apply (Permutation_in _ (insert_perm x t)) in Hz. destruct Hz as [<-|Hz].
      * unfold newer. lia.
      * rewrite Forall_forall in Hy. apply Hy, Hz.
    + constructor; [exact S|]. constructor; [exact L|].
      rewrite Forall_forall in Hy |- *. intros z Hz. specialize (Hy z Hz).
      unfold newer in *. lia.
Qed.

Lemma sort_sorted (l : list file) : StronglySorted newer (sortNewestFirst l).
Proof.
  induction l as [|x l IH]; [constructor|].
  cbn [sortNewestFirst fold_right]. apply insert_sorted. exact IH.
Qed.

Lemma sorted_split (l : list file) :
  StronglySorted newer l ->
  forall k a b, In a (firstn k l) -> In b (skipn k l) -> newer a b.
Proof.
  induction 1 as [|x l S IH Hx]; intros k a b Ha Hb.
  - rewrite firstn_nil in Ha. destruct Ha.
  - destruct k as [|k]; [destruct Ha|]. cbn [firstn skipn] in Ha, Hb.
    destruct Ha as [<-|Ha]; [|eapply IH; eassumption].
    rewrite Forall_forall in Hx. apply Hx. eapply In_skipn. exact Hb.
Qed.

Lemma Permutation_filter {A : Type} (p : A -> bool) (l l' : list A) :
  Permutation l l' -> Permutation (filter p l) (filter p l').
Proof.
  induction 1 as [|x l l' _ IH|x y l|l l' l'' _ IH1 _ IH2]; cbn [filter].
  - reflexivity.
  - destruct (p x); [constructor|]; exact IH.
  - destruct (p x), (p y); try reflexivity. apply perm_swap.
  - etransitivity; eassumption.
Qed.

Lemma mem_In (x : jsstring) (l : list jsstring) : mem x l = true <-> In x l.
Proof.
  unfold mem. rewrite existsb_exists. split.
  - intros (y & Hy & E). apply eqb_spec in E. subst y. exact Hy.
  - intros H. exists x. split; [exact H|apply eqb_refl].
Qed.

(** Dropping the names of a tail of a name list without repetition leaves
    the head. *)
Lemma drop_tail (K D : list jsstring) :
  NoDup (K ++ D) -> filter (fun x => negb (mem x D)) (K ++ D) = K.
Proof.
  intros N. rewrite filter_app.
  replace (filter (fun x => negb (mem x D)) D) with (@nil jsstring).
  - rewrite app_nil_r. apply forallb_filter_id. apply forallb_forall. intros x Hx.
    destruct (mem x D) eqn:M; [|reflexivity]. exfalso. apply mem_In in M.
    apply NoDup_app_remove_l in N as N'.
    revert Hx M. clear -N. induction K as [|y K IH]; intros Hx M; [destruct Hx|].
    inversion N as [|? ? Hy N']; subst. destruct Hx as [<-|Hx].
    + apply Hy. apply in_or_app. right. exact M.
    + apply IH; assumption.
  - symmetry. induction D as [|x D' IH] in |- *; [reflexivity|].
    assert (G : forall l, (forall y, In y l -> In y (x :: D')) ->
                          filter (fun z => negb (mem z (x :: D'))) l = []).
    { induction l as [|y l IHl]; intros Hl; [reflexivity|]. cbn [filter].
      assert (My : mem y (x :: D') = true) by (apply mem_In, Hl; left; reflexivity).
      rewrite My. cbn [negb]. apply IHl. intros z Hz. apply Hl. right. exact Hz. }
    apply G. auto.
Qed.

Lemma fold_left_names {A B C : Type} (g : A -> B -> A) (h : C -> B) (l : list C) :
  forall a, fold_left (fun a x => g a (h x)) l a = fold_left g (map h l) a.
Proof. induction l as [|x l IH]; intros a; [reflexivity|]. cbn. apply IH. Qed.

Lemma filter_swap {A : Type} (p q : A -> bool) (l : list A) :
  filter p (filter q l) = filter q (filter p l).
Proof.
  induction l as [|x l IH]; [reflexivity|]. cbn [filter].
  destruct (p x) eqn:P; destruct (q x) eqn:Q; cbn [filter]; rewrite ?P, ?Q, IH; reflexivity.
Qed.

Lemma map_filter_name (q : jsstring -> bool) (l : list file) :
  map name (filter (fun f => q (name f)) l) = filter q (map name l).
Proof.
  induction l as [|f l IH]; [reflexivity|]. cbn [filter map].
  destruct (q (name f)); cbn [map]; rewrite IH; reflexivity.
Qed.

Section KeepRecent.

Variable dirName : jsstring.
Variable keepCount : Z.
Variable d : fileSystem.
Variable files : list file.
Hypothesis listing : readdirSync d dirName = Some files.
Hypothesis unique_names : NoDup (map name files).

Let imageFiles : list jsstring := filter isImage (map name files).
Let stat (fileName : jsstring) : file := {| name := fileName; mtime := statSync files fileName |}.
Let fileStats : list file := sortNewestFirst (map stat imageFiles).
Let start : nat :=
  Z.to_nat (if (keepCount <? 0)%Z
            then Z.max (Z.of_nat (List.length fileStats) + keepCount) 0
            else Z.min keepCount (Z.of_nat (List.length fileStats))).
Let D : list jsstring := map name (skipn start fileStats).
Let K : list jsstring := map name (firstn start fileStats).

Lemma stats_names : Permutation (map name fileStats) imageFiles.
Proof.
  unfold fileStats. rewrite (Permutation_map name (sort_perm _)).
  rewrite map_map. cbn. rewrite map_id. reflexivity.
Qed.

Lemma stats_length : List.length fileStats = List.length imageFiles.
Proof.
  rewrite <- (Permutation_length stats_names). symmetry. apply length_map.
Qed.

Lemma images_nodup : NoDup imageFiles.
Proof. apply NoDup_filter. exact unique_names. Qed.

Lemma kept_deleted : NoDup (K ++ D) /\ Permutation imageFiles (K ++ D).
Proof.
  assert (E : K ++ D = map name fileStats)
    by (unfold K, D; rewrite <- map_app, firstn_skipn; reflexivity).
  rewrite E. split.
  - apply (Permutation_NoDup (Permutation_sym stats_names)). exact images_nodup.
  - symmetry. exact stats_names.
Qed.

Lemma keepRecent_readdir (dir' : jsstring) :
  (Z.of_nat (List.length imageFiles) <=? keepCount)%Z = false ->
  readdirSync (keepRecentImages dirName keepCount d) dir'
  = if JsString.eqb dirName dir'
    then option_map (filter (fun f => negb (mem (name f) D))) (readdirSync d dir')
    else readdirSync d dir'.
Proof.
  intros Hn. unfold keepRecentImages, existsSync. rewrite listing. cbn [negb].
  fold imageFiles. rewrite Hn. fold stat. fold fileStats.
  unfold sliceFrom. fold start.
  destruct (Nat.ltb 0 (List.length (skipn start fileStats))) eqn:L.
  - rewrite (fold_left_names (fun d n => unlinkSync dirName n d) name). fold D.
    rewrite unlink_all. reflexivity.
  - apply Nat.ltb_ge in L.
    assert (E : D = []) by (unfold D; destruct (skipn start fileStats); [reflexivity|simpl in L; lia]).
    rewrite E. destruct (JsString.eqb dirName dir'); [|reflexivity].
    destruct (readdirSync d dir') as [l|]; [|reflexivity]. cbn [option_map]. f_equal.
    symmetry. apply forallb_filter_id. apply forallb_forall. reflexivity.
Qed.

Lemma stat_of (f : file) : In f files -> stat (name f) = f.
Proof.
  intros Hin. unfold stat, statSync.
  assert (G : forall l, NoDup (map name l) -> In f l ->
                        find (fun g => JsString.eqb (name g) (name f)) l = Some f).
  { induction l as [|g l IH]; intros N Hl; [destruct Hl|].
    destruct Hl as [<-|Hl]; cbn [find].
    - rewrite eqb_refl. reflexivity.
    - inversion N as [|? ? Hg N']; subst.
      destruct (JsString.eqb (name g) (name f)) eqn:E; [|apply IH; assumption].
      apply eqb_spec in E. exfalso. apply Hg. rewrite E. apply in_map. exact Hl. }
  rewrite (G files unique_names Hin). destruct f; reflexivity.
Qed.

Lemma stats_entries (a : file) :
  In a fileStats -> exists f, In f files /\ isImage (name f) = true /\ a = f.
Proof.
  intros Ha. apply (Permutation_in _ (sort_perm _)) in Ha.
  apply in_map_iff in Ha. destruct Ha as (x & <- & Hx).
  apply filter_In in Hx. destruct Hx as [Hx I].
  apply in_map_iff in Hx. destruct Hx as (f & <- & Hf).
  exists f. split; [exact Hf|]. split; [exact I|]. apply stat_of. exact Hf.
Qed.

Lemma images_after :
  (Z.of_nat (List.length imageFiles) <=? keepCount)%Z = false ->
  images (keepRecentImages dirName keepCount d) dirName
  = filter (fun f => negb (mem (name f) D)) (images d dirName).
Proof.
  intros Hn. unfold images. rewrite (keepRecent_readdir _ Hn), eqb_refl, listing.
  cbn [option_map]. apply filter_swap.
Qed.

Lemma image_names : map name (images d dirName) = imageFiles.
Proof.
  unfold images, imageFiles. rewrite listing. apply map_filter_name.
Qed.

Lemma kept_names :
  (Z.of_nat (List.length imageFiles) <=? keepCount)%Z = false ->
  Permutation (map name (images (keepRecentImages dirName keepCount d) dirName)) K.
Proof.
  intros Hn. rewrite (images_after Hn).
  rewrite (map_filter_name (fun x => negb (mem x D))), image_names.
  destruct kept_deleted as [N P].
  rewrite (Permutation_filter _ P). rewrite (drop_tail _ _ N). reflexivity.
Qed.

Lemma keepRecent_facts :
  let after := keepRecentImages dirName keepCount d in
  others after dirName = others d dirName
  /\ (forall dir, dir <> dirName -> readdirSync after dir = readdirSync d dir)
  /\ (forall f, In f (images after dirName) -> In f (images d dirName))
  /\ List.length (images after dirName)
     = keptCount (List.length (images d dirName)) keepCount
  /\ (forall f g,
         In f (images after dirName) -> In g (images d dirName) ->
         ~ In g (images after dirName) -> (mtime g <= mtime f)%Z).
Proof.
  intros after.
  assert (Len : List.length (images d dirName) = List.length imageFiles)
    by (rewrite <- image_names; symmetry; apply length_map).
  destruct (Z.of_nat (List.length imageFiles) <=? keepCount)%Z eqn:Hn.
  { assert (E : after = d).
    { unfold after, keepRecentImages, existsSync. rewrite listing. cbn [negb].
      fold imageFiles. rewrite Hn. reflexivity. }
    rewrite E. split; [reflexivity|]. split; [reflexivity|]. split; [auto|].
    split; [|intros f g _ Hg Hng; contradiction].
    unfold keptCount. rewrite Len, Hn. reflexivity. }
  split.
  { unfold others, after. rewrite (keepRecent_readdir _ Hn), eqb_refl, listing.
    cbn [option_map]. rewrite filter_swap.
    apply forallb_filter_id. apply forallb_forall. intros f Hf.
    apply filter_In in Hf. destruct Hf as [Hf I].
    destruct (mem (name f) D) eqn:M; [|reflexivity]. exfalso.
    apply mem_In in M. unfold D in M. apply in_map_iff in M.
    destruct M as (b & Eb & Hb).
    destruct (stats_entries b (In_skipn _ _ _ Hb)) as (fb & _ & Ib & ->).
    rewrite Eb in Ib. rewrite Ib in I. discriminate. }
  split.
  { intros dir Hd. unfold after. rewrite (keepRecent_readdir _ Hn).
    rewrite eqb_neq by congruence. reflexivity. }
  split.
  { intros f Hf. unfold after in Hf. rewrite (images_after Hn) in Hf.
    apply filter_In in Hf. apply Hf. }
  split.
  { unfold after. rewrite <- (length_map name (images _ _)).
    rewrite (Permutation_length (kept_names Hn)).
    unfold K. rewrite length_map, length_firstn. unfold keptCount. rewrite Len, Hn.
    unfold start. rewrite stats_length. apply Z.leb_gt in Hn.
    destruct (keepCount <? 0)%Z eqn:Neg; [apply Z.ltb_lt in Neg|apply Z.ltb_ge in Neg]; lia. }
  intros f g Hf Hg Hng.
  assert (Kf : In (name f) K)
    by (apply (Permutation_in _ (kept_names Hn)); apply in_map; exact Hf).
  assert (Dg : In (name g) D).
  { unfold after in Hng. rewrite (images_after Hn) in Hng.
    destruct (mem (name g) D) eqn:M; [apply mem_In; exact M|].
    exfalso. apply Hng. apply filter_In. split; [exact Hg|]. rewrite M. reflexivity. }
  unfold K in Kf. unfold D in Dg.
  apply in_map_iff in Kf. destruct Kf as (a & Ea & Ha).
  apply in_map_iff in Dg. destruct Dg as (b & Eb & Hb).
  pose proof (@sorted_split fileStats (sort_sorted _) start a b Ha Hb) as Hab.
  destruct (stats_entries a (In_firstn _ _ _ Ha)) as (fa & Hfa & _ & ->).
  destruct (stats_entries b (In_skipn _ _ _ Hb)) as (fb & Hfb & _ & ->).
  assert (Inj : forall x y, In x files -> In y files -> name x = name y -> x = y).
  { intros x y Hx Hy E. rewrite <- (stat_of x Hx), <- (stat_of y Hy), E. reflexivity. }
  assert (Ff : In f files).
  { unfold after in Hf. rewrite (images_after Hn) in Hf. apply filter_In in Hf.
    destruct Hf as [Hf _]. unfold images in Hf. rewrite listing in Hf.
    apply filter_In in Hf. apply Hf. }
  assert (Fg : In g files).
  { unfold images in Hg. rewrite listing in Hg. apply filter_In in Hg. apply Hg. }
  rewrite (Inj fa f Hfa Ff Ea) in Hab. rewrite (Inj fb g Hfb Fg Eb) in Hab.
  exact Hab.
Qed.


(** X15. [keepRecentImages], on a directory whose entries have distinct
    names: the entries that are no images stay; the images that stay are
    images of before, as many as [keptCount] tells, and none of them is
    older than an image that was removed; the other directories are
    untouched. *)
Theorem keepRecentImages_keeps_newest :
  let after := keepRecentImages dirName keepCount d in
  others after dirName = others d dirName
  /\ (forall dir, dir <> dirName -> readdirSync after dir = readdirSync d dir)
  /\ (forall f, In f (images after dirName) -> In f (images d dirName))
  /\ List.length (images after dirName)
     = keptCount (List.length (images d dirName)) keepCount
  /\ (forall f g,
         In f (images after dirName) -> In g (images d dirName) ->
         ~ In g (images after dirName) -> (mtime g <= mtime f)%Z).
Proof. exact keepRecent_facts. Qed.

End KeepRecent.

Import JsString Regex JsNum Obs RegexLang TextDetection Monitor Trace AirConnect.

(** ** The crop regions *)

(** X16. For a crop area with a corner on or right of and below the origin
    and positive sides, the region handed to [extract] can be cut exactly
    when that corner lies on the screen; it is then the part of the area
    that is on the screen, and the whole area unless the warning about the
    screen bounds is given. *)
Theorem cropRegion_on_screen (a : area) (fullWidth fullHeight : Z) :
  (0 <= x a)%Z -> (0 <= y a)%Z -> (0 < width a)%Z -> (0 < height a)%Z ->
  let r := cropRegion a fullWidth fullHeight in
  (extractable r fullWidth fullHeight <-> (x a < fullWidth /\ y a < fullHeight)%Z)
  /\ left r = x a /\ top r = y a
  /\ (regionWidth r <= width a)%Z /\ (regionHeight r <= height a)%Z
  /\ (beyondScreen a fullWidth fullHeight = false ->
      regionWidth r = width a /\ regionHeight r = height a
      /\ extractable r fullWidth fullHeight).
Proof.
  intros Hx Hy Hw Hh r. unfold extractable, r, cropRegion, beyondScreen. cbn.
  split; [lia|]. split; [lia|]. split; [lia|]. split; [lia|]. split; [lia|].
  intros H. apply orb_false_iff in H. destruct H as [H1 H2].
  apply Z.ltb_ge in H1. apply Z.ltb_ge in H2. lia.
Qed.

(** ** Small crops are not analysed *)

(** X17. A capture with an empty crop, or with a boost crop under 500 bytes,
    an odds crop under 1500 or a details crop under 3000, makes the handler
    count one failure and send nothing, whatever the odds crop reads;
    any other capture reaches the handler with both flags clear and its
    text, and the handler then sends the odds test and stores the
    percentage of that text. *)
Theorem small_crops_count_as_failures (c : cropSizes) (text : option jsstring)
        (now : Z) (s : state) :
  let small :=
    (boostCropSize c =? 0)%Z || (oddsCropSize c =? 0)%Z || (oddsGrayscaleSize c =? 0)%Z
    || (boostDetailsCropSize c =? 0)%Z
    || (boostCropSize c <? 500)%Z || (oddsCropSize c <? 1500)%Z
    || (boostDetailsCropSize c <? 3000)%Z in
  (small = true ->
   onScreenData now (emitScreenData c text) s = (countFailure s, []))
  /\ (small = false ->
      emitScreenData c text
      = {| cropFailed := false; cropTooSmall := false; oddsText := text |}
      /\ Monitor.detectedBoostPercentage (fst (onScreenData now (emitScreenData c text) s))
         = cyclePercentage (emitScreenData c text)
      /\ count is_odds_test (snd (onScreenData now (emitScreenData c text) s)) = 1%nat).
Proof.
  intros small. unfold small, emitScreenData.
  destruct ((boostCropSize c =? 0)%Z || (oddsCropSize c =? 0)%Z
            || (oddsGrayscaleSize c =? 0)%Z || (boostDetailsCropSize c =? 0)%Z) eqn:Z0.
  - split; [intros _; reflexivity|discriminate].
  - cbn [orb].
    destruct (boostCropSize c <? 500)%Z, (oddsCropSize c <? 1500)%Z,
      (boostDetailsCropSize c <? 3000)%Z; cbn [orb];
      (split; [try discriminate; intros _; reflexivity|try discriminate]).
    intros _. split; [reflexivity|].
    unfold cyclePercentage, onScreenData. cbn [cropFailed cropTooSmall].
    destruct (boostPercentage _) as [p|]; [|split; reflexivity].
    cbn [detectedPreBoostOdds detectedPostBoostOdds].
    destruct (isDifferentBoost _ _ _ _); [|split; reflexivity].
    destruct (gt p (of_Z 49)); split; reflexivity.
Qed.

Import JsString Regex JsNum Obs RegexLang TextDetection BoostCalculator.

(** ** Odds the calculator cannot read *)

Lemma add_NaN_l (b : num) : add NaN b = NaN.
Proof. destruct b; reflexivity. Qed.

Lemma add_NaN_r (a : num) : add a NaN = NaN.
Proof. destruct a; reflexivity. Qed.

Lemma sub_NaN_l (b : num) : sub NaN b = NaN.
Proof. unfold sub. apply add_NaN_l. Qed.

Lemma sub_NaN_r (a : num) : sub a NaN = NaN.
Proof. unfold sub. apply add_NaN_r. Qed.

Lemma div_NaN_l (b : num) : div NaN b = NaN.
Proof. destruct b; reflexivity. Qed.

Lemma div_NaN_r (a : num) : div a NaN = NaN.
Proof. destruct a; reflexivity. Qed.

Lemma mul_NaN_l (b : num) : mul NaN b = NaN.
Proof. destruct b; reflexivity. Qed.

Lemma americanToDecimal_NaN (s : jsstring) :
  parseInt (strip_signs s) = None -> americanToDecimal s = NaN.
Proof.
  intros H. unfold americanToDecimal. fold (strip_signs s). rewrite H. cbn [of_int].
  rewrite div_NaN_l, div_NaN_r, add_NaN_l.
  destruct (startsWith s (str "+")); [reflexivity|].
  destruct (startsWith s (str "-")); reflexivity.
Qed.

(** X18. When the digits of either odds string do not read as a number, the
    calculated percentage and the discrepancy are NaN, not the 0 of the
    [catch] branch, and the discrepancy is never significant, whatever the
    detected percentage and the threshold. *)
Theorem unreadable_odds_are_never_significant
        (detected : num) (pre post : jsstring) (threshold : option num) :
  parseInt (strip_signs pre) = None \/ parseInt (strip_signs post) = None ->
  let r := verifyBoostAccuracy detected pre post threshold in
  calculateActualBoostPercentage pre post = NaN
  /\ actualBoostPercentage r = NaN
  /\ discrepancy r = NaN
  /\ isSignificantDiscrepancy r = false.
Proof.
  intros H r.
  assert (E : calculateActualBoostPercentage pre post = NaN).
  { unfold calculateActualBoostPercentage. destruct H as [H|H].
    - rewrite (americanToDecimal_NaN _ H), sub_NaN_r, div_NaN_l.
      reflexivity.
    - rewrite (americanToDecimal_NaN _ H), sub_NaN_l, div_NaN_l.
      reflexivity. }
  unfold r, verifyBoostAccuracy. cbn. rewrite E, sub_NaN_l. auto.
Qed.

Import PixelCrop.

Lemma hasContent_spec (data : pixels) (w x : nat) :
  forall rows y,
    hasContent data w x y rows = true
    <-> exists y', (y <= y' < y + rows)%nat /\ isContent data w x y' = true.
Proof.
  induction rows as [|rows IH]; intros y; cbn [hasContent].
  - split; [discriminate|]. intros (y' & H & _). lia.
  - destruct (isContent data w x y) eqn:C.
    + split; [|reflexivity]. intros _. exists y. split; [lia|exact C].
    + rewrite IH. split.
      * intros (y' & H & Hc). exists y'. split; [lia|exact Hc].
      * intros (y' & H & Hc). exists y'. split; [|exact Hc].
        destruct (Nat.eq_dec y' y) as [->|N]; [congruence|lia].
Qed.

(** The column the scan stops at has content and no column right of it
    has; the scan gives 0 when no column has content. *)
Lemma scanColumns_spec (data : pixels) (w h : nat) :
  forall columns,
    let r := scanColumns data w h columns in
    (forall x, (r < x < columns)%nat -> hasContent data w x 0 h = false)
    /\ (hasContent data w r 0 h = true /\ (r < columns)%nat
        \/ r = 0%nat /\ forall x, (x < columns)%nat -> hasContent data w x 0 h = false).
Proof.
  induction columns as [|x IH]; cbn [scanColumns].
  - split; [intros x H; lia|]. right. split; [reflexivity|]. intros x H. lia.
  - destruct (hasContent data w x 0 h) eqn:C.
    + split; [intros x' H; lia|]. left. split; [exact C|lia].
    + destruct IH as [IH1 IH2]. split.
      * intros x' H. destruct (Nat.eq_dec x' x) as [->|N]; [exact C|apply IH1; lia].
      * destruct IH2 as [[H1 H2]|[H1 H2]]; [left; split; [exact H1|lia]|].
        right. split; [exact H1|]. intros x' H.
        destruct (Nat.eq_dec x' x) as [->|N]; [exact C|apply H2; lia].
Qed.

(** X19. The pixel analysis gives no bounds exactly when no column other
    than the leftmost holds a pixel darker than 240.  Bounds it gives are at
    least 200 wide and 100 high, at most as wide as the image or 200, and
    reach to the rightmost column with such a pixel plus the padding: with a
    padding of at least 1 on an image as wide as its pixel rows, every dark
    pixel lies left of the crop's right edge. *)
Theorem pixel_bounds_cover_content (data : pixels) (w h : nat)
        (originalWidth originalHeight padding : Z) :
  let result := getPixelBasedCropBounds data w h originalWidth originalHeight padding in
  (result = None
   <-> forall x y, (1 <= x < w)%nat -> (y < h)%nat -> isContent data w x y = false)
  /\ forall b,
       result = Some b ->
       (200 <= width b)%Z /\ (100 <= height b)%Z
       /\ (width b <= Z.max originalWidth 200)%Z
       /\ exists r,
            (1 <= r < w)%nat
            /\ (exists y, (y < h)%nat /\ isContent data w r y = true)
            /\ (forall x y, (r < x < w)%nat -> (y < h)%nat -> isContent data w x y = false)
            /\ width b = Z.max (Z.min (Z.of_nat r + padding) originalWidth) 200
            /\ height b = Z.max (originalHeight - 50) 100
            /\ ((1 <= padding)%Z -> (Z.of_nat w <= originalWidth)%Z ->
                forall x y, (x < w)%nat -> (y < h)%nat ->
                            isContent data w x y = true -> (Z.of_nat x < width b)%Z).
Proof.
  intros result. unfold result, getPixelBasedCropBounds.
  destruct (scanColumns_spec data w h w) as [Right Stop].
  set (r := scanColumns data w h w) in *.
  assert (NoC : forall x, hasContent data w x 0 h = false ->
                          forall y, (y < h)%nat -> isContent data w x y = false).
  { intros x Hx y Hy. destruct (isContent data w x y) eqn:C; [|reflexivity].
    assert (T : hasContent data w x 0 h = true)
      by (apply hasContent_spec; exists y; split; [lia|exact C]).
    congruence. }
  destruct (Z.eqb_spec (Z.of_nat r) 0) as [Z0|Z0].
  - split; [|discriminate]. split; [|reflexivity]. intros _ x y Hx Hy.
    assert (R0 : r = 0%nat) by lia.
    apply NoC; [|exact Hy]. apply Right. lia.
  - split.
    { split; [discriminate|]. intros H. exfalso.
      destruct Stop as [[Hc Hr]|[H0 _]]; [|lia].
      apply hasContent_spec in Hc. destruct Hc as (y & Hy & Hc).
      rewrite H in Hc; [discriminate|lia|lia]. }
    intros b E. injection E as <-. cbn [width height].
    split; [lia|]. split; [lia|]. split; [lia|].
    destruct Stop as [[Hc Hr]|[H0 _]]; [|lia].
    exists r. split; [lia|]. split.
    { apply hasContent_spec in Hc. destruct Hc as (y & Hy & Hc). exists y. split; [lia|exact Hc]. }
    split; [intros x y Hx Hy; apply NoC; [apply Right; exact Hx|exact Hy]|].
    split; [reflexivity|]. split; [reflexivity|].
    intros Hp Hw x y Hx Hy C.
    assert (x <= r)%nat.
    { destruct (Nat.le_gt_cases x r) as [L|L]; [exact L|].
      rewrite (NoC x) in C; [discriminate|apply Right; lia|exact Hy]. }
    lia.
Qed.

Import JsString JsShow ImageCleanup Storage.

(** ** The image directories stay small *)






(** Filtering by name sees no difference after an update that keeps the
    names. *)
Lemma filter_renamed (q : jsstring -> bool) (g : file -> file) (files : list file) :
  (forall f, name (g f) = name f) ->
  map name (filter (fun f => q (name f)) (map g files))
  = map name (filter (fun f => q (name f)) files).
Proof.
  intros G. rewrite !map_filter_name, map_map. f_equal. apply map_ext. exact G.
Qed.






(** ** One operation *)









(** ** The cycles *)













Import JsString Regex JsNum Obs RegexLang TextDetection Monitor Trace DiscordBot.

(** ** Who is tagged on a boost alert *)





(** ** The further theorems at concrete inputs *)


(** X6 on two failed captures and a check after a boost. *)
Lemma failure_counter_counts_witness :
  let es2 := [ScreenData 200 (capture "no odds here"); NumberFailureTick;
              ScreenData 300 (capture "nor here")] in
  forallb noParse es2 = true
  /\ consecutiveNumberFailures (fst (run es2 (afterFailures 3 0))) = (3 + 2)%Z
  /\ consecutiveNumberFailures
       (fst (run ([NoNewBoostTick 50] ++ ScreenData 100 (capture "Was +950 > Now +1129") :: es2)
                 (afterFailures 3 0))) = 2%Z.
Proof.
  intros es2. split; [reflexivity|].
  destruct (@failure_counter_counts [NoNewBoostTick 50] es2 100
              (capture "Was +950 > Now +1129") (afterFailures 3 0) eq_refl) as [H1 H2].
  split; [exact H1|]. exact (H2 (Fin (94 # 5)) eq_refl).
Defined.

(** X8 at the text ["Boost soon"]. *)
Lemma nothing_without_digits_witness :
  no_digit (str "Boost soon")
  /\ detectOdds (str "Boost soon") = (None, None)
  /\ detectBetAmount (str "Boost soon") = None
  /\ extractWasOdds (Some (str "Boost soon")) = None
  /\ hasSeeAll (detectSeeAllText (Some (str "Boost soon"))) = false.
Proof.
  assert (N : no_digit (str "Boost soon")).
  { intros c Hc. vm_compute in Hc.
    repeat (destruct Hc as [<-|Hc]; [reflexivity|]). destruct Hc. }
  split; [exact N|].
  destruct (nothing_without_digits N) as (H1 & _ & H2 & H3 & H4).
  split; [exact H1|]. split; [exact H2|]. split; [exact H3|exact H4].
Defined.

(** X9 at the text ["See  All 12 selections"]. *)
Lemma seeAll_by_second_pattern_witness :
  hasSeeAll (detectSeeAllText (Some (str "See  All 12 selections"))) = true
  /\ exists before s1 s2 number after x y,
       str "See  All 12 selections" = before ++ x ++ s1 ++ y ++ s2 ++ number ++ after
       /\ toLowerCase x = str "see" /\ toLowerCase y = str "all"
       /\ s1 <> [] /\ Forall (fun c => is_space c = true) s1
       /\ s2 <> [] /\ Forall (fun c => is_space c = true) s2
       /\ number <> [] /\ all_digits number.
Proof.
  split; [reflexivity|].
  exact (proj1 (proj2 seeAll_by_second_pattern) (str "See  All 12 selections") eq_refl).
Defined.

(** X11 at the text ["Was +950 Now +1129"]. *)
Lemma extractWasOdds_shape_witness :
  extractWasOdds (Some (str "Was +950 Now +1129")) = Some (str "+950")
  /\ exists ds before after,
       str "+950" = 43%N :: ds /\ all_digits ds /\ (2 <= List.length ds <= 5)%nat
       /\ str "Was +950 Now +1129" = before ++ ds ++ after.
Proof.
  split; [reflexivity|].
  exact (proj1 extractWasOdds_shape (str "Was +950 Now +1129") (str "+950") eq_refl).
Defined.

(** X12 two hours and five minutes after the start. *)
Lemma uptime_hours_minutes_witness :
  (1000 <= 7501000)%Z
  /\ formatUptime 7501000 1000 = str "2h 5m"
  /\ parseInt (formatUptime 7501000 1000) = Some 2%Z
  /\ formatUptimeMs (7501000 - 1000) = formatUptime 7501000 1000.
Proof.
  assert (L : (1000 <= 7501000)%Z) by lia.
  split; [exact L|].
  destruct (@uptime_hours_minutes 7501000 1000 L) as (H1 & _ & _ & _ & H2 & H3).
  split; [exact H1|]. split; [exact H2|exact H3].
Defined.

(** X15 on a directory of three images and a text file, keeping two. *)
Lemma keepRecentImages_keeps_newest_witness :
  let files := [ {| name := str "a.png"; mtime := 10 |};
                 {| name := str "b.PNG"; mtime := 30 |};
                 {| name := str "notes.txt"; mtime := 5 |};
                 {| name := str "c.jpg"; mtime := 20 |} ] in
  let d := [(str "debug", files)] in
  let after := keepRecentImages (str "debug") 2 d in
  readdirSync d (str "debug") = Some files
  /\ NoDup (map name files)
  /\ readdirSync after (str "debug")
     = Some [ {| name := str "b.PNG"; mtime := 30 |};
              {| name := str "notes.txt"; mtime := 5 |};
              {| name := str "c.jpg"; mtime := 20 |} ]
  /\ others after (str "debug") = others d (str "debug")
  /\ List.length (images after (str "debug")) = 2%nat
  /\ (forall f g,
         In f (images after (str "debug")) -> In g (images d (str "debug")) ->
         ~ In g (images after (str "debug")) -> (mtime g <= mtime f)%Z).
Proof.
  intros files d after.
  assert (E : readdirSync d (str "debug") = Some files) by reflexivity.
  assert (N : NoDup (map name files)).
  { repeat (constructor; [simpl; intuition discriminate|]). constructor. }
  split; [exact E|]. split; [exact N|]. split; [reflexivity|].
  destruct (@keepRecentImages_keeps_newest (str "debug") 2 d files E N)
    as (H1 & _ & _ & H2 & H3).
  split; [exact H1|]. split; [exact H2|exact H3].
Defined.

(** X16 at the details area on a screen of 1920 by 1080 pixels, and on one
    of 1000 by 1080. *)
Lemma cropRegion_on_screen_witness :
  cropRegion BOOST_DETAILS_CROP_AREA 1920 1080
  = {| left := 737; top := 560; regionWidth := 445; regionHeight := 280 |}
  /\ extractable (cropRegion BOOST_DETAILS_CROP_AREA 1920 1080) 1920 1080
  /\ cropRegion BOOST_DETAILS_CROP_AREA 1000 1080
     = {| left := 737; top := 560; regionWidth := 263; regionHeight := 280 |}
  /\ extractable (cropRegion BOOST_DETAILS_CROP_AREA 1000 1080) 1000 1080.
Proof.
  split; [reflexivity|]. split.
  - apply (@cropRegion_on_screen BOOST_DETAILS_CROP_AREA 1920 1080); simpl; try lia.
    reflexivity.
  - split; [reflexivity|].
    apply (proj1 (@cropRegion_on_screen BOOST_DETAILS_CROP_AREA 1000 1080
                    ltac:(simpl; lia) ltac:(simpl; lia) ltac:(simpl; lia) ltac:(simpl; lia))).
    simpl. lia.
Defined.

(** X18 at the odds [+abc] and [+150]. *)
Lemma unreadable_odds_are_never_significant_witness :
  parseInt (strip_signs (str "+abc")) = None
  /\ calculateActualBoostPercentage (str "+abc") (str "+150") = NaN
  /\ isSignificantDiscrepancy
       (verifyBoostAccuracy (Fin 50) (str "+abc") (str "+150") (Some (Fin 0))) = false.
Proof.
  split; [reflexivity|].
  destruct (@unreadable_odds_are_never_significant (Fin 50) (str "+abc") (str "+150")
              (Some (Fin 0)) (or_introl eq_refl)) as (H1 & _ & _ & H2).
  split; [exact H1|exact H2].
Defined.

(** X19 on an image of four by two pixels with one dark pixel in the third
    column. *)
Lemma pixel_bounds_cover_content_witness :
  let data := [255; 255; 100; 255; 255; 255; 255; 255]%Z in
  getPixelBasedCropBounds data 4 2 4 2 20
  = Some {| PixelCrop.width := 200; PixelCrop.height := 100 |}
  /\ exists r,
       (1 <= r < 4)%nat
       /\ (exists y, (y < 2)%nat /\ isContent data 4 r y = true)
       /\ (forall x y, (r < x < 4)%nat -> (y < 2)%nat -> isContent data 4 x y = false)
       /\ 200%Z = Z.max (Z.min (Z.of_nat r + 20) 4) 200.
Proof.
  intros data. split; [reflexivity|].
  destruct (proj2 (pixel_bounds_cover_content data 4 2 4 2 20) _ eq_refl)
    as (_ & _ & _ & r & H1 & H2 & H3 & H4 & _).
  exists r. split; [exact H1|]. split; [exact H2|]. split; [exact H3|exact H4].
Defined.


